(** * FTC assistant: the answering pipeline, embedded and verified

    A shallow embedding of the retrieval-augmented answering pipeline
    (the RAG library, the Gemini client, the chat route with its
    request handler, the ingestion script and the client's
    parseAssistantPayload), followed by the properties the
    specification states about it (Part II) and by further properties
    of the code (Part III).

    Conventions of the embedding
    - a JavaScript string is a [string]: a sequence of code units, here
      restricted to the 8-bit range (so the only line terminators are
      LF and CR, and the white space characters are TAB, LF, VT, FF, CR,
      SPACE and NBSP);
    - an embedding component is a binary64 [float];
    - an index or a length is a [nat] or, where the source computes with
      possibly negative values, a [Z];
    - a call that may throw returns a [result];
    - a loop that may not terminate takes fuel and returns [None] when
      it runs out. *)

From Stdlib Require Import ZArith Lia List Ascii String Floats Uint63 Bool.
From stdpp Require Import base option list gmap strings pretty sorting.

Open Scope string_scope.
Open Scope nat_scope.
Open Scope list_scope.

(* ================================================================== *)
(** * Part I: the model                                                *)
(* ================================================================== *)

(** ** JavaScript built-ins used by the sources *)

Module JS.

(** A computation that may throw: [Throw e] carries the message. *)
Inductive result (A : Type) : Type :=
| Ok (a : A)
| Throw (message : string).
Arguments Ok {A} a.
Arguments Throw {A} message.

(** Sequencing: a throw ends the computation. *)
Definition bind {A B : Type} (x : result A) (f : A -> result B) : result B :=
  match x with
  | Ok a => f a
  | Throw e => Throw e
  end.

Notation "x <- e ;; k" := (bind e (fun x => k))
  (at level 100, e at next level, k at level 200, right associativity).

Definition TAB : ascii := "009"%char.
Definition LF : ascii := "010"%char.
Definition VT : ascii := "011"%char.
Definition FF : ascii := "012"%char.
Definition CR : ascii := "013"%char.
Definition SPACE : ascii := "032"%char.
Definition DQUOTE : ascii := "034"%char.
Definition BACKSLASH : ascii := "092"%char.
Definition NBSP : ascii := "160"%char.

(** [chr c] is the one-character string. *)
Definition chr (c : ascii) : string := String c EmptyString.

(** The class [\s] (WhiteSpace and LineTerminator), also what [trim] strips. *)
Definition isWhiteSpace (c : ascii) : bool :=
  Ascii.eqb c TAB || Ascii.eqb c LF || Ascii.eqb c VT || Ascii.eqb c FF
  || Ascii.eqb c CR || Ascii.eqb c SPACE || Ascii.eqb c NBSP.

(** LineTerminator: what [.] does not match. *)
Definition isLineTerminator (c : ascii) : bool :=
  Ascii.eqb c LF || Ascii.eqb c CR.

(** Simple case folding on the letters A-Z, as the [/i] flag compares. *)
Definition toLower (c : ascii) : ascii :=
  let n := nat_of_ascii c in
  if (65 <=? n) && (n <=? 90) then ascii_of_nat (n + 32) else c.

Fixpoint str_take (n : nat) (s : string) : string :=
  match n, s with
  | S n', String c s' => String c (str_take n' s')
  | _, _ => EmptyString
  end.

Fixpoint str_drop (n : nat) (s : string) : string :=
  match n, s with
  | S n', String _ s' => str_drop n' s'
  | _, _ => s
  end.

Definition len (s : string) : Z := Z.of_nat (String.length s).

(** [String.prototype.slice(start, end)]: negative indices count from
    the end, both are clamped to the string. *)
Definition clampIndex (size i : Z) : Z :=
  if (i <? 0)%Z then Z.max (size + i) 0 else Z.min i size.

Definition slice (s : string) (start end_ : Z) : string :=
  let from := clampIndex (len s) start in
  let to := clampIndex (len s) end_ in
  str_take (Z.to_nat (Z.max (to - from) 0)) (str_drop (Z.to_nat from) s).

(** [s.slice(start)] *)
Definition sliceFrom (s : string) (start : Z) : string := slice s start (len s).

Fixpoint trimStart (s : string) : string :=
  match s with
  | String c s' => if isWhiteSpace c then trimStart s' else s
  | EmptyString => EmptyString
  end.

Fixpoint trimEnd (s : string) : string :=
  match s with
  | String c s' =>
      match trimEnd s' with
      | EmptyString => if isWhiteSpace c then EmptyString else chr c
      | r => String c r
      end
  | EmptyString => EmptyString
  end.

Definition trim (s : string) : string := trimEnd (trimStart s).

(** Truthiness of a string: non-empty. *)
Definition truthy (s : string) : bool :=
  match s with EmptyString => false | _ => true end.

(** First occurrence of [pat] in [s], as an offset. *)
Fixpoint find (pat s : string) : option nat :=
  if String.prefix pat s then Some 0
  else match s with
       | String _ s' => option_map S (find pat s')
       | EmptyString => None
       end.

(** [s.indexOf(pat, from)]: the index, or -1. *)
Definition indexOf (s pat : string) (from : nat) : Z :=
  match find pat (str_drop from s) with
  | Some i => Z.of_nat (from + i)
  | None => (-1)%Z
  end.

(** Last occurrence of [pat] in [s], as an offset. *)
Fixpoint rfind (pat s : string) : option nat :=
  match s with
  | String _ s' =>
      match rfind pat s' with
      | Some i => Some (S i)
      | None => if String.prefix pat s then Some 0 else None
      end
  | EmptyString => if String.prefix pat s then Some 0 else None
  end.

(** [s.lastIndexOf(pat)]: the index, or -1. *)
Definition lastIndexOf (s pat : string) : Z :=
  match rfind pat s with
  | Some i => Z.of_nat i
  | None => (-1)%Z
  end.

(** [parts.join("")] *)
Fixpoint join (parts : list string) : string :=
  match parts with
  | [] => EmptyString
  | p :: ps => p +:+ join ps
  end.

(** *** Regular expressions

    A backtracking matcher in continuation-passing style, following
    the matcher semantics of the language definition: alternatives
    are tried left to right, a greedy quantifier tries one more
    iteration before giving up the position, a lazy one tries the
    continuation first, and an iteration of a quantifier whose
    minimum is reached must consume input. *)

Inductive regex : Type :=
| Chr (p : ascii -> bool)
| Empty
| Seq (a b : regex)
| Alt (a b : regex)
| Repeat (min : nat) (max : option nat) (greedy : bool) (a : regex)
| Group (n : nat) (a : regex)
| Bol
| Eol.

(** Captures: group number to captured text, latest binding first. *)
Definition captures : Type := list (nat * string).

Fixpoint capture (n : nat) (caps : captures) : option string :=
  match caps with
  | [] => None
  | (m, s) :: caps' => if Nat.eqb m n then Some s else capture n caps'
  end.

(** The text consumed between the suffix [s] and its suffix [s1]. *)
Definition consumed (s s1 : string) : string :=
  str_take (String.length s - String.length s1) s.

(** A matcher: from a position (the rest of the input) and the captures
    so far, it calls its continuation where the pattern has matched. *)
Definition matcher (R : Type) : Type :=
  string -> captures -> (string -> captures -> option R) -> option R.

(** The matcher of a quantified atom, [min] to [max] iterations. Each
    iteration takes one unit of [fuel]; [S (min + length s)] is enough,
    as an iteration beyond the minimum must consume input. *)
Fixpoint repeatLoop {R : Type} (atom : matcher R) (greedy : bool) (fuel min : nat)
    (max : option nat) (s : string) (caps : captures)
    (k : string -> captures -> option R) {struct fuel} : option R :=
  match fuel with
  | 0 => None
  | S fuel' =>
      match max with
      | Some 0 => k s caps
      | _ =>
          let d := fun s1 c1 =>
            if Nat.eqb min 0 && Nat.eqb (String.length s1) (String.length s)
            then None
            else repeatLoop atom greedy fuel' (Nat.pred min) (option_map Nat.pred max) s1 c1 k in
          if negb (Nat.eqb min 0) then atom s caps d
          else if greedy then
            match atom s caps d with
            | Some x => Some x
            | None => k s caps
            end
          else
            match k s caps with
            | Some x => Some x
            | None => atom s caps d
            end
      end
  end.

Fixpoint rmatch {R : Type} (total : nat) (r : regex) {struct r} : matcher R :=
  fun s caps k =>
    match r with
    | Chr p =>
        match s with
        | String c s' => if p c then k s' caps else None
        | EmptyString => None
        end
    | Empty => k s caps
    | Seq a b => rmatch total a s caps (fun s1 c1 => rmatch total b s1 c1 k)
    | Alt a b =>
        match rmatch total a s caps k with
        | Some x => Some x
        | None => rmatch total b s caps k
        end
    | Group n a =>
        rmatch total a s caps (fun s1 c1 => k s1 ((n, consumed s s1) :: c1))
    | Bol => if Nat.eqb (String.length s) total then k s caps else None
    | Eol => match s with EmptyString => k s caps | _ => None end
    | Repeat min max greedy a =>
        repeatLoop (rmatch total a) greedy (S (min + String.length s)) min max s caps k
    end.

(** Pattern syntax. *)
Definition Star (a : regex) : regex := Repeat 0 None true a.
Definition LazyStar (a : regex) : regex := Repeat 0 None false a.
Definition Plus (a : regex) : regex := Repeat 1 None true a.
Definition Opt (a : regex) : regex := Repeat 0 (Some 1) true a.
Definition Char (c : ascii) : regex := Chr (Ascii.eqb c).
Definition CharI (c : ascii) : regex := Chr (fun x => Ascii.eqb (toLower x) (toLower c)).
Definition Dot : regex := Chr (fun c => negb (isLineTerminator c)).
Definition Any : regex := Chr (fun _ => true).           (* [\s\S] *)
Definition Space : regex := Chr isWhiteSpace.             (* \s *)
Fixpoint Lit (s : string) : regex :=
  match s with
  | EmptyString => Empty
  | String c s' => Seq (Char c) (Lit s')
  end.
Fixpoint LitI (s : string) : regex :=
  match s with
  | EmptyString => Empty
  | String c s' => Seq (CharI c) (LitI s')
  end.

Fixpoint Seqs (rs : list regex) : regex :=
  match rs with
  | [] => Empty
  | [r] => r
  | r :: rs' => Seq r (Seqs rs')
  end.

(** The pattern matched at the head of [s] (a suffix of an input of
    length [total]): the rest of the input and the captures. *)
Definition matchHere (total : nat) (r : regex) (s : string) : option (string * captures) :=
  rmatch total r s [] (fun s1 c1 => Some (s1, c1)).

Record match_result : Type := MatchResult {
  m_index : nat;            (* where the match starts *)
  m_text : string;          (* the matched text, [m[0]] *)
  m_rest : string;          (* the input after the match *)
  m_groups : captures       (* [m[1]], [m[2]], ... *)
}.

(** [RegExpBuiltinExec]: the first position at or after the head of
    [s] (which is at index [i]) where the pattern matches. *)
Fixpoint exec (total : nat) (r : regex) (s : string) (i : nat) : option match_result :=
  match matchHere total r s with
  | Some (s1, c1) => Some (MatchResult i (consumed s s1) s1 c1)
  | None =>
      match s with
      | String _ s' => exec total r s' (S i)
      | EmptyString => None
      end
  end.

(** [s.match(r)] for a pattern without the [g] flag. *)
Definition match_ (s : string) (r : regex) : option match_result :=
  exec (String.length s) r s 0.

(** [r.test(s)] *)
Definition test (r : regex) (s : string) : bool :=
  match match_ s r with Some _ => true | None => false end.

(** The matches of a pattern with the [g] flag, left to right: after a
    match the search resumes where it ended, one character further
    when the match was empty. *)
Fixpoint matches (fuel total : nat) (r : regex) (s : string) (i : nat) : list match_result :=
  match fuel with
  | 0 => []
  | S fuel' =>
      match exec total r s i with
      | None => []
      | Some m =>
          let e := m_index m + String.length (m_text m) in
          match m_text m, m_rest m with
          | EmptyString, EmptyString => [m]
          | EmptyString, String _ rest' => m :: matches fuel' total r rest' (S e)
          | _, rest => m :: matches fuel' total r rest e
          end
      end
  end.

(** [s.match(r)] for a pattern with the [g] flag: the matched texts,
    or null when there is none. *)
Definition matchAll (s : string) (r : regex) : option (list string) :=
  match matches (S (String.length s)) (String.length s) r s 0 with
  | [] => None
  | ms => Some (map m_text ms)
  end.

(** The input with each listed match (in order, from index [i]) replaced. *)
Fixpoint substitute (ms : list match_result) (replacement s : string) (i : nat) : string :=
  match ms with
  | [] => s
  | m :: ms' =>
      str_take (m_index m - i) s +:+ replacement
      +:+ substitute ms' replacement
            (str_drop (m_index m - i + String.length (m_text m)) s)
            (m_index m + String.length (m_text m))
  end.

(** [s.replace(r, replacement)] for a pattern with the [g] flag and a
    replacement text without [$]. *)
Definition replaceAll (s : string) (r : regex) (replacement : string) : string :=
  substitute (matches (S (String.length s)) (String.length s) r s 0) replacement s 0.

(** [s.replace(r, replacement)] for a pattern without the [g] flag. *)
Definition replace (s : string) (r : regex) (replacement : string) : string :=
  match match_ s r with
  | None => s
  | Some m => substitute [m] replacement s 0
  end.

(** [s.split(r)]: at each position [q] the pattern is tried anchored
    there; a match that ends after the last cut [p] closes the piece
    [p..q), then come the texts of the groups 1..[ngroups] (the empty
    text for a group that took no part). A match that ends at [p]
    (an empty match right after a cut) is passed over. [piece] is the
    text from [p] to [q], [s] the input from [q]. *)
Fixpoint splitLoop (fuel total ngroups : nat) (r : regex) (piece : string) (s : string)
    : list string :=
  match fuel with
  | 0 => []
  | S fuel' =>
      match s with
      | EmptyString => [piece]
      | String c s' =>
          match matchHere total r s with
          | Some (String c1 s1 as rest, caps) =>
              if Nat.eqb (String.length rest) (String.length s)
                 && negb (truthy piece)
              then splitLoop fuel' total ngroups r (piece +:+ chr c) s'
              else piece
                   :: map (fun n => default EmptyString (capture n caps)) (seq 1 ngroups)
                   ++ splitLoop fuel' total ngroups r EmptyString rest
          | Some (EmptyString, caps) =>
              piece
              :: map (fun n => default EmptyString (capture n caps)) (seq 1 ngroups)
              ++ [EmptyString]
          | None => splitLoop fuel' total ngroups r (piece +:+ chr c) s'
          end
      end
  end.

Definition split (s : string) (r : regex) (ngroups : nat) : list string :=
  match s with
  | EmptyString =>
      match matchHere 0 r s with Some _ => [] | None => [EmptyString] end
  | _ => splitLoop (S (2 * String.length s)) (String.length s) ngroups r EmptyString s
  end.

(** *** Numbers

    A number is an integer or some other value (a fraction, NaN, an
    infinity). The sources compute only with integers; another value
    is identified by its rendering, [String(n)]. *)

Inductive number : Type :=
| Int (z : Z)
| NonInt (repr : string).

(** [String(n)], also what a template literal writes. (Integers from
    10^21 on are written with an exponent by the language; the model
    writes their digits.) *)
Definition String_ (n : number) : string :=
  match n with
  | Int z => pretty z
  | NonInt repr => repr
  end.

(** SameValueZero on numbers, the equality of [Set]. *)
Definition sameValueZero (a b : number) : bool :=
  match a, b with
  | Int x, Int y => (x =? y)%Z
  | NonInt x, NonInt y => String.eqb x y
  | _, _ => false
  end.

Definition Number_isInteger (n : number) : bool :=
  match n with Int _ => true | NonInt _ => false end.

(** [a - b]: exact on integers; with another operand the difference is
    not modelled and reads as NaN. *)
Definition minus (a b : number) : number :=
  match a, b with
  | Int x, Int y => Int (x - y)
  | _, _ => NonInt "NaN"
  end.

(** [n > k] and [n <= k] against an integer [k]; the sources apply them
    after [Number.isInteger(n)] only, and another value answers false. *)
Definition gtZ (n : number) (k : Z) : bool :=
  match n with Int z => (k <? z)%Z | NonInt _ => false end.

Definition leZ (n : number) (k : Z) : bool :=
  match n with Int z => (z <=? k)%Z | NonInt _ => false end.

(** [[...new Set(xs)]]: the first occurrence of each value, in order. *)
Fixpoint uniqueLoop (xs seen : list number) : list number :=
  match xs with
  | [] => []
  | x :: xs' =>
      if existsb (sameValueZero x) seen then uniqueLoop xs' seen
      else x :: uniqueLoop xs' (x :: seen)
  end.

Definition unique (xs : list number) : list number := uniqueLoop xs [].

(** [xs.sort(compare)]: the sort is stable; modelled as an insertion
    sort, [x] going behind every element it does not compare below. *)
Fixpoint insertSorted (compare : number -> number -> number) (x : number) (sorted : list number)
    : list number :=
  match sorted with
  | [] => [x]
  | y :: rest =>
      if gtZ (compare y x) 0 then x :: y :: rest
      else y :: insertSorted compare x rest
  end.

Definition sort (compare : number -> number -> number) (xs : list number) : list number :=
  fold_left (fun sorted x => insertSorted compare x sorted) xs [].

(** *** JSON *)

#[warnings="-register-all"]
Inductive json : Type :=
| JNull
| JBool (b : bool)
| JNum (n : number)
| JStr (s : string)
| JArr (items : list json)
| JObj (members : list (string * json)).

(** [members[key]]: of two members with one key the later one counts. *)
Fixpoint lookupMember (key : string) (members : list (string * json)) : option json :=
  match members with
  | [] => None
  | (k, v) :: rest =>
      match lookupMember key rest with
      | Some v' => Some v'
      | None => if String.eqb k key then Some v else None
      end
  end.

(** [v.key] for a parsed value [v] and one of the plain member names
    the sources read: reading a member of null throws, an object gives
    the member or undefined ([None]), any other value undefined. *)
Definition getProp (v : json) (key : string) : result (option json) :=
  match v with
  | JNull => Throw "TypeError: Cannot read properties of null"
  | JObj members => Ok (lookupMember key members)
  | _ => Ok None
  end.

(** [v?.key] where [v] may be undefined or null. *)
Definition getPropOpt (v : option json) (key : string) : option json :=
  match v with
  | Some (JObj members) => lookupMember key members
  | _ => None
  end.

Definition isJsonSpace (c : ascii) : bool :=
  Ascii.eqb c TAB || Ascii.eqb c LF || Ascii.eqb c CR || Ascii.eqb c SPACE.

Fixpoint skipWs (s : string) : string :=
  match s with
  | String c s' => if isJsonSpace c then skipWs s' else s
  | EmptyString => EmptyString
  end.

Definition digitValue (c : ascii) : option Z :=
  let n := nat_of_ascii c in
  if (48 <=? n) && (n <=? 57) then Some (Z.of_nat (n - 48)) else None.

Definition hexValue (c : ascii) : option nat :=
  let n := nat_of_ascii c in
  if (48 <=? n) && (n <=? 57) then Some (n - 48)
  else if (97 <=? n) && (n <=? 102) then Some (n - 87)
  else if (65 <=? n) && (n <=? 70) then Some (n - 55)
  else None.

Definition hexDigit (n : nat) : ascii :=
  if n <? 10 then ascii_of_nat (48 + n) else ascii_of_nat (87 + n).

(** The code unit of [\uXXXX]; outside the 8-bit range there is none. *)
Definition unicodeEscape (h1 h2 h3 h4 : ascii) : option ascii :=
  match hexValue h1, hexValue h2, hexValue h3, hexValue h4 with
  | Some a, Some b, Some c, Some d =>
      if (a =? 0) && (b =? 0) then Some (ascii_of_nat (16 * c + d)) else None
  | _, _, _, _ => None
  end.

Definition simpleEscape (e : ascii) : option ascii :=
  if Ascii.eqb e DQUOTE then Some DQUOTE
  else if Ascii.eqb e BACKSLASH then Some BACKSLASH
  else if Ascii.eqb e "/" then Some "/"%char
  else if Ascii.eqb e "b" then Some "008"%char
  else if Ascii.eqb e "f" then Some FF
  else if Ascii.eqb e "n" then Some LF
  else if Ascii.eqb e "r" then Some CR
  else if Ascii.eqb e "t" then Some TAB
  else None.

Definition consTo (c : ascii) (r : option (string * string)) : option (string * string) :=
  match r with
  | Some (str, rest) => Some (String c str, rest)
  | None => None
  end.

(** A string literal after its opening quote: the text and what follows
    the closing quote. *)
Fixpoint parseStringBody (s : string) : option (string * string) :=
  match s with
  | EmptyString => None
  | String c s' =>
      if Ascii.eqb c DQUOTE then Some (EmptyString, s')
      else if Ascii.eqb c BACKSLASH then
        match s' with
        | String e s'' =>
            if Ascii.eqb e "u" then
              match s'' with
              | String h1 (String h2 (String h3 (String h4 s3))) =>
                  match unicodeEscape h1 h2 h3 h4 with
                  | Some x => consTo x (parseStringBody s3)
                  | None => None
                  end
              | _ => None
              end
            else
              match simpleEscape e with
              | Some x => consTo x (parseStringBody s'')
              | None => None
              end
        | EmptyString => None
        end
      else if nat_of_ascii c <? 32 then None
      else consTo c (parseStringBody s')
  end.

(** A run of decimal digits: their value, their count, the rest. *)
Fixpoint parseDigits (s : string) (value : Z) (count : nat) : Z * nat * string :=
  match s with
  | String c s' =>
      match digitValue c with
      | Some d => parseDigits s' (10 * value + d) (S count)
      | None => (value, count, s)
      end
  | EmptyString => (value, count, s)
  end.

(** The decimal rendering of [mantissa * 10^(-places)], [places > 0],
    for a mantissa without trailing zero. *)
Definition renderDecimal (negative : bool) (mantissa : Z) (places : nat) : string :=
  let digits := pretty mantissa in
  let n := String.length digits in
  (if negative then "-" else "")
  +:+ (if places <? n
       then str_take (n - places) digits +:+ "." +:+ str_drop (n - places) digits
       else "0." +:+ string_of_list_ascii (replicate (places - n) "0"%char) +:+ digits).

(** Drop trailing zeros of the mantissa while decimal places remain. *)
Fixpoint normalizeDecimal (fuel : nat) (mantissa : Z) (places : nat) : Z * nat :=
  match fuel, places with
  | S fuel', S places' =>
      if (mantissa mod 10 =? 0)%Z then normalizeDecimal fuel' (mantissa / 10) places'
      else (mantissa, places)
  | _, _ => (mantissa, places)
  end.

(** The number [(-1)^negative * mantissa * 10^exponent], [mantissa >= 0].
    (The literal's value is taken exactly, not rounded to binary64, and
    a fraction is rendered in positional notation.) *)
Definition decimalNumber (negative : bool) (mantissa exponent : Z) : number :=
  if (mantissa =? 0)%Z then Int 0
  else if (0 <=? exponent)%Z then
    Int ((if negative then -1 else 1) * mantissa * 10 ^ exponent)
  else
    let '(m, places) := normalizeDecimal (Z.to_nat (- exponent)) mantissa (Z.to_nat (- exponent)) in
    match places with
    | 0 => Int ((if negative then -1 else 1) * m)
    | _ => NonInt (renderDecimal negative m places)
    end.

(** A number literal: [-? int frac? exp?]. *)
Definition parseNumber (s : string) : option (number * string) :=
  let '(negative, s1) :=
    match s with String "-" r => (true, r) | _ => (false, s) end in
  let '(ipart, icount, s2) := parseDigits s1 0 0 in
  let leadingZero := match s1 with String "0" _ => true | _ => false end in
  if (icount =? 0) || (leadingZero && negb (icount =? 1)) then None
  else
    let fraction :=
      match s2 with
      | String "." r =>
          let '(m, fcount, s3) := parseDigits r ipart 0 in
          if fcount =? 0 then None else Some (m, fcount, s3)
      | _ => Some (ipart, 0, s2)
      end in
    match fraction with
    | None => None
    | Some (mantissa, fcount, s3) =>
        let exponent :=
          match s3 with
          | String c r =>
              if Ascii.eqb c "e" || Ascii.eqb c "E" then
                let '(esign, r1) :=
                  match r with
                  | String "-" r' => ((-1)%Z, r')
                  | String "+" r' => (1%Z, r')
                  | _ => (1%Z, r)
                  end in
                let '(e, ecount, s4) := parseDigits r1 0 0 in
                if ecount =? 0 then None else Some ((esign * e)%Z, s4)
              else Some (0%Z, s3)
          | EmptyString => Some (0%Z, s3)
          end in
        match exponent with
        | None => None
        | Some (e, s4) => Some (decimalNumber negative mantissa (e - Z.of_nat fcount), s4)
        end
    end.

(** The elements of an array after the first [[]: [s] stands at a value. *)
Fixpoint parseElements (parseValue : string -> option (json * string)) (n : nat) (s : string)
    (acc : list json) : option (list json * string) :=
  match n with
  | 0 => None
  | S n' =>
      match parseValue s with
      | None => None
      | Some (v, r) =>
          match skipWs r with
          | String "," r' => parseElements parseValue n' r' (acc ++ [v])
          | String "]" r' => Some (acc ++ [v], r')
          | _ => None
          end
      end
  end.

(** The members of an object: [s] stands at a key, white space apart. *)
Fixpoint parseMembers (parseValue : string -> option (json * string)) (n : nat) (s : string)
    (acc : list (string * json)) : option (list (string * json) * string) :=
  match n with
  | 0 => None
  | S n' =>
      match skipWs s with
      | String c s1 =>
          if Ascii.eqb c DQUOTE then
            match parseStringBody s1 with
            | None => None
            | Some (key, s2) =>
                match skipWs s2 with
                | String ":" s3 =>
                    match parseValue s3 with
                    | None => None
                    | Some (v, r) =>
                        match skipWs r with
                        | String "," r' => parseMembers parseValue n' r' (acc ++ [(key, v)])
                        | String "}" r' => Some (acc ++ [(key, v)], r')
                        | _ => None
                        end
                    end
                | _ => None
                end
            end
          else None
      | EmptyString => None
      end
  end.

Definition literal (word : string) (v : json) (s : string) : option (json * string) :=
  if String.prefix word s then Some (v, str_drop (String.length word) s) else None.

(** A JSON value at the head of [s], white space apart. *)
Fixpoint parseValue (fuel : nat) (s : string) : option (json * string) :=
  match fuel with
  | 0 => None
  | S fuel' =>
      match skipWs s with
      | EmptyString => None
      | String c s' as s0 =>
          if Ascii.eqb c "{" then
            match skipWs s' with
            | String "}" r => Some (JObj [], r)
            | _ =>
                match parseMembers (parseValue fuel') (String.length s') s' [] with
                | Some (members, r) => Some (JObj members, r)
                | None => None
                end
            end
          else if Ascii.eqb c "[" then
            match skipWs s' with
            | String "]" r => Some (JArr [], r)
            | _ =>
                match parseElements (parseValue fuel') (String.length s') s' [] with
                | Some (items, r) => Some (JArr items, r)
                | None => None
                end
            end
          else if Ascii.eqb c DQUOTE then
            match parseStringBody s' with
            | Some (str, r) => Some (JStr str, r)
            | None => None
            end
          else if Ascii.eqb c "t" then literal "true" (JBool true) s0
          else if Ascii.eqb c "f" then literal "false" (JBool false) s0
          else if Ascii.eqb c "n" then literal "null" JNull s0
          else
            match parseNumber s0 with
            | Some (n, r) => Some (JNum n, r)
            | None => None
            end
      end
  end.

(** [JSON.parse(text)] *)
Definition JSON_parse (text : string) : result json :=
  match parseValue (S (String.length text)) text with
  | Some (v, rest) =>
      match skipWs rest with
      | EmptyString => Ok v
      | _ => Throw "SyntaxError: Unexpected non-whitespace character after JSON"
      end
  | None => Throw "SyntaxError: Unexpected token in JSON"
  end.

Definition escapeChar (c : ascii) : string :=
  if Ascii.eqb c DQUOTE then String BACKSLASH (chr DQUOTE)
  else if Ascii.eqb c BACKSLASH then String BACKSLASH (chr BACKSLASH)
  else if Ascii.eqb c "008" then String BACKSLASH "b"
  else if Ascii.eqb c FF then String BACKSLASH "f"
  else if Ascii.eqb c LF then String BACKSLASH "n"
  else if Ascii.eqb c CR then String BACKSLASH "r"
  else if Ascii.eqb c TAB then String BACKSLASH "t"
  else if nat_of_ascii c <? 32 then
    String BACKSLASH ("u00" +:+ chr (hexDigit (nat_of_ascii c / 16))
                      +:+ chr (hexDigit (nat_of_ascii c mod 16)))
  else chr c.

Fixpoint escape (s : string) : string :=
  match s with
  | EmptyString => EmptyString
  | String c s' => escapeChar c +:+ escape s'
  end.

(** The string literal of [s]. *)
Definition quote (s : string) : string := chr DQUOTE +:+ escape s +:+ chr DQUOTE.

(** [parts.join(",")] *)
Fixpoint joinComma (parts : list string) : string :=
  match parts with
  | [] => EmptyString
  | [p] => p
  | p :: ps => p +:+ "," +:+ joinComma ps
  end.

(** [JSON.stringify(v)]; a number that is not finite is written null. *)
Fixpoint JSON_stringify (v : json) : string :=
  match v with
  | JNull => "null"
  | JBool true => "true"
  | JBool false => "false"
  | JNum (Int z) => pretty z
  | JNum (NonInt repr) =>
      if String.eqb repr "NaN" || String.eqb repr "Infinity" || String.eqb repr "-Infinity"
      then "null" else repr
  | JStr s => quote s
  | JArr items => "[" +:+ joinComma (map JSON_stringify items) +:+ "]"
  | JObj members =>
      "{" +:+ joinComma (map (fun m => quote (fst m) +:+ ":" +:+ JSON_stringify (snd m)) members)
      +:+ "}"
  end.

(** Source text written with apostrophes where it has double quotes. *)
Fixpoint jsText (s : string) : string :=
  match s with
  | EmptyString => EmptyString
  | String c s' => String (if Ascii.eqb c "'" then DQUOTE else c) (jsText s')
  end.

(** [parts.join(separator)] *)
Fixpoint joinWith (separator : string) (parts : list string) : string :=
  match parts with
  | [] => EmptyString
  | [part] => part
  | part :: rest => part +:+ separator +:+ joinWith separator rest
  end.

(** [items.filter(Boolean)] on an array of texts and nulls. *)
Fixpoint filterBoolean (items : list (option string)) : list string :=
  match items with
  | [] => []
  | Some item :: rest => if truthy item then item :: filterBoolean rest else filterBoolean rest
  | None :: rest => filterBoolean rest
  end.

(** [set.add(value)] on a set of texts, kept in insertion order. *)
Definition setAdd (set : list string) (value : string) : list string :=
  if existsb (String.eqb value) set then set else set ++ [value].

(** The class [\w], and the assertion [\b] between the character
    before a position ([None] at the start of the input) and the rest
    of the input. *)
Definition isWordChar (c : ascii) : bool :=
  let n := nat_of_ascii c in
  ((48 <=? n) && (n <=? 57)) || ((65 <=? n) && (n <=? 90)) || ((97 <=? n) && (n <=? 122))
  || (n =? 95).

(** [s.includes(pat)] *)
Definition includes (s pat : string) : bool :=
  match find pat s with Some _ => true | None => false end.

(** [s.split(separator)] for a separator of one character; [piece] is
    the text since the last separator. *)
Fixpoint splitChar (separator : ascii) (piece s : string) : list string :=
  match s with
  | EmptyString => [piece]
  | String c s' =>
      if Ascii.eqb c separator then piece :: splitChar separator EmptyString s'
      else splitChar separator (piece +:+ chr c) s'
  end.

Definition wordBoundary (before : option ascii) (s : string) : bool :=
  xorb (match before with Some c => isWordChar c | None => false end)
       (match s with String c _ => isWordChar c | EmptyString => false end).

End JS.

(** ** lib/rag.ts (src/unnamed/part_001): the embedding normalizer and the chunker *)

Module Rag.
Import JS.

(** [embedding[k]] read as a number: a missing element is NaN in a sum. *)
Definition at_ (embedding : list float) (k : nat) : float :=
  default nan (embedding !! k).

Definition ofNat (n : nat) : float := PrimFloat.of_uint63 (Uint63.of_Z (Z.of_nat n)).

(** [for (let j = 0; j < ratio; j += 1) sum += embedding[i * ratio + j]],
    with [n] iterations still to run. *)
Fixpoint bucketSum (embedding : list float) (i ratio : nat) (n j : nat) (sum : float) : float :=
  match n with
  | 0 => sum
  | S n' => bucketSum embedding i ratio n' (S j) (sum + at_ embedding (i * ratio + j))%float
  end.

(** [for (let i = 0; i < targetDim; i += 1) normalized[i] = sum / ratio],
    with [n] iterations still to run. *)
Fixpoint fillBuckets (embedding : list float) (ratio : nat) (n i : nat)
    (normalized : list float) : list float :=
  match n with
  | 0 => normalized
  | S n' =>
      let sum := bucketSum embedding i ratio ratio 0 0%float in
      fillBuckets embedding ratio n' (S i) (<[i := (sum / ofNat ratio)%float]> normalized)
  end.

(** [while (padded.length < targetDim) padded.push(0)], with [n]
    iterations still to run. *)
Fixpoint pushZeros (n : nat) (padded : list float) : list float :=
  match n with
  | 0 => padded
  | S n' => pushZeros n' (padded ++ [0%float])
  end.

Definition normalizeEmbedding (EMBEDDING_TARGET_DIMENSIONS : nat) (embedding : list float)
    : list float :=
  let sourceDim := length embedding in
  let targetDim := EMBEDDING_TARGET_DIMENSIONS in
  if sourceDim =? targetDim then embedding
  else if (targetDim <? sourceDim) && (sourceDim mod targetDim =? 0) then
    let ratio := sourceDim / targetDim in
    let normalized := replicate targetDim 0%float in
    fillBuckets embedding ratio targetDim 0 normalized
  else if targetDim <? sourceDim then take targetDim embedding
  else pushZeros (targetDim - sourceDim) embedding.

Definition CRLF : regex := Seq (Char CR) (Char LF).      (* /\r\n/ *)

(** The [while (start < cleaned.length)] loop of [buildChunks]. *)
Fixpoint buildChunksLoop (fuel : nat) (cleaned : string) (chunkSize overlap : Z)
    (start : Z) (chunks : list string) : option (list string) :=
  match fuel with
  | 0 => None
  | S fuel' =>
      if (start <? len cleaned)%Z then
        let end_ := Z.min (start + chunkSize) (len cleaned) in
        let chunks := chunks ++ [slice cleaned start end_] in
        if (end_ >=? len cleaned)%Z then Some chunks
        else buildChunksLoop fuel' cleaned chunkSize overlap (Z.max 0 (end_ - overlap)) chunks
      else Some chunks
  end.

Definition buildChunks (fuel : nat) (text : string) (chunkSize overlap : Z)
    : option (list string) :=
  let cleaned := trim (replaceAll text CRLF (chr LF)) in
  if negb (truthy cleaned) then Some []
  else buildChunksLoop fuel cleaned chunkSize overlap 0 [].

End Rag.

(** ** src/scripts/ingest-docs.mjs: its own normalizer and chunker *)

Module Ingest.
Import JS.

Definition at_ (embedding : list float) (k : nat) : float :=
  default nan (embedding !! k).

Definition ofNat (n : nat) : float := PrimFloat.of_uint63 (Uint63.of_Z (Z.of_nat n)).

Fixpoint bucketSum (embedding : list float) (i ratio : nat) (n j : nat) (sum : float) : float :=
  match n with
  | 0 => sum
  | S n' => bucketSum embedding i ratio n' (S j) (sum + at_ embedding (i * ratio + j))%float
  end.

Fixpoint fillBuckets (embedding : list float) (ratio : nat) (n i : nat)
    (normalized : list float) : list float :=
  match n with
  | 0 => normalized
  | S n' =>
      let sum := bucketSum embedding i ratio ratio 0 0%float in
      fillBuckets embedding ratio n' (S i) (<[i := (sum / ofNat ratio)%float]> normalized)
  end.

Fixpoint pushZeros (n : nat) (padded : list float) : list float :=
  match n with
  | 0 => padded
  | S n' => pushZeros n' (padded ++ [0%float])
  end.

Definition normalizeEmbedding (EMBEDDING_TARGET_DIMENSIONS : nat) (embedding : list float)
    : list float :=
  let sourceDim := length embedding in
  let targetDim := EMBEDDING_TARGET_DIMENSIONS in
  if sourceDim =? targetDim then embedding
  else if (targetDim <? sourceDim) && (sourceDim mod targetDim =? 0) then
    (* If source is an integer multiple of target, average buckets. *)
    let ratio := sourceDim / targetDim in
    let normalized := replicate targetDim 0%float in
    fillBuckets embedding ratio targetDim 0 normalized
  else if targetDim <? sourceDim then take targetDim embedding
  else pushZeros (targetDim - sourceDim) embedding.

Definition CRLF : regex := Seq (Char CR) (Char LF).

Fixpoint buildChunksLoop (fuel : nat) (cleaned : string) (CHUNK_SIZE CHUNK_OVERLAP : Z)
    (start : Z) (chunks : list string) : option (list string) :=
  match fuel with
  | 0 => None
  | S fuel' =>
      if (start <? len cleaned)%Z then
        let end_ := Z.min (start + CHUNK_SIZE) (len cleaned) in
        let chunks := chunks ++ [slice cleaned start end_] in
        if (end_ >=? len cleaned)%Z then Some chunks
        else buildChunksLoop fuel' cleaned CHUNK_SIZE CHUNK_OVERLAP
               (Z.max 0 (end_ - CHUNK_OVERLAP)) chunks
      else Some chunks
  end.

Definition buildChunks (CHUNK_SIZE CHUNK_OVERLAP : Z) (fuel : nat) (text : string)
    : option (list string) :=
  let cleaned := trim (replaceAll text CRLF (chr LF)) in
  if negb (truthy cleaned) then Some []
  else buildChunksLoop fuel cleaned CHUNK_SIZE CHUNK_OVERLAP 0 [].

(** *** Embedding in batches *)

(** What [embedTexts] reads from the environment, and the provider. *)
Record Embedder : Type := {
  EMBEDDING_MODEL : string;
  EMBEDDING_DIMENSIONS : option nat;
  EMBEDDING_TARGET_DIMENSIONS : nat;
  BATCH_SIZE : Z;
  EMBED_MAX_CHARS_PER_REQUEST : Z;
  (* [openai.embeddings.create({ input: batch })]: the embeddings, or a failure *)
  embeddingsCreate : list string -> result (list (list float))
}.

(** The inner [while] of [embedTexts]: [remaining] is the texts from
    index [i] on; it returns the batch and the texts from the new [i]
    on. *)
Fixpoint fillBatch (BATCH_SIZE EMBED_MAX_CHARS_PER_REQUEST : Z) (remaining batch : list string)
    (batchChars : Z) : list string * list string :=
  match remaining with
  | [] => (batch, remaining)
  | next :: rest =>
      if (Z.of_nat (length batch) <? BATCH_SIZE)%Z then
        let nextChars := len next in
        if (0 <? length batch) && (batchChars + nextChars >? EMBED_MAX_CHARS_PER_REQUEST)%Z
        then (batch, remaining)
        else fillBatch BATCH_SIZE EMBED_MAX_CHARS_PER_REQUEST rest (batch ++ [next])
               (batchChars + nextChars)
      else (batch, remaining)
  end.

(** One batch: filled by count and by characters, and holding the
    next text alone when nothing was put into it. *)
Definition nextBatch (embedder : Embedder) (next : string) (rest : list string)
    : list string * list string :=
  let '(batch, remaining) :=
    fillBatch (BATCH_SIZE embedder) (EMBED_MAX_CHARS_PER_REQUEST embedder) (next :: rest) [] 0 in
  (* Ensure forward progress even if a single item exceeds char budget. *)
  if length batch =? 0 then ([next], rest) else (batch, remaining).

Fixpoint checkDimensions (embedder : Embedder) (rawEmbeddings : list (list float))
    : result unit :=
  match rawEmbeddings with
  | [] => Ok tt
  | emb :: rest =>
      match EMBEDDING_DIMENSIONS embedder with
      | Some d =>
          if negb (d =? 0) && negb (length emb =? d)
          then Throw ("Embedding dimension mismatch from provider. Expected " +:+ pretty d
                      +:+ ", got " +:+ pretty (length emb) +:+ ". Model="
                      +:+ EMBEDDING_MODEL embedder
                      +:+ ". Align DB vector size + RPC with actual output, or fix provider/model config.")
          else checkDimensions embedder rest
      | None => checkDimensions embedder rest
      end
  end.

(** The outer [while] of [embedTexts]: the outcome, and the batches
    sent to the provider, in order. *)
Fixpoint embedBatches (fuel : nat) (embedder : Embedder) (remaining : list string)
    (allEmbeddings : list (list float)) (sent : list (list string))
    : option (result (list (list float)) * list (list string)) :=
  match fuel with
  | 0 => None
  | S fuel' =>
      match remaining with
      | [] => Some (Ok allEmbeddings, sent)
      | next :: rest =>
          let '(batch, remaining') := nextBatch embedder next rest in
          match embeddingsCreate embedder batch with
          | Throw e => Some (Throw e, sent ++ [batch])
          | Ok rawEmbeddings =>
              match checkDimensions embedder rawEmbeddings with
              | Throw e => Some (Throw e, sent ++ [batch])
              | Ok _ =>
                  embedBatches fuel' embedder remaining'
                    (allEmbeddings
                     ++ map (normalizeEmbedding (EMBEDDING_TARGET_DIMENSIONS embedder)) rawEmbeddings)
                    (sent ++ [batch])
              end
          end
      end
  end.

Definition embedTexts (fuel : nat) (embedder : Embedder) (texts : list string)
    : option (result (list (list float)) * list (list string)) :=
  match texts with
  | [] => Some (Ok [], [])
  | _ => embedBatches fuel embedder texts [] []
  end.

(** *** Sources and rows *)

(** [filePath.split(path.sep).join("/")] *)
Definition normalizeRelativePath (sep : ascii) (filePath : string) : string :=
  joinWith "/" (splitChar sep EmptyString filePath).

Record SourceInfo : Type := {
  sourceUrl : option string;
  sourceTitle : string
}.

(** [getSourceInfo], once [sourceInfo] is an object: [members] are its
    members. *)
Definition entryInfo (REQUIRE_SOURCE_URL : bool) (normalized : string)
    (members : list (string * json)) : result SourceInfo :=
  let sourceUrl :=
    match lookupMember "url" members with Some (JStr u) => trim u | _ => "" end in
  let sourceTitle :=
    match lookupMember "title" members with
    | Some (JStr t) => if 0 <? String.length (trim t) then trim t else normalized
    | _ => normalized
    end in
  if negb (truthy sourceUrl) && REQUIRE_SOURCE_URL
  then Throw ("Missing URL for " +:+ chr DQUOTE +:+ normalized +:+ chr DQUOTE
              +:+ " in data/sources.json.")
  else Ok {| sourceUrl := if truthy sourceUrl then Some sourceUrl else None;
             sourceTitle := sourceTitle |}.

(** [manifest] is the parsed data/sources.json, an object: its members. *)
Definition getSourceInfo (REQUIRE_SOURCE_URL : bool) (sep : ascii) (relativePath : string)
    (manifest : list (string * json)) : result SourceInfo :=
  let normalized := normalizeRelativePath sep relativePath in
  match lookupMember normalized manifest with
  | Some (JObj members) => entryInfo REQUIRE_SOURCE_URL normalized members
  | Some (JArr _) =>
      (* an array is an object without url and title *)
      entryInfo REQUIRE_SOURCE_URL normalized []
  | _ =>
      if REQUIRE_SOURCE_URL
      then Throw ("Missing source entry for " +:+ chr DQUOTE +:+ normalized +:+ chr DQUOTE
                  +:+ " in data/sources.json.")
      else Ok {| sourceUrl := None; sourceTitle := normalized |}
  end.

(** A row of the table [documents], as [ingestFile] inserts it. *)
Record Row : Type := {
  source : string;
  content : string;
  chunk_index : nat;
  metadata : list (string * json);
  embedding : option (list float)             (* [embeddings[index]] *)
}.

(** The rows of [ingestFile]. *)
Definition rowsOf (relativePath : string) (info : SourceInfo) (chunks : list string)
    (embeddings : list (list float)) : list Row :=
  imap (fun index chunk =>
          {| source := relativePath;
             content := chunk;
             chunk_index := index;
             metadata :=
               [("source", JStr relativePath);
                ("source_url", match sourceUrl info with Some u => JStr u | None => JNull end);
                ("source_title", JStr (sourceTitle info));
                ("chunk_index", JNum (Int (Z.of_nat index)))];
             embedding := embeddings !! index |})
       chunks.

End Ingest.

(** ** lib/rag.ts (src/unnamed/part_001): retrieval *)

Module Retrieval.
Import JS.

Record RetrievedChunk : Type := {
  id : option string;                         (* [id?: string] where the chunk is deduplicated *)
  content : string;
  source : string;
  metadata : option (list (string * json));   (* [Record<string, unknown> | null] *)
  similarity : float
}.

(** What the module reads from its environment: the credentials that
    are set, the configured dimensions, and the two providers. The
    module builds its two clients from these credentials when it is
    loaded; [assertRagEnv] reads them again at each call. *)
Record Env : Type := {
  OPENAI_API_KEY : bool;
  SUPABASE_URL : bool;
  SUPABASE_SERVICE_ROLE_KEY : bool;
  EMBEDDING_DIMENSIONS : option nat;
  EMBEDDING_TARGET_DIMENSIONS : nat;
  (* [openai.embeddings.create({ input })]: one embedding per text, or a failure *)
  embeddingsCreate : list string -> result (list (list float));
  (* [supabase.rpc("match_documents", ...)]: [{ data, error }] *)
  matchDocuments : list float -> Z -> option (list RetrievedChunk) * option string
}.

Definition assertRagEnv (env : Env) : result unit :=
  if negb (OPENAI_API_KEY env) then Throw "Missing OPENAI_API_KEY"
  else if negb (SUPABASE_URL env) || negb (SUPABASE_SERVICE_ROLE_KEY env)
  then Throw "Missing SUPABASE_URL or SUPABASE_SERVICE_ROLE_KEY"
  else Ok tt.

(** The dimension check of [embedTexts] over the returned embeddings. *)
Fixpoint checkDimensions (expected : option nat) (embeddings : list (list float)) : result unit :=
  match embeddings with
  | [] => Ok tt
  | emb :: rest =>
      match expected with
      | Some d =>
          if negb (d =? 0) && negb (length emb =? d)
          then Throw "Embedding dimension mismatch from provider."
          else checkDimensions expected rest
      | None => checkDimensions expected rest
      end
  end.

Definition embedTexts (env : Env) (texts : list string) : result (list (list float)) :=
  _ <- assertRagEnv env ;;
  match texts with
  | [] => Ok []
  | _ =>
      embeddings <- embeddingsCreate env texts ;;
      _ <- checkDimensions (EMBEDDING_DIMENSIONS env) embeddings ;;
      Ok (map (Rag.normalizeEmbedding (EMBEDDING_TARGET_DIMENSIONS env)) embeddings)
  end.

Definition searchRelevantChunks (env : Env) (query : string) (matchCount : Z)
    : result (list RetrievedChunk) :=
  _ <- assertRagEnv env ;;
  embeddings <- embedTexts env [query] ;;
  match embeddings with
  | [] => Ok []
  | queryEmbedding :: _ =>
      let '(data, error) := matchDocuments env queryEmbedding matchCount in
      match error with
      | Some e => Throw e
      | None => Ok (default [] data)
      end
  end.

Definition metadataString (metadata : option (list (string * json))) (key : string)
    : option string :=
  match metadata with
  | None => None
  | Some members =>
      match lookupMember key members with
      | Some (JStr value) => if 0 <? String.length (trim value) then Some (trim value) else None
      | _ => None
      end
  end.

(** The callback of the [map] of [buildRagSystemPrompt]: the note of
    the chunk at index [i]. *)
Definition referenceNote (i : nat) (chunk : RetrievedChunk) : string :=
  let sourceUrl := metadataString (metadata chunk) "source_url" in
  let sourceTitle := metadataString (metadata chunk) "source_title" in
  let header :=
    joinWith (chr LF)
      (filterBoolean
         [Some ("[" +:+ String_ (Int (Z.of_nat i + 1)) +:+ "] Source: "
                +:+ default (source chunk) sourceTitle);
          match sourceUrl with
          | Some u => if truthy u then Some ("URL: " +:+ u) else None
          | None => None
          end]) in
  header +:+ chr LF +:+ content chunk.

Definition NOTE_SEPARATOR : string :=
  String LF (String LF ("---" +:+ String LF (String LF ""))).

Definition buildRagSystemPrompt (contextChunks : list RetrievedChunk) : string :=
  match contextChunks with
  | [] =>
      joinWith (chr LF)
        ["You are FTC Assistant.";
         "No external context was retrieved. Answer carefully and state uncertainty when needed."]
  | _ =>
      let context := joinWith NOTE_SEPARATOR (imap referenceNote contextChunks) in
      joinWith (chr LF)
        ["You are FTC Assistant. Use the retrieved context below when relevant.";
         "Read every reference note closely before deciding your answer.";
         "Each reference note is a retrieved chunk and may be incomplete or cut mid-sentence/mid-code.";
         "Treat missing lines before/after a chunk as unknown; do not assume omitted content.";
         "If a code sample appears truncated, you may complete it with a best-effort reconstruction.";
         "When you reconstruct missing code, explicitly label what is inferred vs what is directly supported by notes.";
         "Prefer conservative, compilable completions and call out assumptions that affect behavior.";
         "Base conclusions on note evidence, not prior assumptions.";
         "If context is insufficient, say what is missing instead of guessing.";
         "Use these reference notes silently to improve factual accuracy.";
         "Do not mention that these notes exist.";
         "";
         "Reference notes:";
         context]
  end.

End Retrieval.

(** ** src/lib/gemini.ts *)

Module Gemini.
Import JS.

Record GeminiRequest : Type := {
  model : string;
  systemInstruction : string;
  userPrompt : string;
  temperature : string;              (* the literal of the source: 0.2, 0.1, 0 *)
  maxOutputTokens : Z;
  responseMimeType : option string
}.

Record GeminiTextResult : Type := {
  text : string;
  finishReason : option string
}.

(** The generation provider as the pipeline sees it: what the latest
    request of a history of requests is answered with. *)
Definition Backend : Type := list GeminiRequest -> result GeminiTextResult.

(** A step of the request handler: it may issue requests (the log
    grows) and may throw. *)
Definition M (A : Type) : Type := list GeminiRequest -> result A * list GeminiRequest.

Definition ret {A : Type} (a : A) : M A := fun log => (Ok a, log).

Definition bind {A B : Type} (m : M A) (f : A -> M B) : M B :=
  fun log =>
    match m log with
    | (Ok a, log') => f a log'
    | (Throw e, log') => (Throw e, log')
    end.

(** [try { m } catch { handler }] *)
Definition tryCatch {A : Type} (m : M A) (handler : string -> M A) : M A :=
  fun log =>
    match m log with
    | (Ok a, log') => (Ok a, log')
    | (Throw e, log') => handler e log'
    end.

Definition generateGeminiTextWithMeta (backend : Backend) (request : GeminiRequest)
    : M GeminiTextResult :=
  fun log => (backend (log ++ [request]), log ++ [request]).

Definition generateGeminiText (backend : Backend) (request : GeminiRequest) : M string :=
  bind (generateGeminiTextWithMeta backend request) (fun result_ => ret (text result_)).

(** [/```json\s*([\s\S]*?)\s*```/i] *)
Definition fencedJson : regex :=
  Seqs [LitI "```json"; Star Space; Group 1 (LazyStar Any); Star Space; Lit "```"].

Definition extractJsonObject (text : string) : option string :=
  let fenced := match_ text fencedJson in
  let fenced1 := match fenced with Some m => capture 1 (m_groups m) | None => None end in
  match fenced1 with
  | Some (String _ _ as json_) => Some json_
  | _ =>
      let start := indexOf text "{" 0 in
      let end_ := lastIndexOf text "}" in
      if (start >=? 0)%Z && (end_ >? start)%Z then Some (slice text start (end_ + 1)) else None
  end.

End Gemini.

(** ** src/lib/gemini.ts: the response of the API, and the access token *)

Module GeminiApi.
Import JS.

(** [GeminiResponse], the parsed body. *)
Record Part : Type := { text : option string }.
Record Content : Type := { parts : option (list Part) }.
Record Candidate : Type := { content : option Content; finishReason : option string }.
Record PromptFeedback : Type := { blockReason : option string }.
Record ErrorBody : Type := { message : option string }.
Record GeminiResponse : Type := {
  candidates : option (list Candidate);
  promptFeedback : option PromptFeedback;
  error : option ErrorBody
}.

(** What [fetch] resolved to: [response.ok], [response.status] and the
    body [await response.json()] ([None]: null). A body that is not
    JSON makes [response.json()] throw; the model starts from a body
    that has been parsed. *)
Record FetchResponse : Type := {
  ok : bool;
  status : Z;
  data : option GeminiResponse
}.

Definition API_KEY_HINT : string :=
  ". If using Vertex AI, set VERTEX_ACCESS_TOKEN + VERTEX_PROJECT_ID (+ optional VERTEX_LOCATION). If using API key auth, use GEMINI_API_KEY/GOOGLE_API_KEY.".

(** [x?.f]: the member [f] of [x], or undefined when [x] is undefined
    or null. *)
Definition optional {A B : Type} (x : option A) (f : A -> option B) : option B :=
  match x with
  | Some a => f a
  | None => None
  end.

(** [generateGeminiTextWithMeta], from the response on. *)
Definition textResultOf (response : FetchResponse) : result Gemini.GeminiTextResult :=
  if negb (ok response) then
    let rawErrorMessage :=
      default ("Gemini request failed: " +:+ pretty (status response))
              (optional (optional (data response) error) message) in
    let errorMessage :=
      if includes rawErrorMessage "API keys are not supported by this API"
      then rawErrorMessage +:+ API_KEY_HINT
      else rawErrorMessage in
    Throw errorMessage
  else
    match optional (optional (data response) promptFeedback) blockReason with
    | Some (String _ _ as reason) => Throw ("Gemini blocked prompt: " +:+ reason)
    | _ =>
        match data response with
        | None => Throw "TypeError: Cannot read properties of null (reading 'candidates')"
        | Some body =>
            let candidate := optional (candidates body) head in
            let text_ :=
              match optional (optional candidate content) parts with
              | Some ps => trim (join (map (fun p => default "" (text p)) ps))
              | None => ""
              end in
            if negb (truthy text_) then Throw "Gemini returned empty text."
            else Ok {| Gemini.text := text_;
                       Gemini.finishReason := optional candidate finishReason |}
        end
    end.

(** [cachedVertexToken] *)
Record CachedToken : Type := {
  token : string;
  expiresAtMs : Z
}.

(** The refresh of [getVertexAccessTokenFromGoogleCredentials]:
    [accessToken] is what the auth client answers, read as
    [typeof tokenResponse === "string" ? tokenResponse : tokenResponse?.token ?? null],
    or its failure. *)
Definition refreshToken (now : Z) (accessToken : result (option string))
    (cachedVertexToken : option CachedToken) : result (option string) * option CachedToken :=
  match accessToken with
  | Throw e => (Throw e, cachedVertexToken)
  | Ok (Some (String _ _ as token_)) =>
      (Ok (Some token_),
       Some {| token := token_; expiresAtMs := (now + 45 * 60 * 1000)%Z |})
  | Ok _ => (Ok None, cachedVertexToken)
  end.

(** [getVertexAccessTokenFromGoogleCredentials], from the cache before
    the call to the answer and the cache after it. [loaded] is the
    outcome of [loadGoogleCredentialsOnce] (it writes a file), [now] is
    [Date.now()]. *)
Definition getVertexAccessTokenFromGoogleCredentials
    (GOOGLECREDENTIALS : option string) (loaded : result unit) (now : Z)
    (accessToken : result (option string)) (cachedVertexToken : option CachedToken)
    : result (option string) * option CachedToken :=
  match GOOGLECREDENTIALS with
  | None | Some EmptyString => (Ok None, cachedVertexToken)
  | Some _ =>
      match loaded with
      | Throw e => (Throw e, cachedVertexToken)
      | Ok _ =>
          match cachedVertexToken with
          | Some cached =>
              if (expiresAtMs cached - now >? 60000)%Z
              then (Ok (Some (token cached)), cachedVertexToken)
              else refreshToken now accessToken cachedVertexToken
          | None => refreshToken now accessToken cachedVertexToken
          end
      end
  end.

End GeminiApi.

(** ** The chat route (src/unnamed/part_002) *)

Module Route.
Import JS Retrieval Gemini.

Record PlannerOutput : Type := {
  needsCode : bool;
  isHard : bool;
  needsConversationContext : bool;
  ragQueries : list string;
  shouldShortCircuit : bool;
  directResponse : string
}.

Record SourceFragment : Type := {
  title : string;
  url : option string;
  excerpt : string
}.

Record ParsedFinalModelOutput : Type := {
  answer : string;
  usedSourceNumbers : list number;
  ok : bool
}.

(** The plan both failure branches of [parsePlannerOutput] return. *)
Definition conservativePlan (fallbackQuestion : string) : PlannerOutput :=
  {| needsCode := true;
     isHard := true;
     needsConversationContext := true;
     ragQueries := [fallbackQuestion];
     shouldShortCircuit := false;
     directResponse := "" |}.

(** [typeof q === "string" && q.trim().length > 0] over the entries. *)
Fixpoint nonBlankStrings (items : list json) : list string :=
  match items with
  | [] => []
  | JStr q :: rest =>
      if truthy (trim q) then q :: nonBlankStrings rest else nonBlankStrings rest
  | _ :: rest => nonBlankStrings rest
  end.

(** [typeof v === "boolean" ? v : fallback] *)
Definition booleanOr (v : option json) (fallback : bool) : bool :=
  match v with Some (JBool b) => b | _ => fallback end.

(** The body of the [try] of [parsePlannerOutput]. *)
Definition parsePlannerJson (jsonText fallbackQuestion : string) : result PlannerOutput :=
  JS.bind (JSON_parse jsonText) (fun parsed =>
  JS.bind (getProp parsed "ragQueries") (fun parsed_ragQueries =>
  let ragQueries :=
    match parsed_ragQueries with
    | Some (JArr items) => nonBlankStrings items
    | _ => []
    end in
  JS.bind (getProp parsed "needsCode") (fun parsed_needsCode =>
  let needsCode := booleanOr parsed_needsCode true in
  JS.bind (getProp parsed "isHard") (fun parsed_isHard =>
  let isHard := booleanOr parsed_isHard true in
  JS.bind (getProp parsed "needsConversationContext") (fun parsed_needsContext =>
  let needsConversationContext := booleanOr parsed_needsContext true in
  JS.bind (getProp parsed "shouldShortCircuit") (fun parsed_shortCircuit =>
  let shouldShortCircuit := booleanOr parsed_shortCircuit false in
  JS.bind (getProp parsed "directResponse") (fun parsed_directResponse =>
  let directResponse :=
    match parsed_directResponse with Some (JStr d) => trim d | _ => "" end in
  Ok {| needsCode := needsCode;
        isHard := isHard;
        needsConversationContext := needsConversationContext;
        ragQueries := match ragQueries with [] => [fallbackQuestion] | _ => ragQueries end;
        shouldShortCircuit := shouldShortCircuit;
        directResponse := directResponse |}))))))).

Definition parsePlannerOutput (raw fallbackQuestion : string) : PlannerOutput :=
  match extractJsonObject raw with
  | None => conservativePlan fallbackQuestion
  | Some jsonText =>
      match parsePlannerJson jsonText fallbackQuestion with
      | Ok plan => plan
      | Throw _ => conservativePlan fallbackQuestion
      end
  end.

(** The text a chunk's [chunk_index] metadata entry contributes to its key. *)
Definition chunkIndexText (chunk : RetrievedChunk) : string :=
  match getPropOpt (option_map JObj (metadata chunk)) "chunk_index" with
  | Some (JNum n) => String_ n
  | Some (JStr s) => s
  | _ => "na"
  end.

(** [chunk.id ?? `${chunk.source}:${chunkIndex}`] *)
Definition chunkKey (chunk : RetrievedChunk) : string :=
  match id chunk with
  | Some i => i
  | None => source chunk +:+ ":" +:+ chunkIndexText chunk
  end.

(** The [for] loop of [dedupeChunks]. *)
Fixpoint dedupeLoop (chunks : list RetrievedChunk) (seen : gset string)
    (output : list RetrievedChunk) : list RetrievedChunk :=
  match chunks with
  | [] => output
  | chunk :: rest =>
      let key := chunkKey chunk in
      if decide (key ∈ seen) then dedupeLoop rest seen output
      else dedupeLoop rest ({[key]} ∪ seen) (output ++ [chunk])
  end.

Definition dedupeChunks (chunks : list RetrievedChunk) : list RetrievedChunk :=
  dedupeLoop chunks ∅ [].

(** [/(\n+)/] and [/.{1,120}/g] *)
Definition newlineRuns : regex := Group 1 (Plus (Char LF)).
Definition upTo120 : regex := Repeat 1 (Some 120) true Dot.

Definition splitForStream (text : string) : list string :=
  filter (fun part => truthy part = true)
    (concat
       (map (fun part =>
               if negb (truthy (trim part)) then [part]
               else default [part] (matchAll part upTo120))
            (split text newlineRuns 1))).

(** [typeof v === "string" && v.trim().length > 0 ? v.trim() : null] *)
Definition trimmedString (v : option json) : option string :=
  match v with
  | Some (JStr s) => if truthy (trim s) then Some (trim s) else None
  | _ => None
  end.

(** [chunks[i]] for a number [i]. *)
Definition chunkAt (chunks : list RetrievedChunk) (i : number) : option RetrievedChunk :=
  match i with
  | Int z => if (z <? 0)%Z then None else chunks !! Z.to_nat z
  | NonInt _ => None
  end.

Definition normalizedNumbers (chunks : list RetrievedChunk) (usedSourceNumbers : list number)
    : list number :=
  sort minus
    (filter
       (fun n => Number_isInteger n && gtZ n 0 && leZ n (Z.of_nat (length chunks)) = true)
       (unique usedSourceNumbers)).

(** The callback of the [map] of [getSourceFragmentsByNumber]; reading
    [chunk.metadata] of an undefined [chunk] throws. *)
Definition sourceFragment (chunks : list RetrievedChunk) (sourceNumber : number)
    : result SourceFragment :=
  match chunkAt chunks (minus sourceNumber (Int 1)) with
  | None => Throw "TypeError: Cannot read properties of undefined"
  | Some chunk =>
      let meta := option_map JObj (metadata chunk) in
      let sourceUrl := trimmedString (getPropOpt meta "source_url") in
      let sourceTitle := default (source chunk) (trimmedString (getPropOpt meta "source_title")) in
      Ok {| title := "[" +:+ String_ sourceNumber +:+ "] " +:+ sourceTitle;
            url := sourceUrl;
            excerpt := trim (content chunk) |}
  end.

(** [xs.map(f)] for a callback that may throw. *)
Fixpoint mapResult {A B : Type} (f : A -> result B) (xs : list A) : result (list B) :=
  match xs with
  | [] => Ok []
  | x :: xs' =>
      JS.bind (f x) (fun y =>
      JS.bind (mapResult f xs') (fun ys => Ok (y :: ys)))
  end.

Definition getSourceFragmentsByNumber (chunks : list RetrievedChunk)
    (usedSourceNumbers : list number) : result (list SourceFragment) :=
  mapResult (sourceFragment chunks) (normalizedNumbers chunks usedSourceNumbers).

Definition unparsed : ParsedFinalModelOutput :=
  {| answer := ""; usedSourceNumbers := []; ok := false |}.

(** [typeof n === "number"] over the entries. *)
Fixpoint numbersOf (items : list json) : list number :=
  match items with
  | [] => []
  | JNum n :: rest => n :: numbersOf rest
  | _ :: rest => numbersOf rest
  end.

(** The body of the [try] of [parseFinalModelOutput]. *)
Definition parseFinalJson (jsonText : string) : result ParsedFinalModelOutput :=
  JS.bind (JSON_parse jsonText) (fun parsed =>
  JS.bind (getProp parsed "answer") (fun parsed_answer =>
  let answer := match parsed_answer with Some (JStr a) => trim a | _ => "" end in
  JS.bind (getProp parsed "usedSourceNumbers") (fun parsed_used =>
  let usedSourceNumbers :=
    match parsed_used with Some (JArr items) => numbersOf items | _ => [] end in
  Ok {| answer := answer;
        usedSourceNumbers := usedSourceNumbers;
        ok := 0 <? String.length answer |}))).

Definition parseFinalModelOutput (raw : string) : ParsedFinalModelOutput :=
  match extractJsonObject raw with
  | None => unparsed
  | Some jsonText =>
      match parseFinalJson jsonText with
      | Ok parsed => parsed
      | Throw _ => unparsed
      end
  end.

Definition quotedAnswer : string := jsText "'answer'".
Definition quotedUsedSourceNumbers : string := jsText "'usedSourceNumbers'".

(** [/"answer"\s*:\s*"([\s\S]*?)"(?:\s*,|\s*})/] *)
Definition answerField : regex :=
  Seqs [Lit quotedAnswer; Star Space; Char ":"; Star Space; Char DQUOTE;
        Group 1 (LazyStar Any); Char DQUOTE;
        Alt (Seq (Star Space) (Char ",")) (Seq (Star Space) (Char "}"))].

(** A backslash followed by a double quote, by [n], by [t]: the patterns
    of the unescaping replacements, all with the [g] flag. *)
Definition escapedQuote : regex := Seq (Char BACKSLASH) (Char DQUOTE).
Definition escapedNewline : regex := Seq (Char BACKSLASH) (Char "n").
Definition escapedTab : regex := Seq (Char BACKSLASH) (Char "t").

(** [/^[\s`]*\{?[\s\S]*?"answer"\s*:\s*/i] *)
Definition upToAnswer : regex :=
  Seqs [Bol; Star (Chr (fun c => isWhiteSpace c || Ascii.eqb c "`")); Opt (Char "{");
        LazyStar Any; LitI quotedAnswer; Star Space; Char ":"; Star Space].

(** [/"usedSourceNumbers"[\s\S]*$/i] *)
Definition fromUsedSourceNumbers : regex :=
  Seqs [LitI quotedUsedSourceNumbers; Star Any; Eol].

(** The class of the braces, the brackets and the double quote. *)
Definition jsonPunctuation : regex :=
  Chr (fun c => Ascii.eqb c "{" || Ascii.eqb c "}" || Ascii.eqb c "[" || Ascii.eqb c "]"
                || Ascii.eqb c DQUOTE).

Definition extractAnswerFallbackText (raw : string) : string :=
  let match1 :=
    match match_ raw answerField with Some m => capture 1 (m_groups m) | None => None end in
  match match1 with
  | Some (String _ _ as field) =>
      trim (replaceAll (replaceAll field escapedQuote (chr DQUOTE)) escapedNewline (chr LF))
  | _ =>
      let stripped :=
        trim (replaceAll
                (replace (replace raw upToAnswer "") fromUsedSourceNumbers "")
                jsonPunctuation "") in
      stripped
  end.

(** [(s.match(r) ?? []).length] for a pattern with the [g] flag. *)
Definition countMatches (s : string) (r : regex) : nat :=
  length (default [] (matchAll s r)).

Definition normalizeAssistantMarkdown (text : string) : string :=
  let normalized := replaceAll text Rag.CRLF (chr LF) in
  let escapedNewlineCount := countMatches normalized escapedNewline in
  let realNewlineCount := countMatches normalized (Char LF) in
  if (0 <? escapedNewlineCount)
     && ((realNewlineCount =? 0) || (realNewlineCount * 2 <=? escapedNewlineCount))
  then replaceAll (replaceAll normalized escapedNewline (chr LF)) escapedTab (chr TAB)
  else normalized.

(** *** The request handler [POST], stage by stage *)

(** Step 4, retrieval. [Promise.all] over the searches: fulfilled with
    all the results when every search is, rejected as soon as one is. *)
Fixpoint Promise_all {A : Type} (outcomes : list (result A)) : result (list A) :=
  match outcomes with
  | [] => Ok []
  | Ok a :: rest =>
      match Promise_all rest with
      | Ok values => Ok (a :: values)
      | Throw e => Throw e
      end
  | Throw e :: _ => Throw e
  end.

Definition retrieveContext (env : Env) (retrievalQueries : list string) (ragMatchCount : Z)
    : list RetrievedChunk :=
  match Promise_all (map (fun ragPrompt => searchRelevantChunks env ragPrompt ragMatchCount)
                         retrievalQueries) with
  | Ok ragResults => dedupeChunks (concat ragResults)
  | Throw error => []     (* "RAG retrieval failed, continuing without context:" *)
  end.

(** The apology of last resort (the source writes its two apostrophes
    with the typographic character, outside the 8-bit range). *)
Definition APOLOGY : string := "I'm sorry, I couldn't generate a complete answer.".

Definition START_MARKER : string := "<<RAG_CONTEXT_JSON>>".
Definition END_MARKER : string := "<<END_RAG_CONTEXT_JSON>>".

Definition retryNote : string :=
  String LF (String LF
    "Your previous attempt was cut off. Return a complete JSON object in one response.").

Definition formatterInstruction : string :=
  "You are a strict JSON formatter." +:+ chr LF
  +:+ "Given malformed model output, return only valid JSON with this exact schema:" +:+ chr LF
  +:+ jsText "{ 'answer': string, 'usedSourceNumbers': number[] }" +:+ chr LF
  +:+ "Do not add commentary.".

(** The first generation call and its retry on truncation. *)
Definition generateFinalAnswer (backend : Backend)
    (finalModel finalModelSystemInstruction finalModelUserPrompt : string)
    (finalModelMaxOutputTokens : Z) : M GeminiTextResult :=
  Gemini.bind
    (generateGeminiTextWithMeta backend
       {| model := finalModel;
          systemInstruction := finalModelSystemInstruction;
          userPrompt := finalModelUserPrompt;
          temperature := "0.2";
          maxOutputTokens := finalModelMaxOutputTokens;
          responseMimeType := Some "application/json" |})
    (fun finalAnswerResult =>
       match finishReason finalAnswerResult with
       | Some "MAX_TOKENS" =>
           (* "Final answer hit MAX_TOKENS; retrying with a larger output budget." *)
           generateGeminiTextWithMeta backend
             {| model := finalModel;
                systemInstruction := finalModelSystemInstruction +:+ retryNote;
                userPrompt := finalModelUserPrompt;
                temperature := "0.2";
                maxOutputTokens := Z.max finalModelMaxOutputTokens 4096;
                responseMimeType := Some "application/json" |}
       | _ => ret finalAnswerResult
       end).

(** Parsing, with the repair call when the first parse is not [ok]. *)
Definition parseOrRepair (backend : Backend) (finalModel finalAnswer : string)
    : M ParsedFinalModelOutput :=
  let parsedFinal := parseFinalModelOutput finalAnswer in
  if negb (ok parsedFinal) then
    tryCatch
      (Gemini.bind
         (generateGeminiText backend
            {| model := finalModel;
               systemInstruction := formatterInstruction;
               userPrompt := "Malformed output:" +:+ chr LF +:+ finalAnswer;
               temperature := "0";
               maxOutputTokens := 800;
               responseMimeType := Some "application/json" |})
         (fun repaired => ret (parseFinalModelOutput repaired)))
      (fun _ => ret parsedFinal)     (* Ignore repair failure; fallback below. *)
  else ret parsedFinal.

(** [a || b || c] on strings. *)
Definition orElse (a b : string) : string := if truthy a then a else b.

Definition visibleAnswerOf (parsedFinal : ParsedFinalModelOutput) (finalAnswer : string) : string :=
  orElse (answer parsedFinal) (orElse (extractAnswerFallbackText finalAnswer) APOLOGY).

Definition fragmentJson (f : SourceFragment) : json :=
  JObj [("title", JStr (title f));
        ("url", match url f with Some u => JStr u | None => JNull end);
        ("excerpt", JStr (excerpt f))].

(** [`\n\n<<RAG_CONTEXT_JSON>>${JSON.stringify({ sourceFragments })}<<END_RAG_CONTEXT_JSON>>`] *)
Definition metadataMarker (sourceFragments : list SourceFragment) : string :=
  String LF (String LF START_MARKER)
  +:+ JSON_stringify (JObj [("sourceFragments", JArr (map fragmentJson sourceFragments))])
  +:+ END_MARKER.

(** What the stream enqueues, in order. *)
Definition responseStream (normalizedVisibleAnswer : string)
    (sourceFragments : list SourceFragment) : list string :=
  splitForStream normalizedVisibleAnswer ++ [metadataMarker sourceFragments].

Record Answered : Type := {
  finalAnswer : string;
  parsedFinal : ParsedFinalModelOutput;
  visibleAnswer : string;
  stream : list string
}.

(** Step 5 to the end of [POST]. *)
Definition answerQuestion (backend : Backend) (contextChunks : list RetrievedChunk)
    (finalModel finalModelSystemInstruction finalModelUserPrompt : string)
    (finalModelMaxOutputTokens : Z) : M Answered :=
  Gemini.bind
    (generateFinalAnswer backend finalModel finalModelSystemInstruction finalModelUserPrompt
       finalModelMaxOutputTokens)
    (fun finalAnswerResult =>
  let finalAnswer := text finalAnswerResult in
  Gemini.bind (parseOrRepair backend finalModel finalAnswer) (fun parsedFinal =>
  let visibleAnswer := visibleAnswerOf parsedFinal finalAnswer in
  let normalizedVisibleAnswer := normalizeAssistantMarkdown visibleAnswer in
  fun log =>
    match getSourceFragmentsByNumber contextChunks
            (if ok parsedFinal then usedSourceNumbers parsedFinal else []) with
    | Throw e => (Throw e, log)
    | Ok sourceFragments =>
        (Ok {| finalAnswer := finalAnswer;
               parsedFinal := parsedFinal;
               visibleAnswer := visibleAnswer;
               stream := responseStream normalizedVisibleAnswer sourceFragments |}, log)
    end)).

(** *** Model selection and retrieval queries *)

(** The model names the route reads from its environment. *)
Record Models : Type := {
  PLANNER_MODEL : string;
  EASY_NONCODE_MODEL : string;
  EASY_CODE_MODEL : string;
  HARD_NONCODE_MODEL : string;
  HARD_CODE_MODEL : string
}.

Definition chooseFinalModel (models : Models) (plan : PlannerOutput) : string :=
  if needsCode plan && isHard plan then HARD_CODE_MODEL models
  else if needsCode plan && negb (isHard plan) then EASY_CODE_MODEL models
  else if negb (needsCode plan) && isHard plan then HARD_NONCODE_MODEL models
  else EASY_NONCODE_MODEL models.

Definition sameLetter (c letter : ascii) : bool := Ascii.eqb (toLower c) (toLower letter).

(** The pattern of the word ball or balls between two word boundaries,
    letters of either case, tried at one position: the length of the
    match. The optional [s] is greedy: it is given up when no word
    boundary follows it. *)
Definition ballsHere (before : option ascii) (s : string) : option nat :=
  if wordBoundary before s then
    match s with
    | String b (String a (String l1 (String l2 rest))) =>
        if sameLetter b "b" && sameLetter a "a" && sameLetter l1 "l" && sameLetter l2 "l" then
          match rest with
          | String s_ rest' =>
              if sameLetter s_ "s" && wordBoundary (Some s_) rest' then Some 5
              else if wordBoundary (Some l2) rest then Some 4 else None
          | EmptyString => if wordBoundary (Some l2) rest then Some 4 else None
          end
        else None
    | _ => None
    end
  else None.

(** [pattern.test(s)], from a position on. *)
Fixpoint ballsTest (before : option ascii) (s : string) : bool :=
  match ballsHere before s with
  | Some _ => true
  | None =>
      match s with
      | String c s' => ballsTest (Some c) s'
      | EmptyString => false
      end
  end.

(** [s.replace(pattern, "ARTIFACTS")] with the [g] flag, from a position
    on; [skip] counts the characters of a match still to pass over. *)
Fixpoint ballsToArtifacts (skip : nat) (before : option ascii) (s : string) : string :=
  match s with
  | EmptyString => EmptyString
  | String c s' =>
      match skip with
      | S skip' => ballsToArtifacts skip' (Some c) s'
      | 0 =>
          match ballsHere before s with
          | Some n => "ARTIFACTS" +:+ ballsToArtifacts (Nat.pred n) (Some c) s'
          | None => String c (ballsToArtifacts 0 (Some c) s')
          end
      end
  end.

(** The [for] loop over the planner's queries. *)
Fixpoint addPlannerQueries (plannerQueries : list string) (queries : list string) : list string :=
  match plannerQueries with
  | [] => queries
  | q :: rest =>
      let trimmed := trim q in
      addPlannerQueries rest (if truthy trimmed then setAdd queries trimmed else queries)
  end.

Definition buildRetrievalQueries (question : string) (plannerQueries : list string)
    : list string :=
  let queries := [] in
  let normalizedQuestion := trim question in
  let queries :=
    if truthy normalizedQuestion
    then setAdd (setAdd queries normalizedQuestion)
           ("FTC DECODE season question: " +:+ normalizedQuestion)
    else queries in
  let queries := addPlannerQueries plannerQueries queries in
  (* Common user phrasing may say "balls" while DECODE docs say "ARTIFACTS". *)
  let queries :=
    if ballsTest None normalizedQuestion
    then setAdd queries (ballsToArtifacts 0 None normalizedQuestion)
    else queries in
  queries.

End Route.

(** ** The chat route (src/unnamed/part_002): the request handler *)

Module Handler.
Import JS Retrieval Gemini Route.

Inductive Role : Type := system | user | assistant.

Record Message : Type := {
  role : Role;
  content : string
}.

(** [m.role.toUpperCase()] *)
Definition roleUpperCase (r : Role) : string :=
  match r with
  | system => "SYSTEM"
  | user => "USER"
  | assistant => "ASSISTANT"
  end.

Definition isUser (r : Role) : bool :=
  match r with user => true | _ => false end.

(** What the handler answers with: a response of status 400, a plain
    response, or a response whose body is a stream of chunks. *)
Inductive Response : Type :=
| BadRequest (body : string)
| Plain (body : string)
| Streamed (chunks : list string).

(** [[...messages].reverse().find((message) => message.role === "user")?.content] *)
Definition latestUserMessage (messages : list Message) : option string :=
  option_map content (List.find (fun message => isUser (role message)) (rev messages)).

(** [messages.slice(-12).map(...).join("\n")] *)
Definition conversationTranscript (messages : list Message) : string :=
  joinWith (chr LF)
    (map (fun m => roleUpperCase (role m) +:+ ": " +:+ content m)
         (drop (length messages - 12) messages)).

Definition plannerInstruction : string :=
  joinWith (chr LF)
    ["You are a routing planner for a RAG assistant.";
     "Default season assumption: if the user does not specify a season/year, assume they mean the current FTC season, DECODE.";
     "If user/context clearly indicates another season, use that instead.";
     "You have full conversation context. Resolve pronouns, shorthand, and follow-up references using prior turns.";
     "Treat this as a multi-turn dialog, not an isolated one-shot prompt.";
     "If the latest question depends on earlier turns, set needsConversationContext=true.";
     "Read the conversation carefully and ground your decision in the actual user wording instead of assumptions.";
     "When uncertain, be conservative and escalate complexity.";
     "Return only valid JSON with this exact schema:";
     "{";
     jsText "  'needsCode': boolean,";
     jsText "  'isHard': boolean,";
     jsText "  'needsConversationContext': boolean,";
     jsText "  'ragQueries': string[],";
     jsText "  'shouldShortCircuit': boolean,";
     jsText "  'directResponse': string";
     "}";
     "Be conservative: when unsure set needsCode=true and isHard=true.";
     "If question may depend on previous turns, set needsConversationContext=true.";
     "Only set shouldShortCircuit=true for very simple social/acknowledgement messages that need no retrieval or deeper reasoning (e.g. hi, hello, thanks).";
     "When shouldShortCircuit=true, provide a concise directResponse and set ragQueries to an empty array.";
     "ragQueries should be specific retrieval prompts needed to answer the user.";
     "No extra keys. No prose."].

Definition plannerRequest (models : Models) (messages : list Message) (question : string)
    : GeminiRequest :=
  {| model := PLANNER_MODEL models;
     systemInstruction := plannerInstruction;
     userPrompt :=
       "Conversation so far:" +:+ chr LF +:+ conversationTranscript messages
       +:+ String LF (String LF "Latest user question:") +:+ chr LF +:+ question;
     temperature := "0.1";
     maxOutputTokens := 500;
     responseMimeType := Some "application/json" |}.

Definition finalModelSystemInstruction (ragPrompt : string) : string :=
  joinWith (String LF (String LF ""))
    ["You are FTC Assistant.";
     "Default season assumption: if the user does not specify a season/year, assume they mean the current FTC season, DECODE.";
     "If user/context clearly indicates another season, use that instead.";
     "Read all reference notes closely before answering.";
     "Reason from the provided evidence first; do not rely on preconceived assumptions or prior bias.";
     "If notes conflict, resolve explicitly and prefer the most direct rule text.";
     "Act as a single direct assistant. Do not mention internal pipeline steps, retrieval, provided context, or that you were given documents.";
     "Never say phrases like 'based on the provided information' or 'according to the retrieved context'.";
     "Never refer to excerpts, context blocks, source fragments, retrieved notes, or documents in your visible answer.";
     "Return ONLY JSON with this exact schema:";
     jsText "{ 'answer': string, 'usedSourceNumbers': number[] }";
     "usedSourceNumbers must contain only the numeric context labels you actually relied on (e.g., [1], [3]).";
     "If no context was used, return an empty array.";
     "Do not include citations, source labels, or a Sources section inside the answer field.";
     "Include concise, actionable answers and answer in a smooth, natural tone.";
     "If unsure, state uncertainty directly without mentioning hidden context/retrieval.";
     ragPrompt].

Definition finalModelUserPrompt (plan : PlannerOutput) (messages : list Message)
    (question : string) : string :=
  let contextualBlock :=
    if needsConversationContext plan
    then "Conversation context:" +:+ chr LF +:+ conversationTranscript messages
         +:+ String LF (String LF "")
    else "" in
  contextualBlock +:+ "User question:" +:+ chr LF +:+ question.

(** [POST], from the parsed request body on. [RAG_MATCH_COUNT] and
    [FINAL_MODEL_MAX_OUTPUT_TOKENS] are the numbers read from the
    environment. *)
Definition POST (models : Models) (RAG_MATCH_COUNT FINAL_MODEL_MAX_OUTPUT_TOKENS : Z)
    (env : Env) (backend : Backend) (messages : list Message) : M Response :=
  match latestUserMessage messages with
  | None => ret (BadRequest "Missing user question.")
  | Some latest =>
      if negb (truthy (trim latest)) then ret (BadRequest "Missing user question.")
      else
        (* Step 1: question is captured as soon as it arrives. *)
        let question := trim latest in
        (* Step 2: planner model decides complexity/routing and RAG queries. *)
        Gemini.bind (generateGeminiText backend (plannerRequest models messages question))
          (fun plannerRaw =>
        let plan := parsePlannerOutput plannerRaw question in
        if shouldShortCircuit plan && truthy (directResponse plan)
        then ret (Plain (directResponse plan))
        else
          (* Step 3: model selection by difficulty/code axes. *)
          let finalModel := chooseFinalModel models plan in
          (* Step 4: run RAG on all planner prompts. *)
          let ragMatchCount := RAG_MATCH_COUNT in
          let retrievalQueries := buildRetrievalQueries question (ragQueries plan) in
          let contextChunks := retrieveContext env retrievalQueries ragMatchCount in
          (* Step 5: final model gets question + RAG + optional conversation context. *)
          let ragPrompt := buildRagSystemPrompt contextChunks in
          Gemini.bind
            (answerQuestion backend contextChunks finalModel
               (finalModelSystemInstruction ragPrompt)
               (finalModelUserPrompt plan messages question)
               FINAL_MODEL_MAX_OUTPUT_TOKENS)
            (fun answered => ret (Streamed (stream answered))))
  end.

End Handler.

(** ** src/components/ChatInterface.tsx: the receiving side *)

Module Client.
Import JS.

Definition RAG_CONTEXT_START : string := "<<RAG_CONTEXT_JSON>>".
Definition RAG_CONTEXT_END : string := "<<END_RAG_CONTEXT_JSON>>".

Record Fragment : Type := {
  title : string;
  url : option string;
  excerpt : string
}.

Record Payload : Type := {
  content : string;
  sourceFragments : option (list Fragment)     (* [None]: undefined *)
}.

(** [typeof v === "string" && v.trim() ? v.trim() : fallback] *)
Definition trimmedOr {A : Type} (v : option json) (some : string -> A) (fallback : A) : A :=
  match v with
  | Some (JStr s) => if truthy (trim s) then some (trim s) else fallback
  | _ => fallback
  end.

(** The [filter] and [map] over [parsed.sourceFragments]. *)
Fixpoint fragmentsOf (items : list json) : list Fragment :=
  match items with
  | [] => []
  | item :: rest =>
      match getPropOpt (Some item) "excerpt" with
      | Some (JStr e) =>
          {| title := trimmedOr (getPropOpt (Some item) "title") (fun t => t) "Source";
             url := trimmedOr (getPropOpt (Some item) "url") Some None;
             excerpt := e |}
          :: fragmentsOf rest
      | _ => fragmentsOf rest
      end
  end.

(** The body of the [try] of [parseAssistantPayload]. *)
Definition parsePayloadJson (content_ jsonText : string) : result Payload :=
  JS.bind (JSON_parse jsonText) (fun parsed =>
  JS.bind (getProp parsed "sourceFragments") (fun parsed_sourceFragments =>
  let sourceFragments :=
    match parsed_sourceFragments with
    | Some (JArr items) => fragmentsOf items
    | _ => []
    end in
  Ok {| content := content_;
        sourceFragments :=
          match sourceFragments with [] => None | _ => Some sourceFragments end |})).

Definition parseAssistantPayload (raw : string) : Payload :=
  let start := indexOf raw RAG_CONTEXT_START 0 in
  if (start =? -1)%Z then {| content := raw; sourceFragments := None |}
  else
    let end_ := indexOf raw RAG_CONTEXT_END (Z.to_nat (start + len RAG_CONTEXT_START)) in
    if (end_ =? -1)%Z then {| content := slice raw 0 start; sourceFragments := None |}
    else
      let content_ := slice raw 0 start in
      let jsonText := slice raw (start + len RAG_CONTEXT_START) end_ in
      match parsePayloadJson content_ jsonText with
      | Ok payload => payload
      | Throw _ => {| content := content_; sourceFragments := None |}
      end.

(** The reader loop: the chunks are appended as they arrive, and the
    message shows the parse of what has arrived. *)
Definition received (chunks : list string) : Payload :=
  parseAssistantPayload (join chunks).

End Client.

(** ** Notions the properties are stated with *)

(** The mean of the [i]-th bucket of [ratio] consecutive components. *)
Definition bucketMean (v : list float) (ratio i : nat) : float :=
  (fold_left PrimFloat.add (take ratio (drop (i * ratio) v)) 0 / Rag.ofNat ratio)%float.

(** The chunks of a walk over [cleaned] that starts at index [a]: windows
    of [size] characters, each starting [overlap] characters before the
    end of the one before, the last one running to the end of the text. *)
Inductive chunkWalk (cleaned : string) (size overlap : Z) : Z -> list string -> Prop :=
| walk_last (a : Z) :
    (0 <= a < JS.len cleaned)%Z -> (JS.len cleaned <= a + size)%Z ->
    chunkWalk cleaned size overlap a [JS.slice cleaned a (JS.len cleaned)]
| walk_step (a : Z) (rest : list string) :
    (0 <= a)%Z -> (a + size < JS.len cleaned)%Z ->
    chunkWalk cleaned size overlap (a + size - overlap) rest ->
    chunkWalk cleaned size overlap a (JS.slice cleaned a (a + size) :: rest).

(** The identity key as the specification words it: the [id] when
    present, else [source:chunk_index], with [na] for a [chunk_index]
    entry that is absent or not a number. *)
Definition specifiedKey (chunk : Retrieval.RetrievedChunk) : string :=
  match Retrieval.id chunk with
  | Some i => i
  | None =>
      Retrieval.source chunk +:+ ":"
      +:+ match JS.getPropOpt (option_map JS.JObj (Retrieval.metadata chunk)) "chunk_index" with
          | Some (JS.JNum n) => JS.String_ n
          | _ => "na"
          end
  end.

(** A chunk without [id] whose [chunk_index] entry is the text [index]. *)
Definition textIndexedChunk (index : string) : Retrieval.RetrievedChunk :=
  {| Retrieval.id := None;
     Retrieval.content := "text";
     Retrieval.source := "manual.pdf";
     Retrieval.metadata := Some [("chunk_index", JS.JStr index)];
     Retrieval.similarity := 0.5%float |}.

(** The context the specification describes: a search that fails counts
    as an empty result, the others are kept. *)
Definition specifiedContext (env : Retrieval.Env) (retrievalQueries : list string)
    (ragMatchCount : Z) : list Retrieval.RetrievedChunk :=
  Route.dedupeChunks
    (concat (map (fun ragPrompt =>
                    match Retrieval.searchRelevantChunks env ragPrompt ragMatchCount with
                    | JS.Ok found => found
                    | JS.Throw _ => []
                    end)
                 retrievalQueries)).

Definition storedChunk : Retrieval.RetrievedChunk :=
  {| Retrieval.id := Some "7f3c";
     Retrieval.content := "ARTIFACTS are scored in the GOAL.";
     Retrieval.source := "manual.pdf";
     Retrieval.metadata := Some [("chunk_index", JS.JNum (JS.Int 4))];
     Retrieval.similarity := 0.5%float |}.

(** An environment whose embedding provider fails on the query [bad]
    and whose store answers every lookup with [storedChunk]. *)
Definition flakyEnv : Retrieval.Env :=
  {| Retrieval.OPENAI_API_KEY := true;
     Retrieval.SUPABASE_URL := true;
     Retrieval.SUPABASE_SERVICE_ROLE_KEY := true;
     Retrieval.EMBEDDING_DIMENSIONS := None;
     Retrieval.EMBEDDING_TARGET_DIMENSIONS := 2;
     Retrieval.embeddingsCreate := fun texts =>
       match texts with
       | ["bad"] => JS.Throw "429 Too Many Requests"
       | _ => JS.Ok (map (fun _ => [1%float; 0%float]) texts)
       end;
     Retrieval.matchDocuments := fun _ _ => (Some [storedChunk], None) |}.

(** An environment that asks the provider for vectors of dimension 3
    and whose provider answers with vectors of dimension 2. *)
Definition mismatchedEnv : Retrieval.Env :=
  {| Retrieval.OPENAI_API_KEY := true;
     Retrieval.SUPABASE_URL := true;
     Retrieval.SUPABASE_SERVICE_ROLE_KEY := true;
     Retrieval.EMBEDDING_DIMENSIONS := Some 3;
     Retrieval.EMBEDDING_TARGET_DIMENSIONS := 3;
     Retrieval.embeddingsCreate := fun texts => JS.Ok (map (fun _ => [1%float; 0%float]) texts);
     Retrieval.matchDocuments := fun _ _ => (Some [storedChunk], None) |}.

(** The first request of a generation, and its retry. *)
Definition firstRequest (finalModel systemInstruction userPrompt : string) (budget : Z)
    : Gemini.GeminiRequest :=
  {| Gemini.model := finalModel;
     Gemini.systemInstruction := systemInstruction;
     Gemini.userPrompt := userPrompt;
     Gemini.temperature := "0.2";
     Gemini.maxOutputTokens := budget;
     Gemini.responseMimeType := Some "application/json" |}.

Definition retryRequest (finalModel systemInstruction userPrompt : string) (budget : Z)
    : Gemini.GeminiRequest :=
  {| Gemini.model := finalModel;
     Gemini.systemInstruction := systemInstruction +:+ Route.retryNote;
     Gemini.userPrompt := userPrompt;
     Gemini.temperature := "0.2";
     Gemini.maxOutputTokens := Z.max budget 4096;
     Gemini.responseMimeType := Some "application/json" |}.

(** A backend whose answer to the first request is cut off at the token
    limit; [later] answers every further request. *)
Definition truncatingBackend (firstText : string)
    (later : list Gemini.GeminiRequest -> JS.result Gemini.GeminiTextResult) : Gemini.Backend :=
  fun history =>
    match history with
    | [_] => JS.Ok {| Gemini.text := firstText; Gemini.finishReason := Some "MAX_TOKENS" |}
    | _ => later history
    end.

(** The request of the repair call. *)
Definition repairRequest (finalModel finalAnswer : string) : Gemini.GeminiRequest :=
  {| Gemini.model := finalModel;
     Gemini.systemInstruction := Route.formatterInstruction;
     Gemini.userPrompt := "Malformed output:" +:+ JS.chr JS.LF +:+ finalAnswer;
     Gemini.temperature := "0";
     Gemini.maxOutputTokens := 800;
     Gemini.responseMimeType := Some "application/json" |}.

(** The two fallback texts of [extractAnswerFallbackText], each on its
    own: the contents of an answer field, unescaped and trimmed, and
    the raw text stripped of JSON punctuation. *)
Definition unescapedField (field : string) : string :=
  JS.trim (JS.replaceAll (JS.replaceAll field Route.escapedQuote (JS.chr JS.DQUOTE))
             Route.escapedNewline (JS.chr JS.LF)).

Definition strippedText (raw : string) : string :=
  JS.trim (JS.replaceAll
             (JS.replace (JS.replace raw Route.upToAnswer "") Route.fromUsedSourceNumbers "")
             Route.jsonPunctuation "").

(** The answer field the pattern finds in [raw], unescaped; empty when
    it finds none. *)
Definition answerFieldText (raw : string) : string :=
  match JS.match_ raw Route.answerField with
  | Some m => unescapedField (default "" (JS.capture 1 (JS.m_groups m)))
  | None => ""
  end.

(** The visible answer in the words of the specification: the parsed
    answer, else the answer field found by the pattern, else the
    stripped text, else the apology, each link taken when it is not
    empty. *)
Definition specifiedVisibleAnswer (parsedFinal : Route.ParsedFinalModelOutput)
    (finalAnswer : string) : string :=
  Route.orElse (Route.answer parsedFinal)
    (Route.orElse (answerFieldText finalAnswer)
       (Route.orElse (strippedText finalAnswer) Route.APOLOGY)).

(** A final output whose answer field is one space, and a backend that
    is out of service. *)
Definition blankAnswerOutput : string := JS.jsText "{'answer': ' ', 'k': 'v'}".

Definition unavailableBackend : Gemini.Backend :=
  fun _ => JS.Throw "503 Service Unavailable".

(** The number of leading characters of [s] in the class [p], and
    whether all its characters are. *)
Fixpoint lead (p : ascii -> bool) (s : string) : nat :=
  match s with
  | String c s' => if p c then S (lead p s') else 0
  | EmptyString => 0
  end.

Fixpoint every (p : ascii -> bool) (s : string) : bool :=
  match s with
  | String c s' => p c && every p s'
  | EmptyString => true
  end.

Definition isDot (c : ascii) : bool := negb (JS.isLineTerminator c).



(** The callback of the [flatMap] of [splitForStream]. *)
Definition segments (part : string) : list string :=
  if negb (JS.truthy (JS.trim part)) then [part]
  else default [part] (JS.matchAll part Route.upTo120).





(** The model names the route uses when its environment names none. *)
Definition defaultModels : Route.Models :=
  {| Route.PLANNER_MODEL := "gemini-2.0-flash-lite";
     Route.EASY_NONCODE_MODEL := "gemini-2.0-flash";
     Route.EASY_CODE_MODEL := "gemini-2.0-flash";
     Route.HARD_NONCODE_MODEL := "gemini-2.5-pro";
     Route.HARD_CODE_MODEL := "gemini-2.5-pro" |}.

(** A backend that answers every request with the same text. *)
Definition constantBackend (reply : string) : Gemini.Backend :=
  fun _ => JS.Ok {| Gemini.text := reply; Gemini.finishReason := Some "STOP" |}.

(** The backend behind the pipeline: each request is sent, and the
    response of the API is read by [textResultOf]. [exchange] is the
    network: what the API answers to the latest request of a history. *)
Definition apiBackend (exchange : list Gemini.GeminiRequest -> GeminiApi.FetchResponse)
    : Gemini.Backend :=
  fun history => GeminiApi.textResultOf (exchange history).

(** The characters of a batch of texts. *)
Definition totalChars (batch : list string) : Z :=
  fold_right (fun text_ n => (JS.len text_ + n)%Z) 0%Z batch.

(** A batch within the limits: by count, and by characters unless it
    is one text alone. *)
Definition withinLimits (size maxChars : Z) (batch : list string) : Prop :=
  (Z.of_nat (length batch) <= Z.max 1 size)%Z
  /\ ((totalChars batch <= maxChars)%Z \/ length batch <= 1).

(** An embedder that sends at most two texts and at most ten
    characters at a time, to a provider of vectors of dimension 2. *)
Definition smallEmbedder : Ingest.Embedder :=
  {| Ingest.EMBEDDING_MODEL := "text-embedding-3-small";
     Ingest.EMBEDDING_DIMENSIONS := None;
     Ingest.EMBEDDING_TARGET_DIMENSIONS := 2;
     Ingest.BATCH_SIZE := 2;
     Ingest.EMBED_MAX_CHARS_PER_REQUEST := 10;
     Ingest.embeddingsCreate := fun batch => JS.Ok (map (fun _ => [1%float; 0%float]) batch) |}.

(** The chunk the store returns for a row: the row's source, content
    and metadata, with the identifier the store gave the row and the
    similarity it computed. *)
Definition storedAs (row : Ingest.Row) (id : string) (similarity : float)
    : Retrieval.RetrievedChunk :=
  {| Retrieval.id := Some id;
     Retrieval.content := Ingest.content row;
     Retrieval.source := Ingest.source row;
     Retrieval.metadata := Some (Ingest.metadata row);
     Retrieval.similarity := similarity |}.

(** A manifest with one entry, for the file guide.md. *)
Definition guideManifest : list (string * JS.json) :=
  [("guide.md",
    JS.JObj [("url", JS.JStr " https://example.org/guide "); ("title", JS.JStr "Guide")])].

Definition guideInfo : Ingest.SourceInfo :=
  {| Ingest.sourceUrl := Some "https://example.org/guide"; Ingest.sourceTitle := "Guide" |}.

(** The row of the only chunk of guide.md. *)
Definition guideRow : Ingest.Row :=
  {| Ingest.source := "guide.md";
     Ingest.content := "Score ARTIFACTS. ";
     Ingest.chunk_index := 0;
     Ingest.metadata :=
       [("source", JS.JStr "guide.md");
        ("source_url", JS.JStr "https://example.org/guide");
        ("source_title", JS.JStr "Guide");
        ("chunk_index", JS.JNum (JS.Int 0))];
     Ingest.embedding := Some [1%float; 0%float] |}.

(** A conversation of one message, from the user. *)
Definition asked (question : string) : list Handler.Message :=
  [{| Handler.role := Handler.user; Handler.content := question |}].

(** The class of the characters other than [c]. *)
Definition isNot (c : ascii) (a : ascii) : bool := negb (Ascii.eqb a c).

(** The text put together again from its chunks: the first chunk, then
    every later chunk from its index [overlap] on. *)
Definition reassemble (overlap : Z) (chunks : list string) : string :=
  match chunks with
  | [] => ""
  | first :: rest => first +:+ JS.join (map (fun chunk => JS.sliceFrom chunk overlap) rest)
  end.

(* ================================================================== *)
(** * Part II: the properties                                          *)
(* ================================================================== *)

(** ** The model on small inputs *)

Example normalizeEmbedding_buckets :
  Rag.normalizeEmbedding 2 [1%float; 2%float; 3%float; 5%float] = [1.5%float; 4%float].
Proof. reflexivity. Qed.

Example normalizeEmbedding_truncates :
  Rag.normalizeEmbedding 3 [1%float; 2%float; 3%float; 5%float]
  = [1%float; 2%float; 3%float].
Proof. reflexivity. Qed.

Example normalizeEmbedding_pads :
  Rag.normalizeEmbedding 3 [1%float] = [1%float; 0%float; 0%float].
Proof. reflexivity. Qed.

Example buildChunks_windows :
  Rag.buildChunks 16 "  abcdefghij " 4 1 = Some ["abcd"; "defg"; "ghij"].
Proof. reflexivity. Qed.

(** Without progress ([overlap = size]) the loop of the source does not
    end; the model runs out of fuel. *)
Example buildChunks_no_progress : Rag.buildChunks 1000 "abc" 1 1 = None.
Proof. vm_compute. reflexivity. Qed.

Example split_newlineRuns :
  JS.split ("ab" +:+ String JS.LF (String JS.LF ("cd" +:+ JS.chr JS.LF))) Route.newlineRuns 1
  = ["ab"; String JS.LF (JS.chr JS.LF); "cd"; JS.chr JS.LF; ""].
Proof. vm_compute. reflexivity. Qed.

Example matchAll_pieces :
  JS.matchAll "abcdefg" (JS.Repeat 1 (Some 3) true JS.Dot) = Some ["abc"; "def"; "g"].
Proof. vm_compute. reflexivity. Qed.

Example extractJsonObject_fenced :
  Gemini.extractJsonObject "Here: ```JSON  {1}  ``` and ```json {2}```" = Some "{1}".
Proof. vm_compute. reflexivity. Qed.

Example extractJsonObject_braces :
  Gemini.extractJsonObject "```json``` x {a} } {" = Some "{a} }"
  /\ Gemini.extractJsonObject "} {" = None.
Proof. split; vm_compute; reflexivity. Qed.

Example JSON_parse_values :
  JS.JSON_parse (JS.jsText "{'a': [1, 2.50, -3e2, true, null, 'x\ny'], 'b': {}} ")
  = JS.Ok (JS.JObj [("a", JS.JArr [JS.JNum (JS.Int 1); JS.JNum (JS.NonInt "2.5");
                                   JS.JNum (JS.Int (-300)); JS.JBool true; JS.JNull;
                                   JS.JStr ("x" +:+ String JS.LF "y")]);
                    ("b", JS.JObj [])]).
Proof. vm_compute. reflexivity. Qed.

Example JSON_parse_rejects :
  (exists e, JS.JSON_parse "[1,]" = JS.Throw e)
  /\ (exists e, JS.JSON_parse "01" = JS.Throw e)
  /\ (exists e, JS.JSON_parse "{} x" = JS.Throw e).
Proof. split_and!; eexists; vm_compute; reflexivity. Qed.

Example parsePlannerOutput_null :
  Route.parsePlannerOutput "```json null```" "Q" = Route.conservativePlan "Q".
Proof. vm_compute. reflexivity. Qed.

Example parseFinalModelOutput_numbers :
  Route.parseFinalModelOutput (JS.jsText "{'answer': ' hi ', 'usedSourceNumbers': [1, 'x', 2.5]}")
  = {| Route.answer := "hi";
       Route.usedSourceNumbers := [JS.Int 1; JS.NonInt "2.5"];
       Route.ok := true |}.
Proof. vm_compute. reflexivity. Qed.

Example extractAnswerFallbackText_field :
  Route.extractAnswerFallbackText (JS.jsText "{'answer': 'he said \'yo\'\nbye', 'usedSourceNumbers': [1")
  = JS.jsText "he said 'yo'" +:+ String JS.LF "bye".
Proof. vm_compute. reflexivity. Qed.

Example extractAnswerFallbackText_stripped :
  Route.extractAnswerFallbackText (JS.jsText "{'Answer': 'abc [x] ', 'usedSourceNumbers': [1")
  = "abc x ,".
Proof. vm_compute. reflexivity. Qed.

(** A blank answer field is found by the pattern and trimmed to nothing:
    the visible answer is then the apology. *)
Example visibleAnswer_blank_field :
  Route.extractAnswerFallbackText (JS.jsText "{'answer': ' ', 'k': 'v'}") = ""
  /\ Route.visibleAnswerOf Route.unparsed (JS.jsText "{'answer': ' ', 'k': 'v'}")
     = Route.APOLOGY.
Proof. split; vm_compute; reflexivity. Qed.

Example normalizeAssistantMarkdown_unescapes :
  Route.normalizeAssistantMarkdown "a\nb\tc"
  = "a" +:+ String JS.LF ("b" +:+ String JS.TAB "c").
Proof. vm_compute. reflexivity. Qed.

Example getSourceFragmentsByNumber_canonical :
  Route.normalizedNumbers [storedChunk; storedChunk; storedChunk]
    [JS.Int 3; JS.Int 0; JS.NonInt "1.5"; JS.Int 1; JS.Int 3; JS.Int 4; JS.Int (-2)]
  = [JS.Int 1; JS.Int 3].
Proof. vm_compute. reflexivity. Qed.

(** ** Strings *)

Section StringFacts.
Import JS.

Lemma append_cons (c : ascii) (s t : string) : String c s +:+ t = String c (s +:+ t).
Proof. reflexivity. Qed.

Lemma append_nil_l (s : string) : "" +:+ s = s.
Proof. reflexivity. Qed.

Lemma append_nil_r (s : string) : s +:+ "" = s.
Proof.
  induction s as [|c s IH]; [reflexivity | now rewrite append_cons, IH].
Qed.

Lemma append_assoc (a b c : string) : (a +:+ b) +:+ c = a +:+ (b +:+ c).
Proof.
  induction a as [|x a IH]; [reflexivity | now rewrite !append_cons, IH].
Qed.

Lemma length_append (a b : string) :
  String.length (a +:+ b) = String.length a + String.length b.
Proof.
  induction a as [|x a IH]; [reflexivity | rewrite append_cons; simpl; now rewrite IH].
Qed.

Lemma length_str_take (n : nat) (s : string) :
  String.length (str_take n s) = Nat.min n (String.length s).
Proof.
  revert s; induction n as [|n IH]; intros [|c s]; simpl; try reflexivity.
  now rewrite IH.
Qed.

Lemma length_str_drop (n : nat) (s : string) :
  String.length (str_drop n s) = String.length s - n.
Proof.
  revert s; induction n as [|n IH]; intros [|c s]; simpl; try reflexivity.
  apply IH.
Qed.

Lemma take_drop_id (n : nat) (s : string) : str_take n s +:+ str_drop n s = s.
Proof.
  revert s; induction n as [|n IH]; intros [|c s]; simpl; try reflexivity.
  now rewrite append_cons, IH.
Qed.

Lemma str_take_all (n : nat) (s : string) : String.length s <= n -> str_take n s = s.
Proof.
  revert s; induction n as [|n IH]; intros [|c s]; simpl; intros H; try reflexivity.
  - lia.
  - rewrite IH; [reflexivity | lia].
Qed.

Lemma str_drop_0 (s : string) : str_drop 0 s = s.
Proof. now destruct s. Qed.

Lemma str_drop_drop (a b : nat) (s : string) :
  str_drop a (str_drop b s) = str_drop (b + a) s.
Proof.
  revert s; induction b as [|b IH]; intros s; simpl.
  - reflexivity.
  - destruct s as [|c s]; [now destruct a | apply IH].
Qed.

Lemma str_take_take (a b : nat) (s : string) :
  str_take a (str_take b s) = str_take (Nat.min a b) s.
Proof.
  revert b s; induction a as [|a IH]; intros [|b] [|c s]; simpl; try reflexivity.
  now rewrite IH.
Qed.

Lemma str_drop_take (a b : nat) (s : string) :
  str_drop a (str_take b s) = str_take (b - a) (str_drop a s).
Proof.
  revert b s; induction a as [|a IH]; intros b s.
  - simpl; now rewrite Nat.sub_0_r.
  - destruct b as [|b]; destruct s as [|c s]; simpl; try reflexivity.
    + now destruct (b - a).
    + apply IH.
Qed.

Lemma truthy_false (s : string) : truthy s = false -> s = "".
Proof. now destruct s. Qed.

Lemma truthy_true (s : string) : truthy s = true <-> s <> "".
Proof. destruct s; simpl; split; congruence. Qed.

End StringFacts.

(** ** The embedding normalizer *)

Section Normalizer.
Import Rag.

Lemma length_fillBuckets (embedding : list float) (ratio n i : nat) (normalized : list float) :
  length (fillBuckets embedding ratio n i normalized) = length normalized.
Proof.
  revert i normalized; induction n as [|n IH]; intros i normalized; simpl.
  - reflexivity.
  - rewrite IH. apply length_insert.
Qed.

Lemma pushZeros_replicate (n : nat) (padded : list float) :
  pushZeros n padded = padded ++ replicate n 0%float.
Proof.
  revert padded; induction n as [|n IH]; intros padded; simpl.
  - now rewrite app_nil_r.
  - rewrite IH, <- app_assoc. reflexivity.
Qed.

(** The inner loop adds up the components [i * ratio + j ..] in order. *)
Lemma bucketSum_fold (embedding : list float) (i ratio n j : nat) (sum : float) :
  i * ratio + j + n <= length embedding ->
  bucketSum embedding i ratio n j sum
  = fold_left PrimFloat.add (take n (drop (i * ratio + j) embedding)) sum.
Proof.
  revert j sum; induction n as [|n IH]; intros j sum Hlen; simpl.
  - reflexivity.
  - destruct (lookup_lt_is_Some_2 embedding (i * ratio + j)) as [x Hx]; [lia|].
    rewrite (drop_S _ _ _ Hx). simpl.
    unfold at_ at 1. rewrite Hx. simpl.
    rewrite IH by lia. now replace (i * ratio + S j) with (S (i * ratio + j)) by lia.
Qed.

(** The outer loop writes the slots [i .. i + n) and no other. *)
Lemma lookup_fillBuckets (embedding : list float) (ratio n i k : nat) (normalized : list float) :
  i + n <= length normalized ->
  fillBuckets embedding ratio n i normalized !! k
  = if bool_decide (i <= k < i + n)
    then Some (bucketSum embedding k ratio ratio 0 0%float / ofNat ratio)%float
    else normalized !! k.
Proof.
  revert i normalized; induction n as [|n IH]; intros i normalized Hlen; simpl.
  - rewrite bool_decide_eq_false_2 by lia. reflexivity.
  - rewrite IH by (rewrite length_insert; lia).
    destruct (decide (k = i)) as [->|Hne].
    + rewrite bool_decide_eq_false_2 by lia.
      rewrite bool_decide_eq_true_2 by lia.
      apply list_lookup_insert_eq. lia.
    + rewrite list_lookup_insert_ne by congruence.
      destruct (decide (S i <= k < S i + n)).
      * rewrite !bool_decide_eq_true_2 by lia. reflexivity.
      * rewrite !bool_decide_eq_false_2 by lia. reflexivity.
Qed.

Lemma bucketSum_same (embedding : list float) (i ratio n j : nat) (sum : float) :
  Ingest.bucketSum embedding i ratio n j sum = bucketSum embedding i ratio n j sum.
Proof.
  revert j sum; induction n as [|n IH]; intros j sum; simpl; [reflexivity | apply IH].
Qed.

Lemma fillBuckets_same (embedding : list float) (ratio n i : nat) (normalized : list float) :
  Ingest.fillBuckets embedding ratio n i normalized
  = fillBuckets embedding ratio n i normalized.
Proof.
  revert i normalized; induction n as [|n IH]; intros i normalized; simpl.
  - reflexivity.
  - rewrite IH, bucketSum_same. reflexivity.
Qed.

Lemma pushZeros_same (n : nat) (padded : list float) :
  Ingest.pushZeros n padded = pushZeros n padded.
Proof.
  revert padded; induction n as [|n IH]; intros padded; simpl; [reflexivity | apply IH].
Qed.

End Normalizer.

(** C2. Embedding normalizer length contract: for every input vector and
    every target dimension [T], the normalized vector has length [T]; it
    is the input itself when the lengths agree, the vector of bucket
    means when the input is longer and its length is a multiple of [T],
    the first [T] components when it is longer otherwise, and the input
    padded with zeros when it is shorter. *)
Theorem normalizeEmbedding_length_contract (T : nat) (v : list float) :
  length (Rag.normalizeEmbedding T v) = T
  /\ (length v = T -> Rag.normalizeEmbedding T v = v)
  /\ (T < length v -> length v mod T = 0 ->
      forall i, i < T ->
        Rag.normalizeEmbedding T v !! i = Some (bucketMean v (length v / T) i))
  /\ (T < length v -> length v mod T <> 0 -> Rag.normalizeEmbedding T v = take T v)
  /\ (length v < T -> Rag.normalizeEmbedding T v = v ++ replicate (T - length v) 0%float).
Proof.
  unfold Rag.normalizeEmbedding.
  destruct (Nat.eqb_spec (length v) T) as [Heq|Hne].
  { repeat split; try (intros; lia); auto. }
  destruct (Nat.ltb_spec T (length v)) as [Hlt|Hge]; simpl.
  - destruct (Nat.eqb_spec (length v mod T) 0) as [Hmod|Hmod].
    + repeat split; try (intros; lia).
      * rewrite length_fillBuckets. apply length_replicate.
      * intros _ _ i Hi.
        rewrite lookup_fillBuckets by (rewrite length_replicate; lia).
        rewrite bool_decide_eq_true_2 by lia.
        unfold bucketMean. rewrite bucketSum_fold.
        -- now rewrite Nat.add_0_r.
        -- assert (T <> 0) by (intros ->; rewrite Nat.mod_0_r in Hmod; lia).
           pose proof (Nat.div_mod (length v) T ltac:(assumption)) as Hdm.
           rewrite Hmod, Nat.add_0_r in Hdm.
           assert (S i * (length v / T) <= T * (length v / T)) by (apply Nat.mul_le_mono_r; lia).
           lia.
    + repeat split; try (intros; lia); auto.
      rewrite length_take. lia.
  - repeat split; try (intros; lia).
    + rewrite pushZeros_replicate, length_app, length_replicate. lia.
    + intros _. apply pushZeros_replicate.
Qed.

(** C3. Normalization is identical at ingestion time and at query time:
    the ingestion script's normalizer and the library's normalizer
    compute the same vector for the same target dimension. *)
Theorem normalizeEmbedding_ingest_same (T : nat) (v : list float) :
  Ingest.normalizeEmbedding T v = Rag.normalizeEmbedding T v.
Proof.
  unfold Ingest.normalizeEmbedding, Rag.normalizeEmbedding.
  destruct (length v =? T); [reflexivity|].
  destruct ((T <? length v) && (length v mod T =? 0)); [apply fillBuckets_same|].
  destruct (T <? length v); [reflexivity | apply pushZeros_same].
Qed.


(** ** The chunker *)

Section Chunker.
Import JS.

Lemma slice_inside (s : string) (a b : Z) :
  (0 <= a <= b)%Z -> (b <= len s)%Z ->
  slice s a b = str_take (Z.to_nat (b - a)) (str_drop (Z.to_nat a) s).
Proof.
  intros Hab Hb. unfold slice, clampIndex.
  destruct (Z.ltb_spec a 0); [lia|]. destruct (Z.ltb_spec b 0); [lia|].
  rewrite !Z.min_l by lia. rewrite Z.max_l by lia. reflexivity.
Qed.

Lemma slice_tail (s : string) (k : Z) :
  (0 < k <= len s)%Z ->
  slice s (- k) (len s) = str_drop (Z.to_nat (len s - k)) s.
Proof.
  intros Hk. unfold slice, clampIndex.
  destruct (Z.ltb_spec (- k) 0); [|lia]. destruct (Z.ltb_spec (len s) 0); [unfold len in *; lia|].
  rewrite Z.min_l by lia. rewrite !Z.max_l by lia.
  replace (len s + - k)%Z with (len s - k)%Z by lia.
  apply str_take_all. rewrite length_str_drop. unfold len in *. lia.
Qed.

Lemma len_slice_inside (s : string) (a b : Z) :
  (0 <= a <= b)%Z -> (b <= len s)%Z -> len (slice s a b) = (b - a)%Z.
Proof.
  intros Hab Hb. rewrite slice_inside by assumption.
  unfold len in *. rewrite length_str_take, length_str_drop. lia.
Qed.

Variables (cleaned : string) (size overlap : Z).
Hypothesis overlap_pos : (0 < overlap)%Z.
Hypothesis overlap_lt_size : (overlap < size)%Z.

(** Enough fuel: the loop started at [a] returns the walk from [a],
    appended to what was collected before. *)
Lemma buildChunksLoop_walk (fuel : nat) :
  forall (a : Z) (acc : list string),
    (0 <= a < len cleaned)%Z -> (len cleaned - a <= Z.of_nat fuel)%Z ->
    exists new,
      Rag.buildChunksLoop fuel cleaned size overlap a acc = Some (acc ++ new)
      /\ chunkWalk cleaned size overlap a new.
Proof.
  induction fuel as [|fuel IH]; intros a acc Ha Hfuel; [lia|].
  simpl. destruct (Z.ltb_spec a (len cleaned)); [|lia].
  destruct (Z.le_gt_cases (len cleaned) (a + size)) as [Hend|Hend].
  - rewrite Z.min_r by lia.
    destruct (Z.geb_spec (len cleaned) (len cleaned)); [|lia].
    eexists; split; [reflexivity|]. now apply walk_last.
  - rewrite Z.min_l by lia.
    destruct (Z.geb_spec (a + size) (len cleaned)); [lia|].
    rewrite Z.max_r by lia.
    destruct (IH (a + size - overlap)%Z (acc ++ [slice cleaned a (a + size)]))
      as (new & Hrun & Hwalk); [lia | lia |].
    exists (slice cleaned a (a + size) :: new). split.
    + rewrite Hrun, <- app_assoc. reflexivity.
    + apply walk_step; [lia | lia | exact Hwalk].
Qed.

Lemma walk_head (a : Z) (chunks : list string) :
  chunkWalk cleaned size overlap a chunks ->
  exists rest, chunks = slice cleaned a (Z.min (a + size) (len cleaned)) :: rest
               /\ (0 <= a < len cleaned)%Z.
Proof.
  intros [a' Ha Hend | a' rest Ha Hend Hrest].
  - exists []. rewrite Z.min_r by lia. split; [reflexivity | lia].
  - exists rest. rewrite Z.min_l by lia. split; [reflexivity | lia].
Qed.

Lemma walk_bounded (a : Z) (chunks : list string) :
  chunkWalk cleaned size overlap a chunks ->
  forall c, c ∈ chunks -> (len c <= size)%Z.
Proof.
  induction 1 as [a Ha Hend | a rest Ha Hend Hrest IH]; intros c Hc.
  - apply list_elem_of_singleton in Hc as ->.
    rewrite len_slice_inside by lia. lia.
  - apply elem_of_cons in Hc as [-> | Hc]; [|now apply IH].
    rewrite len_slice_inside by lia. lia.
Qed.

Lemma walk_last_suffix (a : Z) (chunks : list string) :
  chunkWalk cleaned size overlap a chunks ->
  exists c, last chunks = Some c /\ exists pre, cleaned = pre +:+ c.
Proof.
  induction 1 as [a Ha Hend | a rest Ha Hend Hrest (c & Hlast & Hpre)].
  - eexists; split; [reflexivity|].
    exists (str_take (Z.to_nat a) cleaned).
    rewrite slice_inside by lia.
    rewrite (str_take_all (Z.to_nat (len cleaned - a)))
      by (rewrite length_str_drop; unfold len in *; lia).
    symmetry; apply take_drop_id.
  - exists c; split; [|exact Hpre].
    destruct rest as [|c' rest]; [discriminate|]. exact Hlast.
Qed.

Lemma walk_overlap (a : Z) (chunks : list string) :
  chunkWalk cleaned size overlap a chunks ->
  forall (i : nat) (c1 c2 : string),
    chunks !! i = Some c1 -> chunks !! S i = Some c2 ->
    slice c1 (- overlap) (len c1) = slice c2 0 overlap
    /\ len (slice c2 0 overlap) = overlap.
Proof.
  induction 1 as [a Ha Hend | a rest Ha Hend Hrest IH]; intros i c1 c2 H1 H2.
  - destruct i; discriminate.
  - destruct i as [|i]; [|exact (IH i c1 c2 H1 H2)].
    simpl in H1, H2. injection H1 as <-.
    destruct (walk_head _ _ Hrest) as (rest' & -> & Hstart).
    simpl in H2. injection H2 as <-.
    set (a' := (a + size - overlap)%Z) in *.
    set (e := Z.min (a' + size) (len cleaned)).
    assert (He : (a' + overlap < e)%Z) by (unfold e, a'; lia).
    assert (He' : (e <= len cleaned)%Z) by (unfold e; lia).
    assert (Hl2 : len (slice cleaned a' e) = (e - a')%Z) by (apply len_slice_inside; lia).
    assert (Hl1 : len (slice cleaned a (a + size)) = size).
    { rewrite len_slice_inside by lia. lia. }
    split.
    + rewrite slice_tail by lia. rewrite Hl1.
      rewrite (slice_inside (slice cleaned a' e)) by lia.
      rewrite !slice_inside by lia. simpl str_drop.
      rewrite str_drop_take, str_drop_drop, str_take_take.
      f_equal; [lia|]. f_equal. unfold a'. lia.
    + rewrite len_slice_inside by lia. lia.
Qed.

End Chunker.

Lemma buildChunksLoop_ingest_same (fuel : nat) (cleaned : string) (size overlap : Z) :
  forall (start : Z) (chunks : list string),
    Ingest.buildChunksLoop fuel cleaned size overlap start chunks
    = Rag.buildChunksLoop fuel cleaned size overlap start chunks.
Proof.
  induction fuel as [|fuel IH]; intros start chunks; simpl; [reflexivity|].
  destruct (start <? JS.len cleaned)%Z; [|reflexivity].
  destruct (Z.min (start + size) (JS.len cleaned) >=? JS.len cleaned)%Z; [reflexivity|].
  apply IH.
Qed.

Lemma buildChunks_ingest_same (fuel : nat) (text : string) (size overlap : Z) :
  Ingest.buildChunks size overlap fuel text = Rag.buildChunks fuel text size overlap.
Proof.
  unfold Ingest.buildChunks, Rag.buildChunks.
  destruct (negb _); [reflexivity | apply buildChunksLoop_ingest_same].
Qed.

(** C7. Chunker windowing: for 0 < overlap < size the chunker (the
    library's and the ingestion script's alike) returns, given enough
    fuel for its loop, a list of chunks such that every chunk has at
    most [size] characters, the last chunk is a suffix of the cleaned
    (line-ending-normalized, trimmed) text, and the last [overlap]
    characters of each chunk are the first [overlap] characters of the
    next. *)
Theorem buildChunks_windowing (text : string) (size overlap : Z) :
  (0 < overlap)%Z -> (overlap < size)%Z ->
  let cleaned := JS.trim (JS.replaceAll text Rag.CRLF (JS.chr JS.LF)) in
  exists chunks,
    (forall fuel, String.length cleaned <= fuel ->
       Rag.buildChunks fuel text size overlap = Some chunks
       /\ Ingest.buildChunks size overlap fuel text = Some chunks)
    /\ (forall c, c ∈ chunks -> (JS.len c <= size)%Z)
    /\ (forall c, last chunks = Some c -> exists pre, cleaned = pre +:+ c)
    /\ (forall (i : nat) (c1 c2 : string),
          chunks !! i = Some c1 -> chunks !! S i = Some c2 ->
          JS.slice c1 (- overlap) (JS.len c1) = JS.slice c2 0 overlap
          /\ JS.len (JS.slice c2 0 overlap) = overlap).
Proof.
  intros Hpos Hlt cleaned. unfold Rag.buildChunks. fold cleaned.
  destruct (JS.truthy cleaned) eqn:Htruthy; simpl.
  - assert (Hlen : (0 <= 0 < JS.len cleaned)%Z).
    { destruct cleaned; [discriminate | unfold JS.len; simpl; lia]. }
    destruct (buildChunksLoop_walk cleaned size overlap Hpos Hlt
                (String.length cleaned) 0%Z [] Hlen) as (chunks & Hrun & Hwalk).
    { unfold JS.len. lia. }
    exists chunks. split; [|split; [|split]].
    + intros fuel Hfuel.
      assert (Hrag : Rag.buildChunksLoop fuel cleaned size overlap 0 [] = Some chunks).
      { destruct (buildChunksLoop_walk cleaned size overlap Hpos Hlt fuel 0%Z [] Hlen)
          as (chunks' & Hrun' & Hwalk'); [unfold JS.len; lia|].
        rewrite Hrun'. f_equal. simpl.
        clear - Hwalk Hwalk'. revert chunks' Hwalk'.
        induction Hwalk as [a Ha Hend | a rest Ha Hend Hrest IH]; intros chunks' Hwalk';
          inversion Hwalk'; subst; try lia; [reflexivity | f_equal; now apply IH]. }
      split; [exact Hrag|].
      rewrite buildChunks_ingest_same. unfold Rag.buildChunks. fold cleaned.
      rewrite Htruthy. exact Hrag.
    + eapply walk_bounded; eassumption.
    + intros c Hc.
      edestruct walk_last_suffix as (c' & Hc' & Hpre); [eassumption..|].
      rewrite Hc in Hc'. injection Hc' as <-. exact Hpre.
    + intros i c1 c2 H1 H2. eapply walk_overlap; eassumption.
  - exists []. split_and!; try (intros; discriminate).
    + intros fuel _. split; [reflexivity|].
      rewrite buildChunks_ingest_same. unfold Rag.buildChunks. fold cleaned.
      now rewrite Htruthy.
    + intros c Hc. now apply elem_of_nil in Hc.
Qed.

Lemma buildChunks_windowing_witness :
  exists chunks,
    Rag.buildChunks 16 "  abcdefghij " 4 1 = Some chunks
    /\ (forall c, c ∈ chunks -> (JS.len c <= 4)%Z).
Proof.
  destruct (buildChunks_windowing "  abcdefghij " 4 1) as (chunks & Hrun & Hlen & _);
    [lia | lia |].
  exists chunks. split; [apply Hrun; vm_compute; lia | exact Hlen].
Defined.

(** ** Retrieval deduplication *)

Section Dedupe.
Import JS Retrieval Route.

(** The loop keeps [seen] equal to the keys of [output] and appends to
    [output] the first chunk of each key not yet seen. *)
Lemma dedupeLoop_spec (chunks : list RetrievedChunk) :
  forall (seen : gset string) (output : list RetrievedChunk),
    (forall k, k ∈ seen <-> k ∈ chunkKey <$> output) ->
    NoDup (chunkKey <$> output) ->
    exists kept,
      dedupeLoop chunks seen output = output ++ kept
      /\ NoDup (chunkKey <$> (output ++ kept))
      /\ kept `sublist_of` chunks
      /\ (forall pre c post,
            chunks = pre ++ c :: post -> chunkKey c ∉ seen ->
            chunkKey c ∉ chunkKey <$> pre -> c ∈ kept)
      /\ (forall c, c ∈ chunks -> chunkKey c ∈ chunkKey <$> (output ++ kept)).
Proof.
  induction chunks as [|chunk rest IH]; intros seen output Hseen Hnodup; simpl.
  - exists []. rewrite app_nil_r. split_and!; auto.
    + intros pre c post Heq. now destruct pre.
    + intros c Hc. now apply elem_of_nil in Hc.
  - destruct (decide (chunkKey chunk ∈ seen)) as [Hin|Hnotin].
    + destruct (IH seen output Hseen Hnodup) as (kept & Hrun & Hnd & Hsub & Hfirst & Hall).
      exists kept. split_and!; auto.
      * now apply sublist_cons.
      * intros pre c post Heq Hc Hpre. destruct pre as [|p pre]; simpl in Heq.
        -- injection Heq as <- <-. contradiction.
        -- injection Heq as <- ->. apply (Hfirst pre c post eq_refl Hc).
           rewrite fmap_cons in Hpre. now apply not_elem_of_cons in Hpre.
      * intros c Hc. apply elem_of_cons in Hc as [->|Hc]; [|now apply Hall].
        rewrite fmap_app. apply elem_of_app. left. now apply Hseen.
    + destruct (IH ({[chunkKey chunk]} ∪ seen) (output ++ [chunk]))
        as (kept & Hrun & Hnd & Hsub & Hfirst & Hall).
      * intros k. rewrite fmap_app, elem_of_app, elem_of_union, elem_of_singleton.
        rewrite <- Hseen. simpl. rewrite list_elem_of_singleton. tauto.
      * rewrite fmap_app. apply NoDup_app. split_and!; auto.
        -- intros k Hk Hk'. simpl in Hk'. apply list_elem_of_singleton in Hk' as ->.
           apply Hnotin. now apply Hseen.
        -- apply NoDup_singleton.
      * exists (chunk :: kept). rewrite <- app_assoc in Hrun, Hnd, Hall. simpl in *.
        split_and!; auto.
        -- now apply sublist_skip.
        -- intros pre c post Heq Hc Hpre. destruct pre as [|p pre]; simpl in Heq.
           ++ injection Heq as <- <-. apply elem_of_cons. now left.
           ++ injection Heq as <- ->. apply elem_of_cons. right.
              rewrite fmap_cons in Hpre. apply not_elem_of_cons in Hpre as [Hne Hpre].
              apply (Hfirst pre c post eq_refl); [|exact Hpre].
              rewrite elem_of_union, elem_of_singleton. tauto.
        -- intros c Hc. apply elem_of_cons in Hc as [->|Hc]; [|now apply Hall].
           rewrite fmap_app. apply elem_of_app. right. simpl. apply elem_of_cons. now left.
Qed.

End Dedupe.

(** C8, as stated, fails: two chunks without [id] from one source whose
    [chunk_index] entries are two different texts are both kept, and
    the specified key (with [na] for an entry that is not a number) is
    the same for both. *)
Lemma dedupeChunks_specifiedKey_collision :
  ~ NoDup (specifiedKey <$> Route.dedupeChunks [textIndexedChunk "x"; textIndexedChunk "y"]).
Proof.
  vm_compute. intros H. apply NoDup_cons in H as [H _]. apply H. constructor.
Qed.

(** C8, amended. Retrieval dedupe invariant: no two entries of the list
    returned by [dedupeChunks] share the same identity key, where the
    key is the chunk's [id] when present and otherwise
    [source:chunk_index], the index written out when it is a number,
    taken as it is when it is a text, and [na] otherwise; the output is
    a sub-list of the input in the input's order, it keeps the first
    chunk of every key, and every key of the input is among its keys. *)
Theorem dedupeChunks_unique_keys (chunks : list Retrieval.RetrievedChunk) :
  NoDup (Route.chunkKey <$> Route.dedupeChunks chunks)
  /\ Route.dedupeChunks chunks `sublist_of` chunks
  /\ (forall pre c post,
        chunks = pre ++ c :: post ->
        Route.chunkKey c ∉ Route.chunkKey <$> pre -> c ∈ Route.dedupeChunks chunks)
  /\ (forall c, c ∈ chunks -> Route.chunkKey c ∈ Route.chunkKey <$> Route.dedupeChunks chunks).
Proof.
  unfold Route.dedupeChunks.
  destruct (dedupeLoop_spec chunks ∅ []) as (kept & Hrun & Hnd & Hsub & Hfirst & Hall).
  - intros k. simpl. set_solver.
  - constructor.
  - rewrite Hrun. simpl in *. split_and!; auto.
    intros pre c post Heq Hpre. apply (Hfirst pre c post Heq); [set_solver | exact Hpre].
Qed.

(** ** Source fragments *)

Section SourceFragments.
Import JS Retrieval Route.

Lemma sameValueZero_eq (a b : number) : sameValueZero a b = true <-> a = b.
Proof.
  destruct a as [x|x], b as [y|y]; simpl; split; intros H; try discriminate.
  - apply Z.eqb_eq in H. now subst.
  - injection H as ->. apply Z.eqb_refl.
  - apply String.eqb_eq in H. now subst.
  - injection H as ->. apply String.eqb_refl.
Qed.

Lemma number_eq_dec (a b : number) : {a = b} + {a <> b}.
Proof.
  destruct (sameValueZero a b) eqn:E.
  - left. now apply sameValueZero_eq.
  - right. intros H. apply sameValueZero_eq in H. congruence.
Qed.

Lemma existsb_sameValueZero (x : number) (seen : list number) :
  existsb (sameValueZero x) seen = true <-> x ∈ seen.
Proof.
  rewrite existsb_exists. split.
  - intros (y & Hy & Heq). apply sameValueZero_eq in Heq as ->. now apply list_elem_of_In.
  - intros Hx. exists x. split; [now apply list_elem_of_In | now apply sameValueZero_eq].
Qed.

Lemma uniqueLoop_spec (xs : list number) :
  forall seen,
    NoDup (uniqueLoop xs seen)
    /\ (forall x, x ∈ uniqueLoop xs seen <-> x ∈ xs /\ x ∉ seen).
Proof.
  induction xs as [|x xs IH]; intros seen; simpl.
  - split; [constructor|]. intros x. rewrite elem_of_nil. tauto.
  - destruct (existsb (sameValueZero x) seen) eqn:Hseen.
    + apply existsb_sameValueZero in Hseen.
      destruct (IH seen) as [Hnd Hin]. split; [exact Hnd|].
      intros y. rewrite Hin, elem_of_cons. split; [tauto|].
      intros [[->|Hy] Hnot]; [contradiction | tauto].
    + assert (Hnot : x ∉ seen).
      { intros Hx. apply existsb_sameValueZero in Hx. congruence. }
      destruct (IH (x :: seen)) as [Hnd Hin]. split.
      * constructor; [|exact Hnd]. rewrite Hin, elem_of_cons. tauto.
      * intros y. rewrite !elem_of_cons, Hin, elem_of_cons.
        destruct (number_eq_dec y x) as [->|Hne]; tauto.
Qed.

Lemma insertSorted_Int (x : Z) (sorted : list Z) :
  StronglySorted Z.le sorted ->
  exists r, insertSorted minus (Int x) (Int <$> sorted) = Int <$> r
            /\ StronglySorted Z.le r /\ r ≡ₚ x :: sorted.
Proof.
  induction 1 as [|y rest Hrest IH Hall].
  - exists [x]. split_and!; [reflexivity | repeat constructor | reflexivity].
  - rewrite fmap_cons. cbn [insertSorted gtZ minus].
    destruct (Z.ltb_spec 0 (y - x)) as [Hlt|Hge].
    + exists (x :: y :: rest). split_and!; [reflexivity | | reflexivity].
      constructor; [now constructor|].
      constructor; [lia|]. eapply Forall_impl; [exact Hall|]. intros z Hz; simpl in Hz; lia.
    + destruct IH as (r & Hr & Hsorted & Hperm).
      exists (y :: r). rewrite Hr. split_and!; [reflexivity | |].
      * constructor; [exact Hsorted|].
        rewrite Hperm. constructor; [lia | exact Hall].
      * rewrite Hperm. apply perm_swap.
Qed.

Lemma sort_Int (zs : list Z) :
  forall acc, StronglySorted Z.le acc ->
    exists r, fold_left (fun sorted x => insertSorted minus x sorted) (Int <$> zs) (Int <$> acc)
              = Int <$> r
              /\ StronglySorted Z.le r /\ r ≡ₚ acc ++ zs.
Proof.
  induction zs as [|z zs IH]; intros acc Hacc.
  - exists acc. rewrite app_nil_r. auto.
  - rewrite fmap_cons. cbn [fold_left].
    destruct (insertSorted_Int z acc Hacc) as (r & Hr & Hsorted & Hperm).
    rewrite Hr. destruct (IH r Hsorted) as (r' & Hr' & Hsorted' & Hperm').
    exists r'. split_and!; [exact Hr' | exact Hsorted' |].
    rewrite Hperm', Hperm. apply Permutation_middle.
Qed.

Lemma sorted_nodup_strict (zs : list Z) :
  StronglySorted Z.le zs -> NoDup zs -> StronglySorted Z.lt zs.
Proof.
  induction 1 as [|z zs Hzs IH Hall]; intros Hnd; [constructor|].
  apply NoDup_cons in Hnd as [Hz Hnd].
  constructor; [now apply IH|].
  apply Forall_forall. intros y Hy.
  pose proof (proj1 (Forall_forall _ _) Hall y Hy) as Hle. simpl in Hle.
  assert (y <> z) by (intros ->; contradiction). lia.
Qed.

(** What passes the filter is a list of integers in [1 .. length chunks]. *)
Lemma filtered_Int (bound : Z) (xs : list number) :
  exists zs,
    filter (fun n => Number_isInteger n && gtZ n 0 && leZ n bound = true) xs = Int <$> zs
    /\ (forall z, z ∈ zs <-> Int z ∈ xs /\ (1 <= z <= bound)%Z)
    /\ (NoDup xs -> NoDup zs).
Proof.
  induction xs as [|x xs (zs & Hzs & Hin & Hnd)].
  - exists []. split_and!; [reflexivity | | constructor].
    intros z. rewrite !elem_of_nil. tauto.
  - rewrite filter_cons. destruct x as [z|repr]; simpl.
    + destruct (Z.ltb_spec 0 z) as [Hpos|Hneg]; simpl.
      * destruct (Z.leb_spec z bound) as [Hle|Hgt]; simpl.
        -- exists (z :: zs). rewrite Hzs. split_and!; [reflexivity | |].
           ++ intros y. rewrite !elem_of_cons, Hin. split.
              ** intros [->|[Hy Hb]]; [split; [now left | lia] | tauto].
              ** intros [[Heq|Hy] Hb]; [injection Heq as ->; now left | tauto].
           ++ intros Hxs. apply NoDup_cons in Hxs as [Hx Hxs].
              constructor; [|now apply Hnd]. rewrite Hin. tauto.
        -- exists zs. split_and!; [exact Hzs | |].
           ++ intros y. rewrite elem_of_cons, Hin. split; [tauto|].
              intros [[Heq|Hy] Hb]; [injection Heq as ->; lia | tauto].
           ++ intros Hxs. apply NoDup_cons in Hxs as [Hx Hxs]. now apply Hnd.
      * exists zs. split_and!; [exact Hzs | |].
        -- intros y. rewrite elem_of_cons, Hin. split; [tauto|].
           intros [[Heq|Hy] Hb]; [injection Heq as ->; lia | tauto].
        -- intros Hxs. apply NoDup_cons in Hxs as [Hx Hxs]. now apply Hnd.
    + exists zs. split_and!; [exact Hzs | |].
      * intros y. rewrite elem_of_cons, Hin. split; [tauto|].
        intros [[Heq|Hy] Hb]; [discriminate | tauto].
      * intros Hxs. apply NoDup_cons in Hxs as [Hx Hxs]. now apply Hnd.
Qed.

Lemma sourceFragment_in_bounds (chunks : list RetrievedChunk) (z : Z) :
  (1 <= z <= Z.of_nat (length chunks))%Z ->
  exists chunk f,
    chunks !! Z.to_nat (z - 1) = Some chunk /\ sourceFragment chunks (Int z) = Ok f.
Proof.
  intros Hz. unfold sourceFragment, chunkAt. simpl.
  destruct (Z.ltb_spec (z - 1) 0); [lia|].
  destruct (lookup_lt_is_Some_2 chunks (Z.to_nat (z - 1))) as [chunk Hchunk]; [lia|].
  rewrite Hchunk. eauto.
Qed.

Lemma mapResult_in_bounds (chunks : list RetrievedChunk) (zs : list Z) :
  (forall z, z ∈ zs -> (1 <= z <= Z.of_nat (length chunks))%Z) ->
  exists fragments,
    mapResult (sourceFragment chunks) (Int <$> zs) = Ok fragments
    /\ Forall2 (fun z f =>
                  exists chunk, chunks !! Z.to_nat (z - 1) = Some chunk
                                /\ sourceFragment chunks (Int z) = Ok f) zs fragments.
Proof.
  induction zs as [|z zs IH]; intros Hzs.
  - exists []. split; [reflexivity | constructor].
  - destruct (sourceFragment_in_bounds chunks z) as (chunk & f & Hchunk & Hf).
    { apply Hzs. now left. }
    destruct IH as (fragments & Hrun & Hall).
    { intros y Hy. apply Hzs. now right. }
    exists (f :: fragments). rewrite fmap_cons. cbn [mapResult].
    rewrite Hf. cbn [JS.bind]. rewrite Hrun. cbn [JS.bind].
    split; [reflexivity|]. constructor; [|exact Hall]. eauto.
Qed.

End SourceFragments.

(** C10. Source-fragment construction is in bounds and canonical: for
    every list of retrieved chunks and every array of used source
    numbers, the numbers the fragments are built from are exactly the
    integers of the array that lie in [1 .. length chunks], without
    duplicates and in ascending order, and the construction returns
    (does not throw): every [chunks[sourceNumber - 1]] is a chunk. *)
Theorem getSourceFragmentsByNumber_in_bounds
    (chunks : list Retrieval.RetrievedChunk) (usedSourceNumbers : list JS.number) :
  exists (numbers : list Z) (fragments : list Route.SourceFragment),
    Route.normalizedNumbers chunks usedSourceNumbers = JS.Int <$> numbers
    /\ StronglySorted Z.lt numbers
    /\ (forall z, z ∈ numbers <->
                  JS.Int z ∈ usedSourceNumbers /\ (1 <= z <= Z.of_nat (length chunks))%Z)
    /\ Route.getSourceFragmentsByNumber chunks usedSourceNumbers = JS.Ok fragments
    /\ Forall2 (fun z f =>
                  exists chunk, chunks !! Z.to_nat (z - 1) = Some chunk
                                /\ Route.sourceFragment chunks (JS.Int z) = JS.Ok f)
         numbers fragments.
Proof.
  unfold Route.getSourceFragmentsByNumber, Route.normalizedNumbers, JS.unique.
  destruct (uniqueLoop_spec usedSourceNumbers []) as [Hnd Hin].
  destruct (filtered_Int (Z.of_nat (length chunks)) (JS.uniqueLoop usedSourceNumbers []))
    as (zs & Hzs & Hzin & Hznd).
  rewrite Hzs. unfold JS.sort.
  destruct (sort_Int zs [] ltac:(constructor)) as (numbers & Hsort & Hsorted & Hperm).
  simpl in Hsort, Hperm. rewrite Hsort.
  assert (Hmem : forall z, z ∈ numbers <->
                   JS.Int z ∈ usedSourceNumbers /\ (1 <= z <= Z.of_nat (length chunks))%Z).
  { intros z. rewrite Hperm, Hzin, Hin. rewrite elem_of_nil. tauto. }
  destruct (mapResult_in_bounds chunks numbers) as (fragments & Hrun & Hall).
  { intros z Hz. now apply Hmem in Hz. }
  exists numbers, fragments. split_and!; auto.
  apply sorted_nodup_strict; [exact Hsorted|]. rewrite Hperm. now apply Hznd.
Qed.

(** ** The planner's output *)

(** C6, as stated, fails: a planner output that is a JSON object with
    the one member [needsCode: false] has every other field missing,
    and the plan keeps [needsCode = false] beside the defaults of the
    others; it is not the conservative plan. *)
Lemma parsePlannerOutput_keeps_parsed_field :
  Route.parsePlannerOutput (JS.jsText "{'needsCode': false}") "How do I score?"
  = {| Route.needsCode := false;
       Route.isHard := true;
       Route.needsConversationContext := true;
       Route.ragQueries := ["How do I score?"];
       Route.shouldShortCircuit := false;
       Route.directResponse := "" |}
  /\ Route.parsePlannerOutput (JS.jsText "{'needsCode': false}") "How do I score?"
     <> Route.conservativePlan "How do I score?".
Proof. split; [vm_compute; reflexivity | vm_compute; discriminate]. Qed.

(** C6, amended. Planner fallback: when no JSON object can be
    extracted, when parsing it throws, or when the parsed value is not
    an object, [parsePlannerOutput] returns the full conservative plan;
    when the parsed value is an object, each field takes its parsed
    value when it has the right type and its own conservative default
    otherwise ([ragQueries]: the non-blank strings of the array, or the
    question alone when there is none; [directResponse]: trimmed). *)
Theorem parsePlannerOutput_fallback (raw question : string) :
  let plan := Route.parsePlannerOutput raw question in
  (Gemini.extractJsonObject raw = None -> plan = Route.conservativePlan question)
  /\ (forall jsonText e,
        Gemini.extractJsonObject raw = Some jsonText -> JS.JSON_parse jsonText = JS.Throw e ->
        plan = Route.conservativePlan question)
  /\ (forall jsonText parsed,
        Gemini.extractJsonObject raw = Some jsonText -> JS.JSON_parse jsonText = JS.Ok parsed ->
        (forall members, parsed <> JS.JObj members) ->
        plan = Route.conservativePlan question)
  /\ (forall jsonText members,
        Gemini.extractJsonObject raw = Some jsonText ->
        JS.JSON_parse jsonText = JS.Ok (JS.JObj members) ->
        Route.needsCode plan
        = match JS.lookupMember "needsCode" members with Some (JS.JBool b) => b | _ => true end
        /\ Route.isHard plan
           = match JS.lookupMember "isHard" members with Some (JS.JBool b) => b | _ => true end
        /\ Route.needsConversationContext plan
           = match JS.lookupMember "needsConversationContext" members with
             | Some (JS.JBool b) => b
             | _ => true
             end
        /\ Route.shouldShortCircuit plan
           = match JS.lookupMember "shouldShortCircuit" members with
             | Some (JS.JBool b) => b
             | _ => false
             end
        /\ Route.directResponse plan
           = match JS.lookupMember "directResponse" members with
             | Some (JS.JStr d) => JS.trim d
             | _ => ""
             end
        /\ Route.ragQueries plan
           = match JS.lookupMember "ragQueries" members with
             | Some (JS.JArr items) =>
                 match Route.nonBlankStrings items with
                 | [] => [question]
                 | queries => queries
                 end
             | _ => [question]
             end).
Proof.
  unfold Route.parsePlannerOutput. split_and!.
  - intros ->. reflexivity.
  - intros jsonText e -> Hparse. unfold Route.parsePlannerJson. rewrite Hparse. reflexivity.
  - intros jsonText parsed -> Hparse Hshape. unfold Route.parsePlannerJson. rewrite Hparse.
    destruct parsed; try reflexivity. now destruct (Hshape members).
  - intros jsonText members -> Hparse. unfold Route.parsePlannerJson. rewrite Hparse.
    cbn [JS.bind JS.getProp Route.needsCode Route.isHard Route.needsConversationContext
         Route.shouldShortCircuit Route.directResponse Route.ragQueries Route.booleanOr].
    split_and!; try reflexivity.
    destruct (JS.lookupMember "ragQueries" members) as [[| | | |items|]|]; try reflexivity.
    now destruct (Route.nonBlankStrings items).
Qed.

(** ** Retrieval under failure *)

Section RetrievalFailure.
Import JS Retrieval Route.

Lemma Promise_all_fulfilled {A : Type} (outcomes : list (result A)) (values : list A) :
  outcomes = map Ok values -> Promise_all outcomes = Ok values.
Proof.
  intros ->. induction values as [|v values IH]; simpl; [reflexivity | now rewrite IH].
Qed.

Lemma Promise_all_rejected {A : Type} (outcomes : list (result A)) :
  (exists e, Throw e ∈ outcomes) -> exists e, Promise_all outcomes = Throw e.
Proof.
  intros (e & He). induction outcomes as [|[a|e'] rest IH]; simpl.
  - now apply elem_of_nil in He.
  - apply elem_of_cons in He as [Heq|He]; [discriminate|].
    destruct (IH He) as (e'' & ->). eauto.
  - eauto.
Qed.

End RetrievalFailure.

(** C4, as stated, fails: of two searches, one failing and one finding
    a chunk, the found chunk is not kept; the context is empty. *)
Lemma retrieveContext_discards_partial_results :
  Retrieval.searchRelevantChunks flakyEnv "good" 6 = JS.Ok [storedChunk]
  /\ Retrieval.searchRelevantChunks flakyEnv "bad" 6 = JS.Throw "429 Too Many Requests"
  /\ specifiedContext flakyEnv ["good"; "bad"] 6 = [storedChunk]
  /\ Route.retrieveContext flakyEnv ["good"; "bad"] 6 = []
  /\ Route.retrieveContext flakyEnv ["good"; "bad"] 6
     <> specifiedContext flakyEnv ["good"; "bad"] 6.
Proof. split_and!; vm_compute; (reflexivity || discriminate). Qed.

(** C4, amended. Retrieval degradation: when any of the per-query
    retrieval calls fails, the results of all of them are dropped and
    the pipeline continues with an empty context; when all succeed, the
    context is their concatenation, deduplicated. Either way the
    retrieval step returns: the request does not fail due to
    retrieval. *)
Theorem retrieveContext_all_or_nothing
    (env : Retrieval.Env) (retrievalQueries : list string) (ragMatchCount : Z) :
  ((exists ragPrompt e,
       ragPrompt ∈ retrievalQueries
       /\ Retrieval.searchRelevantChunks env ragPrompt ragMatchCount = JS.Throw e) ->
   Route.retrieveContext env retrievalQueries ragMatchCount = [])
  /\ (forall ragResults,
        map (fun ragPrompt => Retrieval.searchRelevantChunks env ragPrompt ragMatchCount)
            retrievalQueries
        = map JS.Ok ragResults ->
        Route.retrieveContext env retrievalQueries ragMatchCount
        = Route.dedupeChunks (concat ragResults)).
Proof.
  unfold Route.retrieveContext. split.
  - intros (ragPrompt & e & Hin & Hfail).
    destruct (Promise_all_rejected
                (map (fun ragPrompt => Retrieval.searchRelevantChunks env ragPrompt ragMatchCount)
                     retrievalQueries)) as (e' & ->); [|reflexivity].
    exists e. rewrite <- Hfail. apply list_elem_of_In.
    apply (in_map (fun q => Retrieval.searchRelevantChunks env q ragMatchCount)).
    now apply list_elem_of_In.
  - intros ragResults Hall. now rewrite (Promise_all_fulfilled _ _ Hall).
Qed.

(** ** Generation: the retry on truncation *)

(** The retry after a truncated first answer, for every configured
    budget: one retry is issued, its budget is the larger of the
    configured one and 4096, and its outcome is the outcome of the
    generation step. *)
Lemma generateFinalAnswer_truncated
    (firstText finalModel systemInstruction userPrompt : string) (budget : Z)
    (later : list Gemini.GeminiRequest -> JS.result Gemini.GeminiTextResult) :
  let request1 := firstRequest finalModel systemInstruction userPrompt budget in
  let request2 := retryRequest finalModel systemInstruction userPrompt budget in
  Route.generateFinalAnswer (truncatingBackend firstText later)
    finalModel systemInstruction userPrompt budget []
  = (later [request1; request2], [request1; request2])
  /\ Gemini.maxOutputTokens request2 = Z.max budget 4096
  /\ ((Gemini.maxOutputTokens request1 < Gemini.maxOutputTokens request2)%Z <-> (budget < 4096)%Z).
Proof.
  split_and!; [reflexivity | reflexivity | simpl; lia].
Qed.

(** C5 at a configured budget of 8192 tokens: the first answer is cut
    off, exactly one retry is issued and its text is what is parsed,
    but the retry asks for 8192 tokens again, not for more. *)
Theorem truncation_retry_budget_8192 :
  let request1 := firstRequest "gemini-2.5-pro" "system" "question" 8192 in
  let request2 := retryRequest "gemini-2.5-pro" "system" "question" 8192 in
  let second := {| Gemini.text := JS.jsText "{'answer': 'done', 'usedSourceNumbers': []}";
                   Gemini.finishReason := Some "STOP" |} in
  let backend := truncatingBackend (JS.jsText "{'answer': 'cut o") (fun _ => JS.Ok second) in
  Route.generateFinalAnswer backend "gemini-2.5-pro" "system" "question" 8192 []
  = (JS.Ok second, [request1; request2])
  /\ Gemini.maxOutputTokens request1 = 8192%Z
  /\ Gemini.maxOutputTokens request2 = 8192%Z
  /\ (exists a log,
        Route.answerQuestion backend [] "gemini-2.5-pro" "system" "question" 8192 []
        = (JS.Ok a, log)
        /\ log = [request1; request2]
        /\ Route.finalAnswer a = Gemini.text second
        /\ Route.visibleAnswer a = "done").
Proof.
  split_and!; try reflexivity.
  eexists _, _. split_and!; vm_compute; reflexivity.
Qed.

(** ** The visible answer *)

Section VisibleAnswer.
Import JS Gemini Route.

Lemma orElse_truthy (a b : string) : b <> "" -> orElse a b <> "".
Proof. unfold orElse. destruct a; simpl; [auto | discriminate]. Qed.

Lemma orElse_left (a b : string) : a <> "" -> orElse a b = a.
Proof. unfold orElse. destruct a; simpl; [congruence | reflexivity]. Qed.

Lemma orElse_right (b : string) : orElse "" b = b.
Proof. reflexivity. Qed.

Lemma APOLOGY_nonempty : APOLOGY <> "".
Proof. discriminate. Qed.

(** A replacement by a non-empty text leaves no non-empty text empty. *)
Lemma substitute_nonempty (ms : list match_result) (replacement s : string) (i : nat) :
  replacement <> "" -> s <> "" -> substitute ms replacement s i <> "".
Proof.
  intros Hr Hs. destruct ms as [|m ms]; simpl; [exact Hs|].
  destruct (str_take (m_index m - i) s); [|discriminate].
  rewrite append_nil_l. destruct replacement; [congruence | discriminate].
Qed.

Lemma replaceAll_nonempty (s : string) (r : regex) (replacement : string) :
  replacement <> "" -> s <> "" -> replaceAll s r replacement <> "".
Proof. intros Hr Hs. now apply substitute_nonempty. Qed.

Lemma normalizeAssistantMarkdown_nonempty (text : string) :
  text <> "" -> normalizeAssistantMarkdown text <> "".
Proof.
  intros Htext. unfold normalizeAssistantMarkdown.
  assert (Hn : replaceAll text Rag.CRLF (chr LF) <> "")
    by (apply replaceAll_nonempty; [discriminate | exact Htext]).
  destruct (_ && _); [|exact Hn].
  apply replaceAll_nonempty; [discriminate|].
  apply replaceAll_nonempty; [discriminate | exact Hn].
Qed.

(** The parse-or-repair step returns, with the first parse or with the
    parse of the repaired text. *)
Lemma parseOrRepair_returns (backend : Backend) (finalModel finalAnswer : string)
    (log : list GeminiRequest) :
  let request := repairRequest finalModel finalAnswer in
  exists parsedFinal log',
    parseOrRepair backend finalModel finalAnswer log = (Ok parsedFinal, log')
    /\ (ok (parseFinalModelOutput finalAnswer) = true ->
        parsedFinal = parseFinalModelOutput finalAnswer /\ log' = log)
    /\ (ok (parseFinalModelOutput finalAnswer) = false ->
        log' = log ++ [request]
        /\ (forall e, backend (log ++ [request]) = Throw e ->
                      parsedFinal = parseFinalModelOutput finalAnswer)
        /\ (forall repaired, backend (log ++ [request]) = Ok repaired ->
                             parsedFinal = parseFinalModelOutput (text repaired))).
Proof.
  intros request. unfold parseOrRepair.
  destruct (ok (parseFinalModelOutput finalAnswer)) eqn:Hok; simpl.
  - eexists _, _. split_and!; [reflexivity | auto | discriminate].
  - unfold tryCatch, Gemini.bind, generateGeminiText, generateGeminiTextWithMeta, Gemini.bind, ret.
    fold (repairRequest finalModel finalAnswer). fold request.
    destruct (backend (log ++ [request])) as [repaired|e] eqn:Hcall.
    + eexists _, _. split_and!; [reflexivity | discriminate |].
      intros _. split_and!; [reflexivity | discriminate | now intros ? [= <-]].
    + eexists _, _. split_and!; [reflexivity | discriminate |].
      intros _. split_and!; [reflexivity | reflexivity | discriminate].
Qed.

(** What [extractAnswerFallbackText] returns: the field the pattern
    finds when it is not empty, and the stripped text otherwise. *)
Lemma extractAnswerFallbackText_field_found (raw : string) (m : match_result) (field : string) :
  match_ raw answerField = Some m -> capture 1 (m_groups m) = Some field -> field <> "" ->
  extractAnswerFallbackText raw = unescapedField field.
Proof.
  intros Hm Hfield Hne. unfold extractAnswerFallbackText. rewrite Hm, Hfield.
  destruct field; [congruence | reflexivity].
Qed.

Lemma extractAnswerFallbackText_no_field (raw : string) :
  (forall m field,
     match_ raw answerField = Some m -> capture 1 (m_groups m) = Some field -> field = "") ->
  extractAnswerFallbackText raw = strippedText raw.
Proof.
  intros Hnone. unfold extractAnswerFallbackText.
  destruct (match_ raw answerField) as [m|]; [|reflexivity].
  destruct (capture 1 (m_groups m)) as [field|] eqn:Hfield; [|reflexivity].
  now rewrite (Hnone m field eq_refl Hfield).
Qed.

(** What a parse of the final output gives: the trimmed [answer] member
    of the object, and nothing without such a member. *)
Lemma parseFinalModelOutput_answer (raw jsonText : string) (members : list (string * json))
    (a : string) :
  extractJsonObject raw = Some jsonText ->
  JSON_parse jsonText = Ok (JObj members) ->
  lookupMember "answer" members = Some (JStr a) ->
  answer (parseFinalModelOutput raw) = trim a
  /\ (ok (parseFinalModelOutput raw) = true <-> trim a <> "").
Proof.
  intros Hextract Hparse Hanswer. unfold parseFinalModelOutput. rewrite Hextract.
  unfold parseFinalJson. rewrite Hparse. cbn [JS.bind getProp]. rewrite Hanswer.
  cbn [answer ok]. split; [reflexivity|].
  destruct (trim a); cbn [String.length]; split; intros H; try discriminate; try reflexivity; congruence.
Qed.

Lemma parseFinalModelOutput_answered (raw : string) :
  answer (parseFinalModelOutput raw) <> "" ->
  exists jsonText members a,
    extractJsonObject raw = Some jsonText
    /\ JSON_parse jsonText = Ok (JObj members)
    /\ lookupMember "answer" members = Some (JStr a)
    /\ trim a <> "".
Proof.
  unfold parseFinalModelOutput.
  destruct (extractJsonObject raw) as [jsonText|]; [|simpl; congruence].
  unfold parseFinalJson.
  destruct (JSON_parse jsonText) as [[|b|n|s|items|members]|e] eqn:Hparse;
    cbn [JS.bind getProp answer unparsed]; try congruence.
  destruct (lookupMember "answer" members) as [[| | |a| |]|] eqn:Hanswer;
    cbn [answer]; try congruence.
  intros Ha. now exists jsonText, members, a.
Qed.

(** End to end: whenever the last stage of the handler returns, the
    visible answer it has streamed is not empty. *)
Lemma answerQuestion_visibleAnswer (backend : Backend)
    (contextChunks : list Retrieval.RetrievedChunk)
    (finalModel systemInstruction userPrompt : string) (budget : Z)
    (log log' : list GeminiRequest) (a : Answered) :
  answerQuestion backend contextChunks finalModel systemInstruction userPrompt budget log
  = (Ok a, log') ->
  visibleAnswer a = visibleAnswerOf (parsedFinal a) (finalAnswer a)
  /\ visibleAnswer a <> "".
Proof.
  unfold answerQuestion, Gemini.bind.
  destruct (generateFinalAnswer _ _ _ _ _ _) as [[generated|e] log1]; [|discriminate].
  destruct (parseOrRepair _ _ _ _) as [[parsed|e] log2]; [|discriminate].
  destruct (getSourceFragmentsByNumber _ _) as [sourceFragments|e]; [|discriminate].
  intros [= <- <-]. simpl. split; [reflexivity|].
  apply orElse_truthy, orElse_truthy, APOLOGY_nonempty.
Qed.

End VisibleAnswer.

(** C9, as stated, fails: the final output has a blank answer field,
    and the repair call fails. No answer is parsed; the pattern finds
    the field, which is empty once trimmed; the text stripped of JSON
    punctuation is not empty; and the visible answer is the apology,
    not the stripped text. *)
Lemma visibleAnswer_skips_stripped_text :
  Route.parseOrRepair unavailableBackend "gemini-2.5-pro" blankAnswerOutput []
  = (JS.Ok Route.unparsed, [repairRequest "gemini-2.5-pro" blankAnswerOutput])
  /\ answerFieldText blankAnswerOutput = ""
  /\ strippedText blankAnswerOutput = ", k: v"
  /\ specifiedVisibleAnswer Route.unparsed blankAnswerOutput = ", k: v"
  /\ Route.visibleAnswerOf Route.unparsed blankAnswerOutput = Route.APOLOGY
  /\ Route.visibleAnswerOf Route.unparsed blankAnswerOutput
     <> specifiedVisibleAnswer Route.unparsed blankAnswerOutput.
Proof. split_and!; try (vm_compute; reflexivity). vm_compute. discriminate. Qed.

(** C9, amended. Answer fallback chain: for every raw final-model text
    the parse-or-repair step returns (a failure of the repair call is
    dropped with its message, the first parse standing). A parse has an
    answer exactly when a JSON object can be extracted and parsed whose
    [answer] member is a string that is not blank, and the answer is
    that string trimmed. The visible answer is a non-empty string, also
    after its markdown normalization: the parsed answer when there is
    one; else, when the pattern finds an answer field that is not
    empty, that field unescaped and trimmed, or the fixed apology when
    nothing is left of it; else (no field found, or an empty one) the
    text stripped of JSON punctuation, or the fixed apology when
    nothing is left of it. *)
Theorem visibleAnswer_fallback_chain
    (backend : Gemini.Backend) (finalModel finalAnswer : string)
    (log : list Gemini.GeminiRequest) :
  let request := repairRequest finalModel finalAnswer in
  let first := Route.parseFinalModelOutput finalAnswer in
  exists parsedFinal log',
    Route.parseOrRepair backend finalModel finalAnswer log = (JS.Ok parsedFinal, log')
    /\ (Route.ok first = true -> parsedFinal = first)
    /\ (Route.ok first = false ->
        (forall e, backend (log ++ [request]) = JS.Throw e -> parsedFinal = first)
        /\ (forall repaired, backend (log ++ [request]) = JS.Ok repaired ->
                             parsedFinal = Route.parseFinalModelOutput (Gemini.text repaired)))
    /\ (forall raw jsonText members a,
          Gemini.extractJsonObject raw = Some jsonText ->
          JS.JSON_parse jsonText = JS.Ok (JS.JObj members) ->
          JS.lookupMember "answer" members = Some (JS.JStr a) ->
          Route.answer (Route.parseFinalModelOutput raw) = JS.trim a
          /\ (Route.ok (Route.parseFinalModelOutput raw) = true <-> JS.trim a <> ""))
    /\ (forall raw,
          Route.answer (Route.parseFinalModelOutput raw) <> "" ->
          exists jsonText members a,
            Gemini.extractJsonObject raw = Some jsonText
            /\ JS.JSON_parse jsonText = JS.Ok (JS.JObj members)
            /\ JS.lookupMember "answer" members = Some (JS.JStr a)
            /\ JS.trim a <> "")
    /\ Route.visibleAnswerOf parsedFinal finalAnswer <> ""
    /\ Route.normalizeAssistantMarkdown (Route.visibleAnswerOf parsedFinal finalAnswer) <> ""
    /\ (Route.answer parsedFinal <> "" ->
        Route.visibleAnswerOf parsedFinal finalAnswer = Route.answer parsedFinal)
    /\ (Route.answer parsedFinal = "" ->
        forall m field,
          JS.match_ finalAnswer Route.answerField = Some m ->
          JS.capture 1 (JS.m_groups m) = Some field -> field <> "" ->
          (unescapedField field <> "" ->
           Route.visibleAnswerOf parsedFinal finalAnswer = unescapedField field)
          /\ (unescapedField field = "" ->
              Route.visibleAnswerOf parsedFinal finalAnswer = Route.APOLOGY))
    /\ (Route.answer parsedFinal = "" ->
        (forall m field,
           JS.match_ finalAnswer Route.answerField = Some m ->
           JS.capture 1 (JS.m_groups m) = Some field -> field = "") ->
        (strippedText finalAnswer <> "" ->
         Route.visibleAnswerOf parsedFinal finalAnswer = strippedText finalAnswer)
        /\ (strippedText finalAnswer = "" ->
            Route.visibleAnswerOf parsedFinal finalAnswer = Route.APOLOGY))
    /\ (Route.answer parsedFinal = "" -> Route.extractAnswerFallbackText finalAnswer <> "" ->
        Route.visibleAnswerOf parsedFinal finalAnswer
        = Route.extractAnswerFallbackText finalAnswer)
    /\ (Route.answer parsedFinal = "" -> Route.extractAnswerFallbackText finalAnswer = "" ->
        Route.visibleAnswerOf parsedFinal finalAnswer = Route.APOLOGY)
    /\ (forall m field,
          JS.match_ finalAnswer Route.answerField = Some m ->
          JS.capture 1 (JS.m_groups m) = Some field -> field <> "" ->
          Route.extractAnswerFallbackText finalAnswer
          = JS.trim (JS.replaceAll (JS.replaceAll field Route.escapedQuote (JS.chr JS.DQUOTE))
                       Route.escapedNewline (JS.chr JS.LF)))
    /\ ((JS.match_ finalAnswer Route.answerField = None
         \/ exists m, JS.match_ finalAnswer Route.answerField = Some m
                      /\ JS.capture 1 (JS.m_groups m) = Some "") ->
        Route.extractAnswerFallbackText finalAnswer
        = JS.trim (JS.replaceAll
                     (JS.replace (JS.replace finalAnswer Route.upToAnswer "")
                        Route.fromUsedSourceNumbers "")
                     Route.jsonPunctuation "")).
Proof.
  intros request first.
  destruct (parseOrRepair_returns backend finalModel finalAnswer log)
    as (parsedFinal & log' & Hrun & Hok & Hrepair).
  exists parsedFinal, log'. unfold Route.visibleAnswerOf. split_and!.
  - exact Hrun.
  - intros H. now apply Hok.
  - intros H. destruct (Hrepair H) as (_ & Hthrow & Hrepaired). split; assumption.
  - intros raw jsonText members a Hextract Hparse Hanswer.
    now apply (parseFinalModelOutput_answer raw jsonText members a).
  - intros raw. apply parseFinalModelOutput_answered.
  - apply orElse_truthy, orElse_truthy, APOLOGY_nonempty.
  - apply normalizeAssistantMarkdown_nonempty.
    apply orElse_truthy, orElse_truthy, APOLOGY_nonempty.
  - intros H. now apply orElse_left.
  - intros -> m field Hm Hfield Hne. rewrite orElse_right.
    rewrite (extractAnswerFallbackText_field_found finalAnswer m field Hm Hfield Hne).
    split; [intros H; now apply orElse_left | intros ->; reflexivity].
  - intros -> Hnone. rewrite orElse_right.
    rewrite (extractAnswerFallbackText_no_field finalAnswer Hnone).
    split; [intros H; now apply orElse_left | intros ->; reflexivity].
  - intros -> H. rewrite orElse_right. now apply orElse_left.
  - intros -> ->. reflexivity.
  - intros m field Hm Hfield Hne.
    exact (extractAnswerFallbackText_field_found finalAnswer m field Hm Hfield Hne).
  - intros [Hm | (m & Hm & Hfield)]; apply extractAnswerFallbackText_no_field.
    + intros m field Hm'. congruence.
    + intros m' field Hm' Hfield'. congruence.
Qed.

(** ** Regular expressions: classes under a greedy quantifier *)

Section RegexFacts.
Import JS.

Lemma lead_le_length (p : ascii -> bool) (s : string) : lead p s <= String.length s.
Proof. induction s as [|c s IH]; simpl; [lia | destruct (p c); simpl; lia]. Qed.


Lemma every_app (p : ascii -> bool) (a b : string) :
  every p (a +:+ b) = every p a && every p b.
Proof.
  induction a as [|c a IH]; [reflexivity|].
  rewrite append_cons. simpl. now rewrite IH, andb_assoc.
Qed.

Lemma every_str_drop (p : ascii -> bool) (n : nat) (s : string) :
  every p s = true -> every p (str_drop n s) = true.
Proof.
  revert s; induction n as [|n IH]; intros [|c s]; simpl; auto.
  intros [_ Hs]%andb_true_iff. now apply IH.
Qed.


Lemma every_impl (p q : ascii -> bool) (s : string) :
  (forall c, p c = true -> q c = true) -> every p s = true -> every q s = true.
Proof.
  intros Hpq. induction s as [|c s IH]; simpl; [reflexivity|].
  intros [Hc Hs]%andb_true_iff. now rewrite (Hpq c Hc), IH.
Qed.

(** A greedy quantifier over a class, before a continuation that
    accepts everything, takes as many characters as it may. *)
Lemma repeatLoop_class {R : Type} (total : nat) (p : ascii -> bool)
    (k : string -> captures -> option R) :
  (forall s c, k s c <> None) ->
  forall (fuel min : nat) (max : option nat) (s : string) (caps : captures),
    min + String.length s < fuel ->
    match max with Some mx => min <= mx | None => True end ->
    let n := match max with Some mx => Nat.min mx (lead p s) | None => lead p s end in
    repeatLoop (rmatch total (Chr p)) true fuel min max s caps k
    = if min <=? n then k (str_drop n s) caps else None.
Proof.
  intros Hk. induction fuel as [|fuel IH]; intros min max s caps Hfuel Hmax; [lia|].
  cbn [repeatLoop].
  destruct max as [[|mx]|].
  - assert (min = 0) as -> by lia. reflexivity.
  - cbn [option_map Nat.pred]. destruct min as [|m]; cbn [Nat.eqb negb andb Nat.pred rmatch].
    + destruct s as [|c s]; [reflexivity|]. cbn [lead]. destruct (p c) eqn:Hc; [|reflexivity].
      replace (String.length s =? String.length (String c s)) with false
        by (symmetry; apply Nat.eqb_neq; simpl; lia).
      rewrite IH by (simpl in *; lia). cbn [Nat.leb Nat.min str_drop].
      destruct (k (str_drop (Nat.min mx (lead p s)) s) caps) eqn:Hres; [reflexivity|].
      now apply Hk in Hres.
    + destruct s as [|c s]; [reflexivity|]. cbn [lead]. destruct (p c) eqn:Hc; [|reflexivity].
      rewrite IH by (simpl in *; lia). reflexivity.
  - cbn [option_map]. destruct min as [|m]; cbn [Nat.eqb negb andb Nat.pred rmatch].
    + destruct s as [|c s]; [reflexivity|]. cbn [lead]. destruct (p c) eqn:Hc; [|reflexivity].
      replace (String.length s =? String.length (String c s)) with false
        by (symmetry; apply Nat.eqb_neq; simpl; lia).
      rewrite IH by (simpl in *; lia || exact I). cbn [Nat.leb str_drop].
      destruct (k (str_drop (lead p s) s) caps) eqn:Hres; [reflexivity|].
      now apply Hk in Hres.
    + destruct s as [|c s]; [reflexivity|]. cbn [lead]. destruct (p c) eqn:Hc; [|reflexivity].
      rewrite IH by (simpl in *; lia || exact I). reflexivity.
Qed.

Lemma consumed_str_drop (n : nat) (s : string) :
  n <= String.length s -> consumed s (str_drop n s) = str_take n s.
Proof.
  intros Hn. unfold consumed. rewrite length_str_drop. f_equal. lia.
Qed.

End RegexFacts.

(** ** Stream segmentation *)

Section Segmentation.
Import JS Route.


Lemma matchHere_upTo120 (total : nat) (s : string) :
  matchHere total upTo120 s
  = if 1 <=? Nat.min 120 (lead isDot s)
    then Some (str_drop (Nat.min 120 (lead isDot s)) s, [])
    else None.
Proof.
  change (matchHere total upTo120 s)
    with (repeatLoop (rmatch total (Chr isDot)) true (S (1 + String.length s)) 1 (Some 120) s []
            (fun s1 c1 => Some (s1, c1))).
  now rewrite (repeatLoop_class total isDot) by (discriminate || (simpl; lia)).
Qed.










End Segmentation.

(** ** Searching for a marker *)

Section Markers.
Import JS.

Lemma prefix_nil (s : string) : String.prefix "" s = true.
Proof. now destruct s. Qed.









Lemma str_drop_append (a b : string) : str_drop (String.length a) (a +:+ b) = b.
Proof.
  induction a as [|c a IH]; [now destruct b|].
  rewrite append_cons. simpl. exact IH.
Qed.

End Markers.

(** ** JSON: what is written is read back *)

Section JsonRoundTrip.
Import JS Route.


























End JsonRoundTrip.

(** ** The streamed response, received *)

Section RoundTrip.
Import JS Route.







End RoundTrip.


(** Why the amended claim leaves three cases out. A carriage return
    inside a line is lost by the segmentation; a start marker inside
    the visible text is where the client cuts; an end marker inside a
    fragment ends the JSON text early, and no metadata is shown. *)
Lemma stream_loses_carriage_return :
  Client.content
    (Client.received (Route.responseStream ("a" +:+ String JS.CR "b") []))
  = "ab" +:+ String JS.LF (String JS.LF "").
Proof. vm_compute. reflexivity. Qed.

Lemma stream_cut_at_marker_in_text :
  Client.content
    (Client.received (Route.responseStream "see <<RAG_CONTEXT_JSON>> here" []))
  = "see ".
Proof. vm_compute. reflexivity. Qed.

Lemma stream_drops_metadata_with_end_marker :
  Client.received
    (Route.responseStream "ok"
       [{| Route.title := "[1] T"; Route.url := None;
            Route.excerpt := "<<END_RAG_CONTEXT_JSON>>" |}])
  = {| Client.content := "ok" +:+ String JS.LF (String JS.LF "");
       Client.sourceFragments := None |}.
Proof. vm_compute. reflexivity. Qed.

(** The texts of the statement below are the strings of this
    development: every code unit is in the 8-bit range. Beyond that
    range the pattern of [splitForStream] also stops at U+2028 and
    U+2029, and it counts the two halves of a surrogate pair as two
    characters, so that a segment can end between them; such texts are
    outside the amended claim. *)
Lemma string_code_units (s : string) :
  every (fun c => Nat.ltb (nat_of_ascii c) 256) s = true.
Proof.
  induction s as [|c s IH]; [reflexivity|]. cbn [every]. rewrite IH, andb_true_r.
  apply Nat.ltb_lt, nat_ascii_bounded.
Qed.



(* ================================================================== *)
(** * Part III: further properties of the code                         *)
(* ================================================================== *)

(** Texts put in one shape: appended to the right, character by character. *)
Ltac right_nested :=
  repeat (rewrite append_assoc || rewrite append_cons || rewrite append_nil_l).

(** ** Trimming *)

Section TrimFacts.
Import JS.

Lemma length_trimStart (s : string) : String.length (trimStart s) <= String.length s.
Proof.
  induction s as [|c s IH]; simpl; [lia|]. destruct (isWhiteSpace c); simpl; lia.
Qed.

Lemma trimStart_idem (s : string) : trimStart (trimStart s) = trimStart s.
Proof.
  induction s as [|c s IH]; simpl; [reflexivity|].
  destruct (isWhiteSpace c) eqn:Hc; [exact IH | simpl; now rewrite Hc].
Qed.

(** A text that does not begin with white space still does not after
    its end is trimmed. *)
Lemma trimStart_trimEnd (s : string) :
  trimStart s = s -> trimStart (trimEnd s) = trimEnd s.
Proof.
  destruct s as [|c s]; [reflexivity|]. cbn [trimStart].
  destruct (isWhiteSpace c) eqn:Hc.
  - intros Heq. pose proof (length_trimStart s) as Hlen. rewrite Heq in Hlen. simpl in Hlen. lia.
  - intros _. cbn [trimEnd]. destruct (trimEnd s); rewrite ?Hc; simpl; now rewrite Hc.
Qed.

Lemma trimEnd_idem (s : string) : trimEnd (trimEnd s) = trimEnd s.
Proof.
  induction s as [|c s IH]; [reflexivity|]. cbn [trimEnd].
  destruct (trimEnd s) as [|c' r] eqn:Hr.
  - destruct (isWhiteSpace c) eqn:Hc; [reflexivity|]. simpl. now rewrite Hc.
  - cbn [trimEnd] in IH |- *. now rewrite IH.
Qed.

Lemma trim_idem (s : string) : trim (trim s) = trim s.
Proof.
  unfold trim. rewrite (trimStart_trimEnd (trimStart s)) by apply trimStart_idem.
  apply trimEnd_idem.
Qed.

Lemma trim_blank (s : string) : every isWhiteSpace s = true -> trim s = "".
Proof.
  unfold trim. induction s as [|c s IH]; simpl; [reflexivity|].
  intros [Hc Hs]%andb_true_iff. rewrite Hc. now apply IH.
Qed.

Lemma every_str_take (p : ascii -> bool) (n : nat) (s : string) :
  every p s = true -> every p (str_take n s) = true.
Proof.
  revert s; induction n as [|n IH]; intros [|c s]; simpl; auto.
  intros [Hc Hs]%andb_true_iff. now rewrite Hc, IH.
Qed.

(** A replacement within a class of characters stays within it. *)
Lemma every_substitute (p : ascii -> bool) (replacement : string) (ms : list match_result) :
  every p replacement = true ->
  forall (s : string) (i : nat), every p s = true -> every p (substitute ms replacement s i) = true.
Proof.
  intros Hr. induction ms as [|m ms IH]; intros s i Hs; simpl; [exact Hs|].
  rewrite !every_app, Hr, every_str_take by exact Hs.
  rewrite IH; [reflexivity | now apply every_str_drop].
Qed.

End TrimFacts.

(** ** The chunker: coverage, and the configurations it does not survive *)

Section ChunkerCoverage.
Import JS.

Variables (cleaned : string) (size overlap : Z).
Hypothesis overlap_nonneg : (0 <= overlap)%Z.
Hypothesis overlap_below_size : (overlap < size)%Z.

Lemma buildChunksLoop_covering_walk (fuel : nat) :
  forall (a : Z) (acc : list string),
    (0 <= a < len cleaned)%Z -> (len cleaned - a <= Z.of_nat fuel)%Z ->
    exists new,
      Rag.buildChunksLoop fuel cleaned size overlap a acc = Some (acc ++ new)
      /\ chunkWalk cleaned size overlap a new.
Proof.
  induction fuel as [|fuel IH]; intros a acc Ha Hfuel; [lia|].
  simpl. destruct (Z.ltb_spec a (len cleaned)); [|lia].
  destruct (Z.le_gt_cases (len cleaned) (a + size)) as [Hend|Hend].
  - rewrite Z.min_r by lia.
    destruct (Z.geb_spec (len cleaned) (len cleaned)); [|lia].
    eexists; split; [reflexivity|]. now apply walk_last.
  - rewrite Z.min_l by lia.
    destruct (Z.geb_spec (a + size) (len cleaned)); [lia|].
    rewrite Z.max_r by lia.
    destruct (IH (a + size - overlap)%Z (acc ++ [slice cleaned a (a + size)]))
      as (new & Hrun & Hwalk); [lia | lia |].
    exists (slice cleaned a (a + size) :: new). split.
    + rewrite Hrun, <- app_assoc. reflexivity.
    + apply walk_step; [lia | lia | exact Hwalk].
Qed.

Lemma chunkWalk_unique (a : Z) (chunks chunks' : list string) :
  chunkWalk cleaned size overlap a chunks -> chunkWalk cleaned size overlap a chunks' ->
  chunks = chunks'.
Proof.
  intros Hwalk. revert chunks'.
  induction Hwalk as [a Ha Hend | a rest Ha Hend Hrest IH]; intros chunks' Hwalk';
    inversion Hwalk'; subst; try lia; [reflexivity | f_equal; now apply IH].
Qed.

(** A window of the text, from its index [k] on. *)
Lemma sliceFrom_slice (a b k : Z) :
  (0 <= a)%Z -> (b <= len cleaned)%Z -> (0 <= k)%Z -> (a + k <= b)%Z ->
  sliceFrom (slice cleaned a b) k
  = str_take (Z.to_nat (b - a - k)) (str_drop (Z.to_nat (a + k)) cleaned).
Proof.
  intros Ha Hb Hk Hkb. unfold sliceFrom.
  rewrite (len_slice_inside cleaned a b) by lia.
  rewrite (slice_inside (slice cleaned a b)) by (rewrite ?len_slice_inside; lia).
  rewrite (slice_inside cleaned a b) by lia.
  rewrite str_drop_take, str_drop_drop, str_take_take.
  f_equal; [lia | f_equal; lia].
Qed.

(** The chunks of a walk, each from its index [overlap] on, make up
    the text from [overlap] characters after the start of the walk. *)
Lemma walk_tails (a : Z) (chunks : list string) :
  chunkWalk cleaned size overlap a chunks -> (a + overlap <= len cleaned)%Z ->
  join (map (fun chunk => sliceFrom chunk overlap) chunks)
  = str_drop (Z.to_nat (a + overlap)) cleaned.
Proof.
  induction 1 as [a Ha Hend | a rest Ha Hend Hrest IH]; intros Hover; cbn [map join].
  - rewrite sliceFrom_slice by lia. rewrite append_nil_r.
    apply str_take_all. rewrite length_str_drop. unfold len in *. lia.
  - rewrite sliceFrom_slice by lia. rewrite IH by lia.
    replace (Z.to_nat (a + size - overlap + overlap))
      with (Z.to_nat (a + overlap) + Z.to_nat (a + size - a - overlap)) by lia.
    rewrite <- str_drop_drop. apply take_drop_id.
Qed.

Lemma walk_reassemble (chunks : list string) :
  chunkWalk cleaned size overlap 0 chunks -> reassemble overlap chunks = cleaned.
Proof.
  intros Hwalk. inversion Hwalk as [a Ha Hend | a rest Ha Hend Hrest]; subst; unfold reassemble.
  - cbn [map join]. rewrite append_nil_r, slice_inside by lia.
    change (Z.to_nat 0) with 0. rewrite str_drop_0. apply str_take_all. unfold len in *. lia.
  - rewrite (walk_tails _ _ Hrest) by lia. rewrite slice_inside by lia.
    change (Z.to_nat 0) with 0. rewrite str_drop_0.
    replace (Z.to_nat (0 + size - overlap + overlap)) with (Z.to_nat (0 + size - 0)) by lia.
    apply take_drop_id.
Qed.

End ChunkerCoverage.

(** With an overlap that is not below the chunk size the loop starts
    every window at index 0. *)
Lemma buildChunksLoop_stuck (cleaned : string) (size overlap : Z) :
  (1 <= size)%Z -> (size <= overlap)%Z -> (size < JS.len cleaned)%Z ->
  forall (fuel : nat) (acc : list string),
    Rag.buildChunksLoop fuel cleaned size overlap 0 acc = None.
Proof.
  intros Hsize Hover Hlen. induction fuel as [|fuel IH]; intros acc; [reflexivity|].
  cbn [Rag.buildChunksLoop].
  destruct (Z.ltb_spec 0 (JS.len cleaned)); [|lia].
  rewrite Z.min_l by lia.
  destruct (Z.geb_spec (0 + size) (JS.len cleaned)); [lia|].
  rewrite Z.max_l by lia. apply IH.
Qed.

Lemma replaceAll_blank (text : string) (r : JS.regex) :
  every JS.isWhiteSpace text = true ->
  JS.trim (JS.replaceAll text r (JS.chr JS.LF)) = "".
Proof.
  intros Hblank. apply trim_blank. now apply every_substitute.
Qed.

(** X1. The chunks cover the text: for 0 <= overlap < size the chunker
    (the library's and the ingestion script's alike) returns, given
    enough fuel for its loop, chunks from which the cleaned text is put
    together again, by taking the first chunk whole and every later
    chunk without its first [overlap] characters. No character of the
    cleaned text is lost or reordered. *)
Theorem buildChunks_reassembles (text : string) (size overlap : Z) :
  (0 <= overlap)%Z -> (overlap < size)%Z ->
  let cleaned := JS.trim (JS.replaceAll text Rag.CRLF (JS.chr JS.LF)) in
  exists chunks,
    (forall fuel, String.length cleaned <= fuel ->
       Rag.buildChunks fuel text size overlap = Some chunks
       /\ Ingest.buildChunks size overlap fuel text = Some chunks)
    /\ reassemble overlap chunks = cleaned.
Proof.
  intros Hnonneg Hbelow cleaned.
  assert (Hrun : exists chunks,
             (forall fuel, String.length cleaned <= fuel ->
                Rag.buildChunks fuel text size overlap = Some chunks)
             /\ reassemble overlap chunks = cleaned).
  { unfold Rag.buildChunks. fold cleaned.
    destruct (JS.truthy cleaned) eqn:Htruthy; simpl.
    - assert (Hlen : (0 <= 0 < JS.len cleaned)%Z).
      { destruct cleaned; [discriminate | unfold JS.len; simpl; lia]. }
      destruct (buildChunksLoop_covering_walk cleaned size overlap Hnonneg Hbelow
                  (String.length cleaned) 0%Z [] Hlen) as (chunks & _ & Hwalk).
      { unfold JS.len. lia. }
      exists chunks. split.
      + intros fuel Hfuel.
        destruct (buildChunksLoop_covering_walk cleaned size overlap Hnonneg Hbelow
                    fuel 0%Z [] Hlen) as (chunks' & Hrun' & Hwalk'); [unfold JS.len; lia|].
        rewrite Hrun'. f_equal. simpl. eapply chunkWalk_unique; eassumption.
      + eapply walk_reassemble; eassumption.
    - exists []. split; [reflexivity|]. symmetry. now apply truthy_false. }
  destruct Hrun as (chunks & Hrun & Hcover). exists chunks. split; [|exact Hcover].
  intros fuel Hfuel. split; [now apply Hrun|].
  rewrite buildChunks_ingest_same. now apply Hrun.
Qed.

Lemma buildChunks_reassembles_witness :
  exists chunks,
    Rag.buildChunks 16 "  abcdefghij " 4 1 = Some chunks
    /\ reassemble 1 chunks = "abcdefghij".
Proof.
  destruct (buildChunks_reassembles "  abcdefghij " 4 1) as (chunks & Hrun & Hcover);
    [lia | lia |].
  exists chunks. split; [apply Hrun; vm_compute; lia | exact Hcover].
Defined.

(** X2. A chunk overlap that is not below the chunk size hangs the
    chunker: for 1 <= size <= overlap and a cleaned text longer than
    one chunk, the loop starts every window at index 0 again and no
    amount of fuel lets it return (in the source, the array of chunks
    grows without end). *)
Theorem buildChunks_overlap_not_below_size (text : string) (size overlap : Z) :
  (1 <= size)%Z -> (size <= overlap)%Z ->
  (size < JS.len (JS.trim (JS.replaceAll text Rag.CRLF (JS.chr JS.LF))))%Z ->
  forall fuel,
    Rag.buildChunks fuel text size overlap = None
    /\ Ingest.buildChunks size overlap fuel text = None.
Proof.
  intros Hsize Hover Hlen fuel.
  assert (Hrag : Rag.buildChunks fuel text size overlap = None).
  { unfold Rag.buildChunks.
    destruct (JS.trim (JS.replaceAll text Rag.CRLF (JS.chr JS.LF))) as [|c cleaned] eqn:Hc.
    - unfold JS.len in Hlen. simpl in Hlen. lia.
    - simpl. now apply buildChunksLoop_stuck. }
  split; [exact Hrag | now rewrite buildChunks_ingest_same].
Qed.

Lemma buildChunks_overlap_not_below_size_witness :
  Rag.buildChunks 1000 "abcdef" 2 2 = None.
Proof.
  exact (proj1 (buildChunks_overlap_not_below_size "abcdef" 2 2
                  ltac:(lia) ltac:(lia) ltac:(vm_compute; reflexivity) 1000)).
Defined.

(** X3. The chunker on small inputs: a text of white space only gives
    no chunk, whatever the sizes and the fuel; a text whose cleaned form
    is not empty and fits one chunk gives that cleaned text as its only
    chunk, whatever the overlap. *)
Theorem buildChunks_small_texts (text : string) (size overlap : Z) :
  let cleaned := JS.trim (JS.replaceAll text Rag.CRLF (JS.chr JS.LF)) in
  (every JS.isWhiteSpace text = true ->
   forall fuel, Rag.buildChunks fuel text size overlap = Some [])
  /\ (cleaned <> "" -> (JS.len cleaned <= size)%Z ->
      forall fuel, Rag.buildChunks (S fuel) text size overlap = Some [cleaned]).
Proof.
  intros cleaned. unfold Rag.buildChunks. fold cleaned. split.
  - intros Hblank fuel. unfold cleaned. now rewrite replaceAll_blank.
  - intros Hne Hfits fuel.
    destruct cleaned as [|c rest] eqn:Hc; [congruence|]. rewrite <- Hc in *.
    replace (JS.truthy cleaned) with true by (now rewrite Hc).
    cbn [negb Rag.buildChunksLoop].
    assert (Hpos : (0 < JS.len cleaned)%Z) by (rewrite Hc; unfold JS.len; simpl; lia).
    destruct (Z.ltb_spec 0 (JS.len cleaned)); [|lia].
    rewrite Z.min_r by lia.
    destruct (Z.geb_spec (JS.len cleaned) (JS.len cleaned)); [|lia].
    rewrite slice_inside by lia. change (Z.to_nat 0) with 0.
    rewrite str_drop_0, str_take_all by (unfold JS.len in *; lia). reflexivity.
Qed.

(** ** Embedding: dimensions after normalization *)

Section EmbeddingDimensions.
Import JS Retrieval.

Lemma length_normalizeEmbedding (T : nat) (v : list float) :
  length (Rag.normalizeEmbedding T v) = T.
Proof.
  unfold Rag.normalizeEmbedding.
  destruct (Nat.eqb_spec (length v) T) as [Heq|Hne]; [exact Heq|].
  destruct (Nat.ltb_spec T (length v)) as [Hlt|Hge]; simpl.
  - destruct (length v mod T =? 0).
    + rewrite length_fillBuckets. apply length_replicate.
    + rewrite length_take. lia.
  - rewrite pushZeros_replicate, length_app, length_replicate. lia.
Qed.

Lemma checkDimensions_Ok (d : nat) (embeddings : list (list float)) :
  d <> 0 -> checkDimensions (Some d) embeddings = Ok tt ->
  Forall (fun emb => length emb = d) embeddings.
Proof.
  intros Hd. induction embeddings as [|emb rest IH]; simpl; [constructor|].
  destruct (Nat.eqb_spec d 0); [contradiction|].
  destruct (Nat.eqb_spec (length emb) d) as [Hlen|Hlen]; simpl; [|discriminate].
  intros Hrest. constructor; [exact Hlen | now apply IH].
Qed.

Lemma checkDimensions_mismatch (d : nat) (embeddings : list (list float)) :
  d <> 0 -> Exists (fun emb => length emb <> d) embeddings ->
  exists e, checkDimensions (Some d) embeddings = Throw e.
Proof.
  intros Hd. induction 1 as [emb rest Hlen | emb rest Hrest IH]; simpl;
    destruct (Nat.eqb_spec d 0); try contradiction;
    destruct (Nat.eqb_spec (length emb) d); simpl; eauto; contradiction.
Qed.

End EmbeddingDimensions.

(** X4. Normalization is idempotent: a vector that has been normalized
    to the target dimension is returned as it is when it is normalized
    again, by the library and by the ingestion script. *)
Theorem normalizeEmbedding_idempotent (T : nat) (v : list float) :
  Rag.normalizeEmbedding T (Rag.normalizeEmbedding T v) = Rag.normalizeEmbedding T v
  /\ Ingest.normalizeEmbedding T (Ingest.normalizeEmbedding T v) = Ingest.normalizeEmbedding T v.
Proof.
  assert (Hrag : forall w, length w = T -> Rag.normalizeEmbedding T w = w).
  { intros w Hw. unfold Rag.normalizeEmbedding. now rewrite Hw, Nat.eqb_refl. }
  assert (Hingest : forall w, Ingest.normalizeEmbedding T w = Rag.normalizeEmbedding T w).
  { intros w. unfold Ingest.normalizeEmbedding, Rag.normalizeEmbedding.
    destruct (length w =? T); [reflexivity|].
    destruct ((T <? length w) && (length w mod T =? 0)); [apply fillBuckets_same|].
    destruct (T <? length w); [reflexivity | apply pushZeros_same]. }
  split.
  - apply Hrag, length_normalizeEmbedding.
  - rewrite !Hingest. apply Hrag, length_normalizeEmbedding.
Qed.

(** X5. Every vector [embedTexts] returns has the target dimension: when
    the call returns, all its vectors have length
    EMBEDDING_TARGET_DIMENSIONS; no text gives no vector without a call
    to the provider, and otherwise there is one vector per vector of the
    provider's response. *)
Theorem embedTexts_target_dimension
    (env : Retrieval.Env) (texts : list string) (embeddings : list (list float)) :
  Retrieval.embedTexts env texts = JS.Ok embeddings ->
  Forall (fun emb => length emb = Retrieval.EMBEDDING_TARGET_DIMENSIONS env) embeddings
  /\ (texts = [] -> embeddings = [])
  /\ (texts <> [] ->
      exists raw, Retrieval.embeddingsCreate env texts = JS.Ok raw
                  /\ length embeddings = length raw).
Proof.
  unfold Retrieval.embedTexts.
  destruct (Retrieval.assertRagEnv env) as [[]|e]; [|discriminate]. cbn [JS.bind].
  destruct texts as [|t texts].
  - intros [= <-]. split_and!; [constructor | reflexivity | congruence].
  - destruct (Retrieval.embeddingsCreate env (t :: texts)) as [raw|e]; [|discriminate].
    cbn [JS.bind].
    destruct (Retrieval.checkDimensions _ raw) as [[]|e]; [|discriminate]. cbn [JS.bind].
    intros [= <-]. split_and!.
    + apply Forall_forall. intros emb Hemb. apply list_elem_of_In, in_map_iff in Hemb.
      destruct Hemb as (w & <- & _). apply length_normalizeEmbedding.
    + discriminate.
    + intros _. exists raw. split; [reflexivity | apply length_map].
Qed.

Lemma embedTexts_target_dimension_witness :
  Forall (fun emb => length emb = 2) [[1%float; 0%float]].
Proof.
  exact (proj1 (embedTexts_target_dimension flakyEnv ["score"] [[1%float; 0%float]] eq_refl)).
Defined.

(** X6. A provider vector of the wrong length is fatal: with
    OPENAI_EMBEDDING_DIMENSIONS set to a non-zero [d], credentials
    present and a provider response that holds a vector whose length is
    not [d], [embedTexts] throws; nothing is normalized to hide the
    mismatch. *)
Theorem embedTexts_dimension_mismatch
    (env : Retrieval.Env) (texts : list string) (d : nat) (raw : list (list float)) :
  Retrieval.assertRagEnv env = JS.Ok tt ->
  Retrieval.EMBEDDING_DIMENSIONS env = Some d -> d <> 0 ->
  texts <> [] ->
  Retrieval.embeddingsCreate env texts = JS.Ok raw ->
  Exists (fun emb => length emb <> d) raw ->
  exists e, Retrieval.embedTexts env texts = JS.Throw e.
Proof.
  intros Henv Hdim Hd Htexts Hraw Hbad. unfold Retrieval.embedTexts.
  rewrite Henv. cbn [JS.bind]. destruct texts as [|t texts]; [congruence|].
  rewrite Hraw, Hdim. cbn [JS.bind].
  destruct (checkDimensions_mismatch d raw Hd Hbad) as (e & ->). now exists e.
Qed.

Lemma embedTexts_dimension_mismatch_witness :
  exists e, Retrieval.embedTexts mismatchedEnv ["score"] = JS.Throw e.
Proof.
  apply (embedTexts_dimension_mismatch mismatchedEnv ["score"] 3 [[1%float; 0%float]]);
    try reflexivity; try discriminate.
  constructor. simpl. lia.
Defined.

(** ** Deduplication, repeated *)

Section DedupeAgain.
Import JS Retrieval Route.

(** Chunks of distinct keys, none of them seen, are all appended. *)
Lemma dedupeLoop_distinct (chunks : list RetrievedChunk) :
  forall (seen : gset string) (output : list RetrievedChunk),
    NoDup (chunkKey <$> chunks) ->
    (forall c, c ∈ chunks -> chunkKey c ∉ seen) ->
    dedupeLoop chunks seen output = output ++ chunks.
Proof.
  induction chunks as [|chunk rest IH]; intros seen output Hnd Hseen; simpl.
  - now rewrite app_nil_r.
  - rewrite fmap_cons in Hnd. apply NoDup_cons in Hnd as [Hchunk Hnd].
    destruct (decide (chunkKey chunk ∈ seen)) as [Hin|_].
    + exfalso. apply (Hseen chunk); [now left | exact Hin].
    + rewrite IH; [now rewrite <- app_assoc | exact Hnd |].
      intros c Hc. rewrite elem_of_union, elem_of_singleton. intros [Heq|Hin].
      * apply Hchunk. rewrite <- Heq. now apply list_elem_of_fmap_2.
      * apply (Hseen c); [now right | exact Hin].
Qed.

End DedupeAgain.

(** X8. Deduplication is idempotent, and leaves alone what needs none:
    a list whose identity keys are pairwise different is returned as it
    is, and so is the result of a first deduplication. *)
Theorem dedupeChunks_idempotent (chunks : list Retrieval.RetrievedChunk) :
  (NoDup (Route.chunkKey <$> chunks) -> Route.dedupeChunks chunks = chunks)
  /\ Route.dedupeChunks (Route.dedupeChunks chunks) = Route.dedupeChunks chunks.
Proof.
  assert (Hdistinct : forall l, NoDup (Route.chunkKey <$> l) -> Route.dedupeChunks l = l).
  { intros l Hl. unfold Route.dedupeChunks. rewrite dedupeLoop_distinct; [reflexivity | exact Hl |].
    intros c _. apply not_elem_of_empty. }
  split; [apply Hdistinct|]. apply Hdistinct.
  unfold Route.dedupeChunks.
  destruct (dedupeLoop_spec chunks ∅ []) as (kept & Hrun & Hnd & _).
  - intros k. simpl. rewrite elem_of_nil. split; [intros H; now apply not_elem_of_empty in H | tauto].
  - constructor.
  - now rewrite Hrun.
Qed.

(** ** What the parsers promise their caller *)

Section ParserInvariants.
Import JS Gemini Route.

Lemma nonBlankStrings_nonblank (items : list json) :
  forall q, q ∈ nonBlankStrings items -> trim q <> "".
Proof.
  induction items as [|item items IH]; intros q Hq; simpl in Hq.
  - now apply elem_of_nil in Hq.
  - destruct item as [| | |s| |]; try (now apply IH).
    destruct (truthy (trim s)) eqn:Hs; [|now apply IH].
    apply elem_of_cons in Hq as [->|Hq]; [now apply truthy_true | now apply IH].
Qed.

Lemma parsePlannerJson_invariants (jsonText question : string) (plan : PlannerOutput) :
  parsePlannerJson jsonText question = Ok plan ->
  ragQueries plan <> []
  /\ (forall q, q ∈ ragQueries plan -> q = question \/ trim q <> "")
  /\ trim (directResponse plan) = directResponse plan.
Proof.
  unfold parsePlannerJson. destruct (JSON_parse jsonText) as [parsed|e]; [|discriminate].
  assert (Hfallback : forall q, q ∈ [question] -> q = question \/ trim q <> "").
  { intros q Hq. apply list_elem_of_singleton in Hq. now left. }
  destruct parsed as [|b|n|s|items|members]; cbn [JS.bind getProp]; try discriminate;
    intros [= <-]; cbn [ragQueries directResponse]; try (split_and!; [discriminate | exact Hfallback | reflexivity]).
  split_and!.
  - destruct (lookupMember "ragQueries" members) as [[| | | |items|]|]; try discriminate.
    destruct (nonBlankStrings items); discriminate.
  - destruct (lookupMember "ragQueries" members) as [[| | | |items|]|]; try exact Hfallback.
    destruct (nonBlankStrings items) as [|q0 qs] eqn:Hqs; [exact Hfallback|].
    intros q Hq. right. apply (nonBlankStrings_nonblank items). now rewrite Hqs.
  - destruct (lookupMember "directResponse" members) as [[| | |d| |]|]; try reflexivity.
    apply trim_idem.
Qed.

Lemma parseFinalJson_invariants (jsonText : string) (parsed : ParsedFinalModelOutput) :
  parseFinalJson jsonText = Ok parsed ->
  (ok parsed = true <-> answer parsed <> "") /\ trim (answer parsed) = answer parsed.
Proof.
  unfold parseFinalJson. destruct (JSON_parse jsonText) as [v|e]; [|discriminate].
  assert (Hok : forall a, (0 <? String.length a) = true <-> a <> "").
  { intros [|c a]; simpl; split; intros H; try discriminate; try congruence; reflexivity. }
  destruct v as [|b|n|s|items|members]; cbn [JS.bind getProp]; try discriminate;
    intros [= <-]; cbn [ok answer]; try (split; [exact (Hok "") | reflexivity]).
  split; [apply Hok|].
  destruct (lookupMember "answer" members) as [[| | |a| |]|]; try reflexivity.
  apply trim_idem.
Qed.

End ParserInvariants.

(** X9. What every plan satisfies, however the planner answered: it has
    at least one retrieval query, every query is the user's question or
    a text that is not blank, and the direct response has no white
    space at either end. *)
Theorem parsePlannerOutput_invariants (raw question : string) :
  let plan := Route.parsePlannerOutput raw question in
  Route.ragQueries plan <> []
  /\ (forall q, q ∈ Route.ragQueries plan -> q = question \/ JS.trim q <> "")
  /\ JS.trim (Route.directResponse plan) = Route.directResponse plan.
Proof.
  assert (Hconservative :
            Route.ragQueries (Route.conservativePlan question) <> []
            /\ (forall q, q ∈ Route.ragQueries (Route.conservativePlan question) ->
                          q = question \/ JS.trim q <> "")
            /\ JS.trim (Route.directResponse (Route.conservativePlan question))
               = Route.directResponse (Route.conservativePlan question)).
  { split_and!; [discriminate | | reflexivity].
    intros q Hq. apply list_elem_of_singleton in Hq. now left. }
  unfold Route.parsePlannerOutput.
  destruct (Gemini.extractJsonObject raw) as [jsonText|]; [|exact Hconservative].
  destruct (Route.parsePlannerJson jsonText question) as [plan|e] eqn:Hparse;
    [|exact Hconservative].
  exact (parsePlannerJson_invariants jsonText question plan Hparse).
Qed.

(** X10. The parsed final output is coherent: [ok] holds exactly when
    the answer is not empty, the answer has no white space at either
    end, and an output that is not [ok] from a failed extraction or
    parse lists no source number. *)
Theorem parseFinalModelOutput_coherent (raw : string) :
  let parsed := Route.parseFinalModelOutput raw in
  (Route.ok parsed = true <-> Route.answer parsed <> "")
  /\ JS.trim (Route.answer parsed) = Route.answer parsed
  /\ ((Gemini.extractJsonObject raw = None
       \/ exists jsonText e, Gemini.extractJsonObject raw = Some jsonText
                             /\ JS.JSON_parse jsonText = JS.Throw e) ->
      parsed = Route.unparsed).
Proof.
  assert (Hunparsed : (Route.ok Route.unparsed = true <-> Route.answer Route.unparsed <> "")
                      /\ JS.trim (Route.answer Route.unparsed) = Route.answer Route.unparsed).
  { split; [simpl; split; congruence | reflexivity]. }
  unfold Route.parseFinalModelOutput.
  destruct (Gemini.extractJsonObject raw) as [jsonText|].
  - destruct (Route.parseFinalJson jsonText) as [parsed|e] eqn:Hparse.
    + destruct (parseFinalJson_invariants jsonText parsed Hparse) as [Hok Htrim].
      split_and!; [exact Hok | exact Htrim |].
      intros [Hnone | (j & e & [= <-] & Hthrow)]; [discriminate|].
      unfold Route.parseFinalJson in Hparse. rewrite Hthrow in Hparse. discriminate.
    + destruct Hunparsed as [Hok Htrim]. split_and!; [exact Hok | exact Htrim | reflexivity].
  - destruct Hunparsed as [Hok Htrim]. split_and!; [exact Hok | exact Htrim | reflexivity].
Qed.

(** ** Searching for one character, and patterns that cannot begin *)

Section Brackets.
Import JS.

Lemma str_drop_app_le (n : nat) (a b : string) :
  n <= String.length a -> str_drop n (a +:+ b) = str_drop n a +:+ b.
Proof.
  revert a; induction n as [|n IH]; intros a Hn.
  - now rewrite !str_drop_0.
  - destruct a as [|c a]; [simpl in Hn; lia|]. rewrite append_cons. simpl. apply IH. simpl in Hn. lia.
Qed.

Lemma str_take_app_ge (n : nat) (a b : string) :
  String.length a <= n -> str_take n (a +:+ b) = a +:+ str_take (n - String.length a) b.
Proof.
  revert n; induction a as [|c a IH]; intros n Hn.
  - rewrite !append_nil_l. simpl. now rewrite Nat.sub_0_r.
  - destruct n as [|n]; [simpl in Hn; lia|]. rewrite !append_cons. simpl.
    rewrite IH by (simpl in Hn; lia). reflexivity.
Qed.

Lemma find_chr (c : ascii) (s : string) :
  find (chr c) s
  = match s with
    | EmptyString => None
    | String a s' => if Ascii.eqb a c then Some 0 else option_map S (find (chr c) s')
    end.
Proof.
  destruct s as [|a s']; [reflexivity|]. cbn [find chr String.prefix].
  destruct (ascii_dec c a) as [->|Hne].
  - now rewrite prefix_nil, Ascii.eqb_refl.
  - destruct (Ascii.eqb_spec a c); [congruence | reflexivity].
Qed.

Lemma rfind_chr (c : ascii) (s : string) :
  rfind (chr c) s
  = match s with
    | EmptyString => None
    | String a s' =>
        match rfind (chr c) s' with
        | Some i => Some (S i)
        | None => if Ascii.eqb a c then Some 0 else None
        end
    end.
Proof.
  destruct s as [|a s']; [reflexivity|]. cbn [rfind].
  destruct (rfind (chr c) s'); [reflexivity|]. cbn [chr String.prefix].
  destruct (ascii_dec c a) as [->|Hne].
  - now rewrite prefix_nil, Ascii.eqb_refl.
  - destruct (Ascii.eqb_spec a c); [congruence | reflexivity].
Qed.

Lemma find_chr_Some (c : ascii) (s : string) :
  forall i, find (chr c) s = Some i ->
    i < String.length s
    /\ s = str_take i s +:+ String c (str_drop (S i) s)
    /\ every (isNot c) (str_take i s) = true.
Proof.
  induction s as [|a s IH]; intros i; rewrite find_chr; [discriminate|].
  destruct (Ascii.eqb_spec a c) as [->|Hne].
  - intros [= <-]. simpl. split_and!; [lia | reflexivity | reflexivity].
  - destruct (find (chr c) s) as [k|]; [|discriminate]. intros [= <-].
    destruct (IH k eq_refl) as (Hk & Hs & Hpre).
    cbn [String.length str_take every]. change (str_drop (S (S k)) (String a s)) with (str_drop (S k) s).
    split_and!; [lia | | ].
    + rewrite append_cons. now rewrite <- Hs.
    + unfold isNot at 1. destruct (Ascii.eqb_spec a c); [congruence | exact Hpre].
Qed.

Lemma find_chr_None (c : ascii) (s : string) :
  find (chr c) s = None -> every (isNot c) s = true.
Proof.
  induction s as [|a s IH]; rewrite find_chr; [reflexivity|]. simpl. unfold isNot at 1.
  destruct (Ascii.eqb a c); [discriminate|].
  destruct (find (chr c) s); [discriminate|]. intros _. now apply IH.
Qed.

Lemma rfind_chr_Some (c : ascii) (s : string) :
  forall j, rfind (chr c) s = Some j ->
    j < String.length s
    /\ s = str_take j s +:+ String c (str_drop (S j) s)
    /\ every (isNot c) (str_drop (S j) s) = true.
Proof.
  induction s as [|a s IH]; intros j; rewrite rfind_chr; [discriminate|].
  destruct (rfind (chr c) s) as [k|] eqn:Hk.
  - intros [= <-]. destruct (IH k eq_refl) as (Hlt & Hs & Hpost).
    cbn [String.length str_take]. change (str_drop (S (S k)) (String a s)) with (str_drop (S k) s).
    split_and!; [lia | | exact Hpost]. rewrite append_cons. now rewrite <- Hs.
  - destruct (Ascii.eqb_spec a c) as [->|Hne]; [|discriminate]. intros [= <-]. simpl.
    split_and!; [lia | reflexivity |].
    clear IH. induction s as [|b s IHs]; [reflexivity|].
    rewrite rfind_chr in Hk. simpl. unfold isNot at 1.
    destruct (rfind (chr c) s); [discriminate|].
    destruct (Ascii.eqb b c); [discriminate|]. now apply IHs.
Qed.

(** Where a character occurs, between its first and its last place. *)
Lemma first_place (c : ascii) (i : nat) (s A B : string) :
  every (isNot c) (str_take i s) = true -> s = A +:+ String c B -> i <= String.length A.
Proof.
  intros Hpre ->. destruct (Nat.le_gt_cases i (String.length A)) as [|Hgt]; [assumption|].
  rewrite str_take_app_ge in Hpre by lia.
  destruct (i - String.length A) as [|k] eqn:Hk; [lia|].
  rewrite every_app in Hpre. simpl in Hpre. unfold isNot at 2 in Hpre.
  rewrite Ascii.eqb_refl in Hpre. simpl in Hpre. now rewrite andb_false_r in Hpre.
Qed.

Lemma last_place (c : ascii) (j : nat) (s A B : string) :
  every (isNot c) (str_drop (S j) s) = true -> s = A +:+ String c B -> String.length A <= j.
Proof.
  intros Hpost ->. destruct (Nat.le_gt_cases (String.length A) j) as [|Hgt]; [assumption|].
  rewrite str_drop_app_le in Hpost by lia.
  rewrite every_app in Hpost. simpl in Hpost. unfold isNot at 2 in Hpost.
  rewrite Ascii.eqb_refl in Hpost. simpl in Hpost. now rewrite andb_false_r in Hpost.
Qed.

(** A pattern that cannot begin with any character of the text, nor
    match the empty text, matches nowhere. *)
Lemma exec_None_by_head (total : nat) (r : regex) (p : ascii -> bool) :
  (forall c s, p c = false -> matchHere total r (String c s) = None) ->
  matchHere total r "" = None ->
  forall (s : string) (i : nat),
    every (fun c => negb (p c)) s = true -> exec total r s i = None.
Proof.
  intros Hhead Hnil. induction s as [|c s IH]; intros i Hs; cbn [exec].
  - now rewrite Hnil.
  - simpl in Hs. apply andb_true_iff in Hs as [Hc Hs].
    rewrite Hhead by (now apply negb_true_iff). now apply IH.
Qed.

Lemma exec_None_Seq_Chr (total : nat) (p : ascii -> bool) (r : regex) :
  forall (s : string) (i : nat),
    every (fun c => negb (p c)) s = true -> exec total (Seq (Chr p) r) s i = None.
Proof.
  apply exec_None_by_head; [|reflexivity].
  intros c s Hc. unfold matchHere. cbn [rmatch]. now rewrite Hc.
Qed.

End Brackets.

(** ** The JSON text taken out of a model's reply *)

Section JsonExtraction.
Import JS Gemini.

Lemma rfind_chr_None (c : ascii) (s : string) :
  rfind (chr c) s = None -> every (isNot c) s = true.
Proof.
  induction s as [|a s IH]; rewrite rfind_chr; [reflexivity|]. simpl. unfold isNot at 1.
  destruct (rfind (chr c) s); [discriminate|].
  destruct (Ascii.eqb a c); [discriminate|]. intros _. now apply IH.
Qed.

Lemma str_take_add (a b : nat) (s : string) :
  str_take (a + b) s = str_take a s +:+ str_take b (str_drop a s).
Proof.
  revert s; induction a as [|a IH]; intros s.
  - now rewrite str_drop_0.
  - destruct s as [|c s]; [now destruct b|]. simpl. now rewrite append_cons, IH.
Qed.

Lemma str_drop_split (i : nat) (s a b : string) :
  s = a +:+ b -> String.length a = i -> str_drop i s = b.
Proof. intros -> <-. apply str_drop_append. Qed.

Lemma toLower_backtick (c : ascii) :
  Ascii.eqb c "`" = false -> Ascii.eqb (toLower c) (toLower "`") = false.
Proof.
  destruct c as [[] [] [] [] [] [] [] []]; vm_compute; congruence.
Qed.

Lemma fencedJson_needs_backtick (text : string) :
  every (isNot "`") text = true -> match_ text fencedJson = None.
Proof.
  intros Htext. unfold match_.
  apply (exec_None_by_head _ _ (fun c => Ascii.eqb c "`")); [| reflexivity | exact Htext].
  intros c s Hc. unfold matchHere, fencedJson. cbn [Seqs LitI rmatch CharI].
  now rewrite (toLower_backtick c Hc).
Qed.

(** The slice from the first opening brace to the last closing brace. *)
Lemma braces_shape (text : string) :
  let start := indexOf text "{" 0 in
  let end_ := lastIndexOf text "}" in
  if (start >=? 0)%Z && (end_ >? start)%Z
  then exists pre inner post,
         slice text start (end_ + 1) = "{" +:+ inner +:+ "}"
         /\ text = pre +:+ slice text start (end_ + 1) +:+ post
         /\ every (isNot "{") pre = true /\ every (isNot "}") post = true
  else forall pre mid post, text <> pre +:+ "{" +:+ mid +:+ "}" +:+ post.
Proof.
  unfold indexOf, lastIndexOf. rewrite str_drop_0.
  change "{" with (chr "{"). change "}" with (chr "}").
  destruct (find (chr "{") text) as [i|] eqn:Hi.
  - destruct (find_chr_Some _ _ _ Hi) as (Hilt & Hisplit & Hipre).
    destruct (rfind (chr "}") text) as [j|] eqn:Hj.
    + destruct (rfind_chr_Some _ _ _ Hj) as (Hjlt & Hjsplit & Hjpost).
      destruct (Z.geb_spec (Z.of_nat (0 + i)) 0); [|lia]. cbn [andb].
      destruct (Z.gtb_spec (Z.of_nat j) (Z.of_nat (0 + i))) as [Hij|Hij].
      * rewrite slice_inside by (unfold len; lia).
        replace (Z.to_nat (Z.of_nat j + 1 - Z.of_nat (0 + i))) with (1 + (j - i - 1) + 1) by lia.
        replace (Z.to_nat (Z.of_nat (0 + i))) with i by lia.
        exists (str_take i text), (str_take (j - i - 1) (str_drop (S i) text)),
               (str_drop (S j) text).
        assert (Hopen : str_take 1 (str_drop i text) = chr "{").
        { rewrite (str_drop_split i text _ _ Hisplit) by (rewrite length_str_take; lia).
          reflexivity. }
        assert (Hclose : str_take 1 (str_drop j text) = chr "}").
        { rewrite (str_drop_split j text _ _ Hjsplit) by (rewrite length_str_take; lia).
          reflexivity. }
        split_and!; [| | exact Hipre | exact Hjpost].
        -- rewrite !str_take_add, !str_drop_drop, Hopen.
           replace (i + (1 + (j - i - 1))) with j by lia.
           replace (i + 1) with (S i) by lia.
           now rewrite Hclose, append_assoc.
        -- rewrite <- (take_drop_id i text) at 1. f_equal.
           rewrite <- (take_drop_id (1 + (j - i - 1) + 1) (str_drop i text)) at 1. f_equal.
           rewrite str_drop_drop. f_equal. lia.
      * intros pre mid post Heq.
        pose proof (first_place "{" i text pre (mid +:+ "}" +:+ post) Hipre Heq) as Hfirst.
        assert (Heq' : text = (pre +:+ "{" +:+ mid) +:+ String "}" post).
        { rewrite Heq. now rewrite !append_assoc. }
        pose proof (last_place "}" j text _ post Hjpost Heq') as Hlast.
        rewrite !length_append in Hlast. simpl in Hlast. lia.
    + cbn [andb]. destruct (Z.geb_spec (Z.of_nat (0 + i)) 0); [|lia].
      destruct (Z.gtb_spec (-1) (Z.of_nat (0 + i))); [lia|]. cbn [andb].
      intros pre mid post Heq. apply rfind_chr_None in Hj. rewrite Heq in Hj.
      rewrite !every_app in Hj. simpl in Hj. rewrite !andb_false_r in Hj. discriminate.
  - simpl. intros pre mid post Heq. apply find_chr_None in Hi. rewrite Heq in Hi.
    rewrite !every_app in Hi. simpl in Hi. rewrite !andb_false_r in Hi. discriminate.
Qed.

End JsonExtraction.

(** X11. What [extractJsonObject] hands to the JSON parser: never the
    empty text; and for a reply without backtick (so without code
    fence) it is the part of the reply from its first opening brace to
    its last closing brace, both included, when an opening brace comes
    before a closing one, and nothing when no opening brace is followed
    by a closing one. *)
Theorem extractJsonObject_shape (text : string) :
  (forall jsonText, Gemini.extractJsonObject text = Some jsonText -> jsonText <> "")
  /\ (every (isNot "`") text = true ->
      match Gemini.extractJsonObject text with
      | Some jsonText =>
          exists pre inner post,
            jsonText = "{" +:+ inner +:+ "}"
            /\ text = pre +:+ jsonText +:+ post
            /\ every (isNot "{") pre = true /\ every (isNot "}") post = true
      | None => forall pre mid post, text <> pre +:+ "{" +:+ mid +:+ "}" +:+ post
      end).
Proof.
  pose proof (braces_shape text) as Hbraces. cbv zeta in Hbraces.
  unfold Gemini.extractJsonObject. split.
  - intros jsonText.
    destruct (match JS.match_ text Gemini.fencedJson with
              | Some m => JS.capture 1 (JS.m_groups m)
              | None => None
              end) as [[|c fenced]|].
    + destruct (_ && _); [|discriminate]. intros [= <-].
      destruct Hbraces as (pre & inner & post & -> & _). discriminate.
    + intros [= <-]. discriminate.
    + destruct (_ && _); [|discriminate]. intros [= <-].
      destruct Hbraces as (pre & inner & post & -> & _). discriminate.
  - intros Htext. rewrite (fencedJson_needs_backtick text Htext).
    destruct (_ && _); exact Hbraces.
Qed.

(** ** Source fragments: what the used numbers are read as *)

Section SourceNumbers.
Import JS Retrieval Route.

Lemma normalizedNumbers_spec (chunks : list RetrievedChunk) (usedSourceNumbers : list number) :
  exists numbers,
    normalizedNumbers chunks usedSourceNumbers = Int <$> numbers
    /\ StronglySorted Z.le numbers /\ NoDup numbers
    /\ (forall z, z ∈ numbers <->
                  Int z ∈ usedSourceNumbers /\ (1 <= z <= Z.of_nat (length chunks))%Z).
Proof.
  unfold normalizedNumbers, unique.
  destruct (uniqueLoop_spec usedSourceNumbers []) as [Hnd Hin].
  destruct (filtered_Int (Z.of_nat (length chunks)) (uniqueLoop usedSourceNumbers []))
    as (zs & Hzs & Hzin & Hznd).
  rewrite Hzs. unfold sort.
  destruct (sort_Int zs [] ltac:(constructor)) as (numbers & Hsort & Hsorted & Hperm).
  simpl in Hsort, Hperm. rewrite Hsort. exists numbers. split_and!; auto.
  - rewrite Hperm. now apply Hznd.
  - intros z. rewrite Hperm, Hzin, Hin. rewrite elem_of_nil. tauto.
Qed.

Lemma length_mapResult {A B : Type} (f : A -> result B) (xs : list A) (ys : list B) :
  mapResult f xs = Ok ys -> length ys = length xs.
Proof.
  revert ys; induction xs as [|x xs IH]; intros ys; simpl.
  - now intros [= <-].
  - destruct (f x) as [y|e]; [|discriminate]. cbn [JS.bind].
    destruct (mapResult f xs) as [ys'|e]; [|discriminate]. cbn [JS.bind].
    intros [= <-]. simpl. now rewrite (IH ys' eq_refl).
Qed.

End SourceNumbers.

(** X12. Only the set of usable numbers counts: two arrays of used
    source numbers that hold the same integers of [1 .. length chunks]
    give the same fragments, whatever their order, their duplicates,
    and their other entries (fractions, zero, negative or too large
    numbers). *)
Theorem getSourceFragmentsByNumber_by_set
    (chunks : list Retrieval.RetrievedChunk) (used used' : list JS.number) :
  (forall z, (1 <= z <= Z.of_nat (length chunks))%Z -> JS.Int z ∈ used <-> JS.Int z ∈ used') ->
  Route.getSourceFragmentsByNumber chunks used = Route.getSourceFragmentsByNumber chunks used'.
Proof.
  intros Hsame. unfold Route.getSourceFragmentsByNumber. f_equal.
  destruct (normalizedNumbers_spec chunks used) as (numbers & -> & Hsorted & Hnd & Hin).
  destruct (normalizedNumbers_spec chunks used') as (numbers' & -> & Hsorted' & Hnd' & Hin').
  f_equal. apply (StronglySorted_unique Z.le); [exact Hsorted | exact Hsorted' |].
  apply NoDup_Permutation; [exact Hnd | exact Hnd' |].
  intros z. rewrite Hin, Hin'. split; intros [Hz Hrange]; (split; [|exact Hrange]);
    now apply (Hsame z Hrange).
Qed.

Lemma getSourceFragmentsByNumber_by_set_witness :
  Route.getSourceFragmentsByNumber [storedChunk]
    [JS.Int 1; JS.Int 7; JS.NonInt "1.5"; JS.Int 1; JS.Int 0]
  = Route.getSourceFragmentsByNumber [storedChunk] [JS.Int 1].
Proof.
  apply (getSourceFragmentsByNumber_by_set [storedChunk]). simpl. intros z Hz.
  assert (z = 1%Z) as -> by lia. split; intros _; repeat constructor.
Defined.

(** X13. Never more fragments than chunks, and none without numbers:
    the list of fragments [getSourceFragmentsByNumber] returns is not
    longer than the list of chunks, and it is empty when no source
    number is given or when no chunk was retrieved. *)
Theorem getSourceFragmentsByNumber_bounded
    (chunks : list Retrieval.RetrievedChunk) (usedSourceNumbers : list JS.number) :
  exists fragments,
    Route.getSourceFragmentsByNumber chunks usedSourceNumbers = JS.Ok fragments
    /\ length fragments <= length chunks
    /\ (usedSourceNumbers = [] \/ chunks = [] -> fragments = []).
Proof.
  unfold Route.getSourceFragmentsByNumber.
  destruct (normalizedNumbers_spec chunks usedSourceNumbers)
    as (numbers & Hnumbers & Hsorted & Hnd & Hin).
  rewrite Hnumbers.
  destruct (mapResult_in_bounds chunks numbers) as (fragments & Hrun & _).
  { intros z Hz. now apply Hin in Hz. }
  exists fragments. split; [exact Hrun|].
  assert (Hlen : length fragments = length numbers).
  { rewrite (length_mapResult _ _ _ Hrun). apply length_fmap. }
  split.
  - rewrite Hlen.
    assert (Hsub : numbers ⊆+ seqZ 1 (Z.of_nat (length chunks))).
    { apply NoDup_submseteq; [exact Hnd|]. intros z Hz. apply Hin in Hz as [_ Hz].
      apply elem_of_seqZ. lia. }
    apply submseteq_length in Hsub. rewrite length_seqZ in Hsub. lia.
  - intros Hempty. destruct numbers as [|z numbers]; [now destruct fragments|].
    exfalso. destruct (proj1 (Hin z) ltac:(now left)) as [Hz Hrange].
    destruct Hempty as [-> | ->]; [now apply elem_of_nil in Hz | simpl in Hrange; lia].
Qed.

(** ** Stream segmentation: the size of a segment *)

Section SegmentSize.
Import JS Route.

Lemma exec_upTo120_Some (total : nat) (s : string) :
  forall (i : nat) (m : match_result),
    exec total upTo120 s i = Some m -> String.length (m_text m) <= 120.
Proof.
  induction s as [|c s IH]; intros i m; cbn [exec]; rewrite matchHere_upTo120.
  - discriminate.
  - set (n := Nat.min 120 (lead isDot (String c s))).
    assert (Hn : n <= 120 /\ n <= String.length (String c s)).
    { subst n. pose proof (lead_le_length isDot (String c s)). lia. }
    clearbody n. destruct (1 <=? n).
    + intros [= <-]. cbn [m_text].
      rewrite consumed_str_drop by lia. rewrite length_str_take. lia.
    + apply IH.
Qed.

Lemma exec_upTo120_None (total : nat) (s : string) :
  forall i, exec total upTo120 s i = None -> every isLineTerminator s = true.
Proof.
  induction s as [|c s IH]; intros i; cbn [exec]; rewrite matchHere_upTo120; [reflexivity|].
  cbn [lead every]. unfold isDot at 1.
  destruct (isLineTerminator c); cbn [negb andb]; [apply IH | discriminate].
Qed.

Lemma matches_upTo120_bound (total fuel : nat) :
  forall (s : string) (i : nat),
    Forall (fun m => String.length (m_text m) <= 120) (matches fuel total upTo120 s i).
Proof.
  induction fuel as [|fuel IH]; intros s i; cbn [matches]; [constructor|].
  destruct (exec total upTo120 s i) as [m|] eqn:Hexec; [|constructor].
  pose proof (exec_upTo120_Some total s i m Hexec) as Hm.
  destruct (m_text m) eqn:Htext; destruct (m_rest m);
    constructor; try (rewrite Htext; exact Hm); try constructor; apply IH.
Qed.

Lemma matches_nil (total fuel : nat) (r : regex) (s : string) (i : nat) :
  matches (S fuel) total r s i = [] -> exec total r s i = None.
Proof.
  cbn [matches]. destruct (exec total r s i) as [m|]; [|reflexivity].
  destruct (m_text m); destruct (m_rest m); discriminate.
Qed.

Lemma lineTerminators_blank (s : string) : every isLineTerminator s = true -> trim s = "".
Proof.
  intros Hs. apply trim_blank. revert Hs. apply every_impl.
  intros c. unfold isLineTerminator, isWhiteSpace.
  destruct (Ascii.eqb c LF), (Ascii.eqb c CR); simpl; try discriminate;
    rewrite ?orb_true_r; reflexivity.
Qed.

Lemma segments_size (part segment : string) :
  segment ∈ segments part -> String.length segment <= 120 \/ trim segment = "".
Proof.
  unfold segments. destruct (truthy (trim part)) eqn:Hpart; cbn [negb].
  - unfold matchAll.
    destruct (matches (S (String.length part)) (String.length part) upTo120 part 0)
      as [|m ms] eqn:Hms.
    + apply matches_nil, exec_upTo120_None, lineTerminators_blank in Hms.
      rewrite Hms in Hpart. discriminate.
    + cbn [default]. intros Hsegment. left.
      apply list_elem_of_In, in_map_iff in Hsegment as (m' & <- & Hm').
      pose proof (matches_upTo120_bound (String.length part) (S (String.length part)) part 0)
        as Hall.
      rewrite Hms in Hall. now apply (proj1 (Forall_forall _ _) Hall), list_elem_of_In.
  - intros Hsegment. apply list_elem_of_singleton in Hsegment as ->.
    right. now apply truthy_false.
Qed.

End SegmentSize.

(** X14. The size of a streamed segment: no segment [splitForStream]
    returns is empty, and every segment has at most 120 characters
    unless it consists of white space only (a run of line feeds, or a
    blank line, is sent whole). *)
Theorem splitForStream_segment_size (text : string) :
  Forall (fun segment =>
            segment <> "" /\ (String.length segment <= 120 \/ JS.trim segment = ""))
         (Route.splitForStream text).
Proof.
  apply Forall_forall. intros segment Hsegment. unfold Route.splitForStream in Hsegment.
  apply list_elem_of_filter in Hsegment as [Htruthy Hsegment]. split; [now apply truthy_true|].
  apply list_elem_of_In, in_concat in Hsegment as (parts & Hparts & Hin).
  apply in_map_iff in Hparts as (part & <- & _).
  apply (segments_size part). now apply list_elem_of_In.
Qed.

(** ** Markdown normalization of plain text *)

Section PlainText.
Import JS Route.

Lemma every_isNot_sym (c : ascii) (s : string) :
  every (isNot c) s = true -> every (fun a => negb (Ascii.eqb c a)) s = true.
Proof.
  apply every_impl. intros a. unfold isNot. now rewrite Ascii.eqb_sym.
Qed.

(** A two-character pattern finds nothing in a text without its first
    character: nothing is replaced, nothing is counted. *)
Lemma matches_absent (c : ascii) (r : regex) (s : string) (fuel : nat) :
  every (isNot c) s = true ->
  matches fuel (String.length s) (Seq (Char c) r) s 0 = [].
Proof.
  intros Hs. destruct fuel as [|fuel]; [reflexivity|]. cbn [matches].
  unfold Char. now rewrite exec_None_Seq_Chr by (now apply every_isNot_sym).
Qed.

Lemma replaceAll_absent (c : ascii) (r : regex) (replacement s : string) :
  every (isNot c) s = true -> replaceAll s (Seq (Char c) r) replacement = s.
Proof.
  intros Hs. unfold replaceAll. now rewrite matches_absent.
Qed.

Lemma countMatches_absent (c : ascii) (r : regex) (s : string) :
  every (isNot c) s = true -> countMatches s (Seq (Char c) r) = 0.
Proof.
  intros Hs. unfold countMatches, matchAll. now rewrite matches_absent.
Qed.

End PlainText.

(** X15. Markdown normalization leaves plain text alone: an answer
    without backslash only has its CR LF pairs turned into LF (no
    escaped newline or tab is looked for), and an answer without
    backslash and without carriage return is returned as it is. *)
Theorem normalizeAssistantMarkdown_plain (text : string) :
  (every (isNot JS.BACKSLASH) text = true ->
   Route.normalizeAssistantMarkdown text = JS.replaceAll text Rag.CRLF (JS.chr JS.LF))
  /\ (every (isNot JS.BACKSLASH) text = true -> every (isNot JS.CR) text = true ->
      Route.normalizeAssistantMarkdown text = text).
Proof.
  assert (Hfirst : every (isNot JS.BACKSLASH) text = true ->
                   Route.normalizeAssistantMarkdown text
                   = JS.replaceAll text Rag.CRLF (JS.chr JS.LF)).
  { intros Hplain. unfold Route.normalizeAssistantMarkdown.
    assert (Hnormalized : every (isNot JS.BACKSLASH) (JS.replaceAll text Rag.CRLF (JS.chr JS.LF))
                          = true).
    { apply every_substitute; [reflexivity | exact Hplain]. }
    unfold Route.escapedNewline. now rewrite (countMatches_absent _ _ _ Hnormalized). }
  split; [exact Hfirst|].
  intros Hplain Hcr. rewrite (Hfirst Hplain). unfold Rag.CRLF. now apply replaceAll_absent.
Qed.

(** ** Generation: how many requests, and to which model *)

Section Requests.
Import JS Gemini Route.

(** The test [finishReason === "MAX_TOKENS"]. *)
Lemma onMaxTokens {A : Type} (reason : option string) (retry otherwise : A) :
  (reason = Some "MAX_TOKENS" ->
   match reason with Some "MAX_TOKENS" => retry | _ => otherwise end = retry)
  /\ (reason <> Some "MAX_TOKENS" ->
      match reason with Some "MAX_TOKENS" => retry | _ => otherwise end = otherwise).
Proof.
  split; [now intros ->|]. intros Hne. destruct reason as [s|]; [|reflexivity].
  do 10 (destruct s as [|[b0 b1 b2 b3 b4 b5 b6 b7] s]; [reflexivity|];
         destruct b0, b1, b2, b3, b4, b5, b6, b7; try reflexivity).
  destruct s; [now destruct Hne | reflexivity].
Qed.

Lemma generateFinalAnswer_cases (backend : Backend)
    (finalModel systemInstruction userPrompt : string) (budget : Z) (log : list GeminiRequest) :
  let request1 := firstRequest finalModel systemInstruction userPrompt budget in
  let request2 := retryRequest finalModel systemInstruction userPrompt budget in
  generateFinalAnswer backend finalModel systemInstruction userPrompt budget log
  = match backend (log ++ [request1]) with
    | Throw e => (Throw e, log ++ [request1])
    | Ok first =>
        if decide (finishReason first = Some "MAX_TOKENS")
        then (backend (log ++ [request1; request2]), log ++ [request1; request2])
        else (Ok first, log ++ [request1])
    end.
Proof.
  intros request1 request2.
  unfold generateFinalAnswer, Gemini.bind, generateGeminiTextWithMeta.
  fold (firstRequest finalModel systemInstruction userPrompt budget). fold request1.
  fold (retryRequest finalModel systemInstruction userPrompt budget). fold request2.
  destruct (backend (log ++ [request1])) as [first|e]; [|reflexivity].
  destruct (decide (finishReason first = Some "MAX_TOKENS")) as [Hmax|Hother].
  - rewrite (proj1 (onMaxTokens _ _ _) Hmax). now rewrite <- app_assoc.
  - now rewrite (proj2 (onMaxTokens _ _ _) Hother).
Qed.

(** The requests a step adds to the log. *)
Lemma generateFinalAnswer_requests (backend : Backend)
    (finalModel systemInstruction userPrompt : string) (budget : Z) (log : list GeminiRequest) :
  let request1 := firstRequest finalModel systemInstruction userPrompt budget in
  let request2 := retryRequest finalModel systemInstruction userPrompt budget in
  exists requests,
    snd (generateFinalAnswer backend finalModel systemInstruction userPrompt budget log)
    = log ++ requests
    /\ (requests = [request1] \/ requests = [request1; request2]).
Proof.
  intros request1 request2. rewrite generateFinalAnswer_cases. fold request1 request2.
  destruct (backend (log ++ [request1])) as [first|e]; [|eauto].
  destruct (decide _); eauto.
Qed.

Lemma parseOrRepair_requests (backend : Backend) (finalModel finalAnswer : string)
    (log : list GeminiRequest) :
  exists parsedFinal requests,
    parseOrRepair backend finalModel finalAnswer log = (Ok parsedFinal, log ++ requests)
    /\ (requests = [] \/ requests = [repairRequest finalModel finalAnswer]).
Proof.
  destruct (parseOrRepair_returns backend finalModel finalAnswer log)
    as (parsedFinal & log' & Hrun & Hok & Hrepair).
  destruct (ok (parseFinalModelOutput finalAnswer)) eqn:Hfirst.
  - destruct (Hok eq_refl) as [_ ->]. exists parsedFinal, []. rewrite app_nil_r. auto.
  - destruct (Hrepair eq_refl) as [-> _]. eauto.
Qed.

Lemma getSourceFragmentsByNumber_returns (chunks : list Retrieval.RetrievedChunk)
    (usedSourceNumbers : list number) :
  exists fragments, getSourceFragmentsByNumber chunks usedSourceNumbers = Ok fragments.
Proof.
  unfold getSourceFragmentsByNumber.
  destruct (normalizedNumbers_spec chunks usedSourceNumbers) as (numbers & -> & _ & _ & Hin).
  destruct (mapResult_in_bounds chunks numbers) as (fragments & Hrun & _); [|eauto].
  intros z Hz. now apply Hin in Hz.
Qed.

End Requests.

(** X16. The retry rule of the final generation, for every backend and
    every budget: a failed first call is the failure of the step; a
    first answer whose finish reason is not MAX_TOKENS is returned
    after that one request; a first answer cut off at MAX_TOKENS is
    dropped, one retry is issued, and the outcome of the retry is the
    outcome of the step, also when the retry fails or is cut off again
    (there is no third call). *)
Theorem generateFinalAnswer_retry_rule (backend : Gemini.Backend)
    (finalModel systemInstruction userPrompt : string) (budget : Z)
    (log : list Gemini.GeminiRequest) :
  let request1 := firstRequest finalModel systemInstruction userPrompt budget in
  let request2 := retryRequest finalModel systemInstruction userPrompt budget in
  let run := Route.generateFinalAnswer backend finalModel systemInstruction userPrompt budget log in
  (forall e, backend (log ++ [request1]) = JS.Throw e -> run = (JS.Throw e, log ++ [request1]))
  /\ (forall first,
        backend (log ++ [request1]) = JS.Ok first ->
        Gemini.finishReason first <> Some "MAX_TOKENS" ->
        run = (JS.Ok first, log ++ [request1]))
  /\ (forall first,
        backend (log ++ [request1]) = JS.Ok first ->
        Gemini.finishReason first = Some "MAX_TOKENS" ->
        run = (backend (log ++ [request1; request2]), log ++ [request1; request2])).
Proof.
  intros request1 request2 run. subst run. rewrite generateFinalAnswer_cases.
  fold request1 request2. split_and!.
  - now intros e ->.
  - intros first -> Hother. now destruct (decide _).
  - intros first -> Hmax. now destruct (decide _).
Qed.

(** X17. The request budget of the answering stage: from the final
    generation to the stream it issues at least one and at most three
    generation requests (the first call, its retry, the repair call),
    the first one is the first call, and every one of them goes to the
    chosen final model. *)
Theorem answerQuestion_request_budget (backend : Gemini.Backend)
    (contextChunks : list Retrieval.RetrievedChunk)
    (finalModel systemInstruction userPrompt : string) (budget : Z)
    (log : list Gemini.GeminiRequest) :
  exists requests,
    snd (Route.answerQuestion backend contextChunks finalModel systemInstruction userPrompt
           budget log)
    = log ++ requests
    /\ 1 <= length requests <= 3
    /\ head requests = Some (firstRequest finalModel systemInstruction userPrompt budget)
    /\ Forall (fun request => Gemini.model request = finalModel) requests.
Proof.
  unfold Route.answerQuestion, Gemini.bind.
  destruct (generateFinalAnswer_requests backend finalModel systemInstruction userPrompt
              budget log) as (generated & Hlog & Hgenerated).
  destruct (Route.generateFinalAnswer _ _ _ _ _ _) as [[first|e] log1]; simpl in Hlog; subst log1.
  - destruct (parseOrRepair_requests backend finalModel (Gemini.text first) (log ++ generated))
      as (parsedFinal & repair & -> & Hrepair).
    destruct (Route.getSourceFragmentsByNumber _ _); simpl;
      exists (generated ++ repair); rewrite <- app_assoc;
      (split; [reflexivity|]);
      destruct Hgenerated as [-> | ->]; destruct Hrepair as [-> | ->]; simpl;
      (split_and!; [lia | lia | reflexivity | repeat constructor]).
  - exists generated. simpl. split; [reflexivity|].
    destruct Hgenerated as [-> | ->]; simpl;
      (split_and!; [lia | lia | reflexivity | repeat constructor]).
Qed.

(** X18. The outcome of the answering stage: it fails exactly when the
    final generation (the first call or its retry) fails, with that
    failure; a failed repair or an unusable source number never fails
    it. When it returns, the stream is the segments of the normalized
    visible answer followed by one metadata block, and the block lists
    no fragment when the final output could not be parsed. *)
Theorem answerQuestion_outcome (backend : Gemini.Backend)
    (contextChunks : list Retrieval.RetrievedChunk)
    (finalModel systemInstruction userPrompt : string) (budget : Z)
    (log : list Gemini.GeminiRequest) :
  match Route.answerQuestion backend contextChunks finalModel systemInstruction userPrompt
          budget log with
  | (JS.Throw e, log') =>
      Route.generateFinalAnswer backend finalModel systemInstruction userPrompt budget log
      = (JS.Throw e, log')
  | (JS.Ok a, log') =>
      exists generated log1 fragments,
        Route.generateFinalAnswer backend finalModel systemInstruction userPrompt budget log
        = (JS.Ok generated, log1)
        /\ Route.finalAnswer a = Gemini.text generated
        /\ Route.getSourceFragmentsByNumber contextChunks
             (if Route.ok (Route.parsedFinal a)
              then Route.usedSourceNumbers (Route.parsedFinal a) else [])
           = JS.Ok fragments
        /\ Route.stream a
           = Route.splitForStream (Route.normalizeAssistantMarkdown (Route.visibleAnswer a))
             ++ [Route.metadataMarker fragments]
        /\ (Route.ok (Route.parsedFinal a) = false -> fragments = [])
  end.
Proof.
  unfold Route.answerQuestion, Gemini.bind.
  destruct (Route.generateFinalAnswer _ _ _ _ _ _) as [[generated|e] log1]; [|reflexivity].
  destruct (parseOrRepair_requests backend finalModel (Gemini.text generated) log1)
    as (parsedFinal & repair & -> & _).
  destruct (getSourceFragmentsByNumber_returns contextChunks
              (if Route.ok parsedFinal then Route.usedSourceNumbers parsedFinal else []))
    as (fragments & Hfragments).
  rewrite Hfragments. exists generated, log1, fragments. cbn.
  split_and!; try reflexivity; [exact Hfragments|].
  intros Hok. rewrite Hok in Hfragments. now injection Hfragments as <-.
Qed.

(** ** The client, while the stream arrives *)

Section Receiving.
Import JS.

Lemma find_bound (pat s : string) :
  forall i, find pat s = Some i -> i <= String.length s.
Proof.
  induction s as [|a s IH]; intros i; cbn [find].
  - destruct (String.prefix pat ""); [intros [= <-]; simpl; lia | discriminate].
  - destruct (String.prefix pat (String a s)); [intros [= <-]; simpl; lia|].
    destruct (find pat s) as [k|]; [|discriminate]. intros [= <-].
    specialize (IH k eq_refl). simpl. lia.
Qed.

Lemma parsePayloadJson_content (content_ jsonText : string) (payload : Client.Payload) :
  Client.parsePayloadJson content_ jsonText = Ok payload ->
  Client.content payload = content_ /\ Client.sourceFragments payload <> Some [].
Proof.
  unfold Client.parsePayloadJson. destruct (JSON_parse jsonText) as [parsed|e]; [|discriminate].
  cbn [JS.bind]. destruct (getProp parsed "sourceFragments") as [found|e]; [|discriminate].
  cbn [JS.bind]. intros [= <-]. split; [reflexivity|]. cbn [Client.sourceFragments].
  destruct found as [[| | | |items|]|]; try discriminate.
  destruct (Client.fragmentsOf items); discriminate.
Qed.

Lemma parseAssistantPayload_unmarked (raw : string) :
  find Client.RAG_CONTEXT_START raw = None ->
  Client.parseAssistantPayload raw = {| Client.content := raw; Client.sourceFragments := None |}.
Proof.
  intros Hnone. unfold Client.parseAssistantPayload, indexOf. now rewrite str_drop_0, Hnone.
Qed.


End Receiving.

(** X19. What the client shows of a raw text: the content is the text
    before the first start marker, or the whole text when there is no
    start marker, whatever follows the marker (no end marker yet, JSON
    that does not parse, fragments or none); and the fragments shown
    are never an empty list (none at all instead). *)
Theorem parseAssistantPayload_content (raw : string) :
  Client.content (Client.parseAssistantPayload raw)
  = match JS.find Client.RAG_CONTEXT_START raw with
    | Some i => JS.str_take i raw
    | None => raw
    end
  /\ Client.sourceFragments (Client.parseAssistantPayload raw) <> Some [].
Proof.
  destruct (JS.find Client.RAG_CONTEXT_START raw) as [i|] eqn:Hstart.
  - assert (Hindex : JS.indexOf raw Client.RAG_CONTEXT_START 0 = Z.of_nat i).
    { unfold JS.indexOf. now rewrite str_drop_0, Hstart. }
    unfold Client.parseAssistantPayload. rewrite Hindex.
    pose proof (find_bound _ _ _ Hstart) as Hi.
    destruct (Z.eqb_spec (Z.of_nat i) (-1)); [lia|].
    assert (Hslice : JS.slice raw 0 (Z.of_nat i) = JS.str_take i raw).
    { rewrite slice_inside by (unfold JS.len; lia). change (Z.to_nat 0) with 0.
      rewrite str_drop_0. f_equal. lia. }
    rewrite Hslice.
    destruct (_ =? -1)%Z; [split; [reflexivity | discriminate]|].
    destruct (Client.parsePayloadJson _ _) as [payload|e] eqn:Hparse;
      [|split; [reflexivity | discriminate]].
    exact (parsePayloadJson_content _ _ _ Hparse).
  - rewrite (parseAssistantPayload_unmarked raw Hstart). split; [reflexivity | discriminate].
Qed.



(** ** The prompt's reference notes and the fragments shown *)

Section ReferenceNotes.
Import JS Retrieval Route.

(** The title and the URL are read from the metadata in the same way
    for the prompt and for the fragments. *)
Lemma metadataString_trimmedString (chunk : RetrievedChunk) (key : string) :
  metadataString (metadata chunk) key
  = trimmedString (getPropOpt (option_map JObj (metadata chunk)) key).
Proof.
  unfold metadataString, trimmedString. destruct (metadata chunk) as [members|]; [|reflexivity].
  cbn [option_map getPropOpt].
  destruct (lookupMember key members) as [[| | |value| |]|]; try reflexivity.
  now destruct (trim value).
Qed.

Lemma trimmedString_nonempty (v : option json) (s : string) :
  trimmedString v = Some s -> s <> "".
Proof.
  unfold trimmedString. destruct v as [[| | |value| |]|]; try discriminate.
  destruct (truthy (trim value)) eqn:Hvalue; [|discriminate].
  intros [= <-]. now apply truthy_true.
Qed.

Lemma joinWith_lookup (separator : string) (parts : list string) :
  forall (i : nat) (part : string),
    parts !! i = Some part ->
    exists before after, joinWith separator parts = before +:+ part +:+ after.
Proof.
  induction parts as [|p parts IH]; intros i part Hi; [discriminate|].
  destruct i as [|i].
  - injection Hi as ->. exists "". destruct parts as [|q parts].
    + exists "". simpl. now rewrite append_nil_r.
    + eexists. cbn [joinWith]. rewrite append_nil_l. reflexivity.
  - simpl in Hi. destruct (IH i part Hi) as (before & after & Hjoin).
    destruct parts as [|q parts]; [discriminate|].
    exists (p +:+ separator +:+ before), after.
    change (joinWith separator (p :: q :: parts))
      with (p +:+ separator +:+ joinWith separator (q :: parts)).
    rewrite Hjoin. now rewrite !append_assoc.
Qed.

End ReferenceNotes.

(** X21. The label, the title and the URL the model reads for a chunk
    are those the user is shown for it: for the chunk at index [i] of
    the context, the reference note in the system prompt is the line
    [[i+1] Source: title], a line [URL: url] when the fragment of source
    number [i+1] has a URL, then the chunk's content; the title and the
    URL are exactly those of that fragment, whose title is
    [[i+1] title]; and the note is part of the prompt. *)
Theorem referenceNote_matches_fragment
    (chunks : list Retrieval.RetrievedChunk) (i : nat) (chunk : Retrieval.RetrievedChunk) :
  chunks !! i = Some chunk ->
  let label := "[" +:+ JS.String_ (JS.Int (Z.of_nat i + 1)) +:+ "] " in
  exists fragment titleText,
    Route.sourceFragment chunks (JS.Int (Z.of_nat i + 1)) = JS.Ok fragment
    /\ Route.title fragment = label +:+ titleText
    /\ Retrieval.referenceNote i chunk
       = label +:+ "Source: " +:+ titleText
         +:+ match Route.url fragment with
             | Some u => JS.chr JS.LF +:+ "URL: " +:+ u
             | None => ""
             end
         +:+ JS.chr JS.LF +:+ Retrieval.content chunk
    /\ exists before after,
         Retrieval.buildRagSystemPrompt chunks
         = before +:+ Retrieval.referenceNote i chunk +:+ after.
Proof.
  intros Hchunk label.
  assert (Hat : Route.chunkAt chunks (JS.minus (JS.Int (Z.of_nat i + 1)) (JS.Int 1)) = Some chunk).
  { cbn [JS.minus Route.chunkAt]. destruct (Z.ltb_spec (Z.of_nat i + 1 - 1) 0); [lia|].
    now replace (Z.to_nat (Z.of_nat i + 1 - 1)) with i by lia. }
  unfold Route.sourceFragment. rewrite Hat.
  eexists _, _. split; [reflexivity|]. cbn [Route.title Route.url]. split_and!.
  - subst label. now rewrite !append_assoc.
  - unfold Retrieval.referenceNote. rewrite !metadataString_trimmedString.
    set (meta := option_map JS.JObj (Retrieval.metadata chunk)).
    set (titleText := default (Retrieval.source chunk)
                        (Route.trimmedString (JS.getPropOpt meta "source_title"))).
    destruct (Route.trimmedString (JS.getPropOpt meta "source_url")) as [u|] eqn:Hurl.
    + pose proof (trimmedString_nonempty _ _ Hurl) as Hu.
      replace (JS.truthy u) with true by (symmetry; now apply truthy_true).
      subst label. cbn [JS.filterBoolean JS.truthy JS.joinWith].
      rewrite !append_cons, !append_nil_l. cbn [JS.truthy JS.joinWith JS.chr].
      now right_nested.
    + subst label. cbn [JS.filterBoolean JS.truthy JS.joinWith].
      rewrite !append_cons, !append_nil_l. cbn [JS.truthy JS.joinWith JS.chr].
      now right_nested.
  - assert (Hnote : imap Retrieval.referenceNote chunks !! i
                    = Some (Retrieval.referenceNote i chunk)).
    { rewrite list_lookup_imap, Hchunk. reflexivity. }
    destruct (joinWith_lookup Retrieval.NOTE_SEPARATOR _ _ _ Hnote) as (before & after & Hjoin).
    destruct chunks as [|c0 chunks]; [discriminate|].
    cbv beta iota zeta delta [Retrieval.buildRagSystemPrompt].
    match goal with
    | |- context [JS.joinWith (JS.chr JS.LF) ?lines] =>
        destruct (joinWith_lookup (JS.chr JS.LF) lines 13 _ eq_refl)
          as (before0 & after0 & Hprompt)
    end.
    rewrite Hprompt, Hjoin. exists (before0 +:+ before), (after +:+ after0).
    rewrite !append_assoc. reflexivity.
Qed.

Lemma referenceNote_matches_fragment_witness :
  exists fragment titleText,
    Route.sourceFragment [storedChunk] (JS.Int 1) = JS.Ok fragment
    /\ Route.title fragment = "[1] " +:+ titleText
    /\ Retrieval.referenceNote 0 storedChunk
       = "[1] Source: " +:+ titleText +:+ JS.chr JS.LF +:+ Retrieval.content storedChunk.
Proof.
  destruct (referenceNote_matches_fragment [storedChunk] 0 storedChunk eq_refl)
    as (fragment & titleText & Hfragment & Htitle & Hnote & _).
  exists fragment, titleText. split_and!; [exact Hfragment | exact Htitle |].
  rewrite Hnote. injection Hfragment as <-. reflexivity.
Defined.

(** ** The retrieval queries *)

Section RetrievalQueries.
Import JS Route.

Lemma existsb_eqb (value : string) (set : list string) :
  existsb (String.eqb value) set = true <-> value ∈ set.
Proof.
  rewrite existsb_exists. split.
  - intros (x & Hx & Heq). apply String.eqb_eq in Heq as ->. now apply list_elem_of_In.
  - intros Hin. exists value. split; [now apply list_elem_of_In | apply String.eqb_refl].
Qed.

Lemma setAdd_spec (set : list string) (value : string) :
  (NoDup set -> NoDup (setAdd set value))
  /\ (forall x, x ∈ setAdd set value <-> x ∈ set \/ x = value)
  /\ (exists added, setAdd set value = set ++ added /\ length added <= 1).
Proof.
  unfold setAdd. destruct (existsb (String.eqb value) set) eqn:Hin.
  - apply existsb_eqb in Hin. split_and!; [auto | | exists []; rewrite app_nil_r; split; [reflexivity | simpl; lia]].
    intros x. split; [auto | intros [Hx | ->]; assumption].
  - assert (Hnotin : value ∉ set).
    { intros Hvalue. apply existsb_eqb in Hvalue. congruence. }
    split_and!.
    + intros Hnd. apply NoDup_app. split_and!; [exact Hnd | | apply NoDup_singleton].
      intros x Hx Hx'. apply list_elem_of_singleton in Hx' as ->. contradiction.
    + intros x. rewrite elem_of_app, list_elem_of_singleton. tauto.
    + exists [value]. split; [reflexivity | simpl; lia].
Qed.

Lemma addPlannerQueries_spec (plannerQueries : list string) :
  forall queries,
    (NoDup queries -> NoDup (addPlannerQueries plannerQueries queries))
    /\ (forall x, x ∈ addPlannerQueries plannerQueries queries <->
                  x ∈ queries \/ exists q, q ∈ plannerQueries /\ trim q <> "" /\ x = trim q)
    /\ (exists added, addPlannerQueries plannerQueries queries = queries ++ added
                      /\ length added <= length plannerQueries).
Proof.
  induction plannerQueries as [|q rest IH]; intros queries; cbn [addPlannerQueries].
  - split_and!; [auto | | exists []; split; [now rewrite app_nil_r | simpl; lia]].
    intros x. split; [auto|]. intros [Hx | (q & Hq & _)]; [exact Hx | now apply elem_of_nil in Hq].
  - set (next := if truthy (trim q) then setAdd queries (trim q) else queries).
    destruct (IH next) as (Hnd & Hin & (added & Hadded & Hlen)).
    assert (Hnext : (NoDup queries -> NoDup next)
                    /\ (forall x, x ∈ next <-> x ∈ queries \/ (trim q <> "" /\ x = trim q))
                    /\ (exists added', next = queries ++ added' /\ length added' <= 1)).
    { subst next. destruct (truthy (trim q)) eqn:Hq.
      - apply truthy_true in Hq. destruct (setAdd_spec queries (trim q)) as (H1 & H2 & H3).
        split_and!; [exact H1 | | exact H3]. intros x. rewrite H2. tauto.
      - apply truthy_false in Hq. split_and!; [auto | | exists []; rewrite app_nil_r; split; [reflexivity | simpl; lia]].
        intros x. rewrite Hq. tauto. }
    destruct Hnext as (Hnd' & Hin' & (added' & Hadded' & Hlen')).
    split_and!.
    + intros Hq. now apply Hnd, Hnd'.
    + intros x. rewrite Hin, Hin'. split.
      * intros [[Hx | [Hne ->]] | (q' & Hq' & Hne & ->)].
        -- now left.
        -- right. exists q. split_and!; [now left | exact Hne | reflexivity].
        -- right. exists q'. split_and!; [now right | exact Hne | reflexivity].
      * intros [Hx | (q' & Hq' & Hne & ->)]; [now left; left|].
        apply elem_of_cons in Hq' as [-> | Hq']; [left; right; now split|].
        right. exists q'. now split_and!.
    + exists (added' ++ added). rewrite Hadded, Hadded', <- app_assoc.
      split; [reflexivity|]. rewrite length_app. simpl. lia.
Qed.

Lemma ballsTest_empty : ballsTest None "" = false.
Proof. reflexivity. Qed.

Lemma ballsToArtifacts_nonempty (before : option ascii) (s : string) :
  s <> "" -> ballsToArtifacts 0 before s <> "".
Proof.
  destruct s as [|c s]; [congruence|]. intros _. cbn [ballsToArtifacts].
  destruct (ballsHere before (String c s)); discriminate.
Qed.

End RetrievalQueries.

(** X22. The retrieval queries: [buildRetrievalQueries] returns a list
    without duplicate and without empty text; for a question that is not
    blank it begins with the trimmed question and the trimmed question
    after the season prefix; every planner query that is not blank is
    in it, trimmed; and it has at most three queries more than the
    planner gave. *)
Theorem buildRetrievalQueries_spec (question : string) (plannerQueries : list string) :
  let queries := Route.buildRetrievalQueries question plannerQueries in
  NoDup queries
  /\ (forall q, q ∈ queries -> q <> "")
  /\ (JS.trim question <> "" ->
      exists rest,
        queries = JS.trim question
                  :: ("FTC DECODE season question: " +:+ JS.trim question) :: rest)
  /\ (forall q, q ∈ plannerQueries -> JS.trim q <> "" -> JS.trim q ∈ queries)
  /\ length queries <= length plannerQueries + 3.
Proof.
  unfold Route.buildRetrievalQueries.
  set (nq := JS.trim question).
  set (prefixed := "FTC DECODE season question: " +:+ nq).
  set (q0 := if JS.truthy nq then JS.setAdd (JS.setAdd [] nq) prefixed else []).
  assert (Hq0 : NoDup q0 /\ (forall x, x ∈ q0 -> x <> "")
                /\ (nq <> "" -> q0 = [nq; prefixed]) /\ length q0 <= 2).
  { subst q0. destruct (JS.truthy nq) eqn:Hnq.
    - apply truthy_true in Hnq.
      assert (Hdiff : String.eqb prefixed nq = false).
      { apply String.eqb_neq. intros Heq. apply (f_equal String.length) in Heq.
        subst prefixed. rewrite length_append in Heq. simpl in Heq. lia. }
      assert (Hq0 : JS.setAdd (JS.setAdd [] nq) prefixed = [nq; prefixed]).
      { unfold JS.setAdd. cbn [existsb orb app]. now rewrite Hdiff. }
      rewrite Hq0. split_and!; [| | reflexivity | simpl; lia].
      + constructor; [|apply NoDup_singleton]. intros Hin.
        apply list_elem_of_singleton in Hin. rewrite Hin, String.eqb_refl in Hdiff. discriminate.
      + intros x Hx. apply elem_of_cons in Hx as [-> | Hx]; [exact Hnq|].
        apply list_elem_of_singleton in Hx as ->. discriminate.
    - apply truthy_false in Hnq. split_and!; [constructor | | congruence | simpl; lia].
      intros x Hx. now apply elem_of_nil in Hx. }
  destruct Hq0 as (Hnd0 & Hne0 & Hhead0 & Hlen0).
  destruct (addPlannerQueries_spec plannerQueries q0) as (Hnd1 & Hin1 & (added1 & Hadd1 & Hlen1)).
  set (q1 := Route.addPlannerQueries plannerQueries q0) in *.
  set (artifacts := Route.ballsToArtifacts 0 None nq).
  assert (Hq2 : forall q2, q2 = (if Route.ballsTest None nq then JS.setAdd q1 artifacts else q1) ->
                  NoDup q2 /\ (forall x, x ∈ q2 -> x ∈ q1 \/ (x = artifacts /\ nq <> ""))
                  /\ (forall x, x ∈ q1 -> x ∈ q2)
                  /\ exists added2, q2 = q1 ++ added2 /\ length added2 <= 1).
  { intros q2 ->. destruct (Route.ballsTest None nq) eqn:Htest.
    - assert (Hnq : nq <> "") by (intros Heq; rewrite Heq in Htest; discriminate).
      destruct (setAdd_spec q1 artifacts) as (H1 & H2 & H3).
      split_and!; [now apply H1, Hnd1 | | | exact H3].
      + intros x Hx. apply H2 in Hx as [Hx | ->]; [now left | now right].
      + intros x Hx. apply H2. now left.
    - split_and!; [now apply Hnd1 | auto | auto | exists []; rewrite app_nil_r; split; [reflexivity | simpl; lia]]. }
  destruct (Hq2 _ eq_refl) as (Hnd2 & Hin2 & Hkeep2 & (added2 & Hadd2 & Hlen2)).
  split_and!.
  - exact Hnd2.
  - intros x Hx. apply Hin2 in Hx as [Hx | [-> Hnq]].
    + apply Hin1 in Hx as [Hx | (q & _ & Hq & ->)]; [now apply Hne0 | exact Hq].
    + now apply ballsToArtifacts_nonempty.
  - intros Hnq. rewrite Hadd2, Hadd1, (Hhead0 Hnq). simpl. eauto.
  - intros q Hq Hne. apply Hkeep2, Hin1. right. exists q. now split_and!.
  - rewrite Hadd2, Hadd1, !length_app. lia.
Qed.

(** ** The request handler *)

Section RequestHandler.
Import JS Retrieval Gemini Route.

Lemma find_app_none {A : Type} (p : A -> bool) (l l' : list A) :
  Forall (fun y => p y = false) l -> List.find p (l ++ l') = List.find p l'.
Proof.
  induction 1 as [|y l Hy Hl IH]; [reflexivity|]. simpl. now rewrite Hy.
Qed.

Lemma find_none {A : Type} (p : A -> bool) (l : list A) :
  Forall (fun y => p y = false) l -> List.find p l = None.
Proof.
  intros Hl. rewrite <- (app_nil_r l). now rewrite find_app_none.
Qed.

(** The last element of a class, found from the end. *)
Lemma find_rev_last {A : Type} (p : A -> bool) (pre post : list A) (x : A) :
  p x = true -> Forall (fun y => p y = false) post ->
  List.find p (rev (pre ++ x :: post)) = Some x.
Proof.
  intros Hx Hpost. rewrite rev_app_distr. cbn [rev]. rewrite <- !app_assoc.
  rewrite find_app_none by now apply List.Forall_rev.
  simpl. now rewrite Hx.
Qed.

Lemma latestUserMessage_last (pre post : list Handler.Message) (m : Handler.Message) :
  Handler.role m = Handler.user ->
  Forall (fun later => Handler.role later <> Handler.user) post ->
  Handler.latestUserMessage (pre ++ m :: post) = Some (Handler.content m).
Proof.
  intros Hm Hpost. unfold Handler.latestUserMessage.
  rewrite (find_rev_last _ pre post m); [reflexivity | now rewrite Hm |].
  eapply Forall_impl; [exact Hpost|]. intros later Hlater. cbv beta in *.
  destruct (Handler.role later); simpl; congruence.
Qed.

Lemma latestUserMessage_none (messages : list Handler.Message) :
  Forall (fun m => Handler.role m <> Handler.user) messages ->
  Handler.latestUserMessage messages = None.
Proof.
  intros Hall. unfold Handler.latestUserMessage. rewrite find_none; [reflexivity|].
  apply List.Forall_rev. eapply Forall_impl; [exact Hall|]. intros m Hm. cbv beta in *.
  destruct (Handler.role m); simpl; congruence.
Qed.

(** The handler, once the question is there. *)
Lemma POST_question (models : Models) (matchCount budget : Z) (env : Env) (backend : Backend)
    (messages : list Handler.Message) (latest : string) (log : list GeminiRequest) :
  Handler.latestUserMessage messages = Some latest -> trim latest <> "" ->
  let question := trim latest in
  let request := Handler.plannerRequest models messages question in
  Handler.POST models matchCount budget env backend messages log
  = match backend (log ++ [request]) with
    | Throw e => (Throw e, log ++ [request])
    | Ok reply =>
        let plan := parsePlannerOutput (text reply) question in
        if shouldShortCircuit plan && truthy (directResponse plan)
        then (Ok (Handler.Plain (directResponse plan)), log ++ [request])
        else
          let contextChunks :=
            retrieveContext env (buildRetrievalQueries question (ragQueries plan)) matchCount in
          match answerQuestion backend contextChunks (chooseFinalModel models plan)
                  (Handler.finalModelSystemInstruction (buildRagSystemPrompt contextChunks))
                  (Handler.finalModelUserPrompt plan messages question)
                  budget (log ++ [request]) with
          | (Ok answered, log') => (Ok (Handler.Streamed (stream answered)), log')
          | (Throw e, log') => (Throw e, log')
          end
    end.
Proof.
  intros Hlatest Hquestion question request. unfold Handler.POST. rewrite Hlatest.
  replace (truthy (trim latest)) with true by (symmetry; now apply truthy_true).
  cbn [negb]. unfold Gemini.bind at 1, generateGeminiText, Gemini.bind at 1,
    generateGeminiTextWithMeta, ret.
  fold question. fold request.
  destruct (backend (log ++ [request])) as [reply|e]; [|reflexivity].
  cbv zeta. destruct (_ && _); [reflexivity|].
  unfold Gemini.bind. now destruct (answerQuestion _ _ _ _ _ _ _) as [[answered|e] log'].
Qed.


Lemma answerQuestion_log (backend : Backend) (contextChunks : list RetrievedChunk)
    (finalModel systemInstruction userPrompt : string) (budget : Z) (log : list GeminiRequest) :
  exists requests,
    snd (answerQuestion backend contextChunks finalModel systemInstruction userPrompt budget log)
    = log ++ requests
    /\ 1 <= length requests <= 3
    /\ Forall (fun request => model request = finalModel) requests.
Proof.
  unfold answerQuestion, Gemini.bind.
  destruct (generateFinalAnswer_requests backend finalModel systemInstruction userPrompt
              budget log) as (generated & Hlog & Hgenerated).
  destruct (generateFinalAnswer _ _ _ _ _ _) as [[first|e] log1]; simpl in Hlog; subst log1.
  - destruct (parseOrRepair_requests backend finalModel (text first) (log ++ generated))
      as (parsedFinal & repair & -> & Hrepair).
    exists (generated ++ repair). rewrite <- app_assoc.
    split; [now destruct (getSourceFragmentsByNumber _ _)|].
    destruct Hgenerated as [-> | ->]; destruct Hrepair as [-> | ->]; simpl;
      (split; [lia | repeat constructor]).
  - exists generated. split; [reflexivity|].
    destruct Hgenerated as [-> | ->]; simpl; (split; [lia | repeat constructor]).
Qed.

End RequestHandler.

(** X23. A request without question is turned away before anything is
    asked of a model: when no message has the role user, or when the
    last message of role user (whatever follows it) has a blank
    content, the handler answers 400 [Missing user question.] and the
    log of generation requests is unchanged; and it answers so only
    then. *)
Theorem POST_missing_question (models : Route.Models) (matchCount budget : Z)
    (env : Retrieval.Env) (backend : Gemini.Backend) (messages : list Handler.Message)
    (log : list Gemini.GeminiRequest) :
  let rejected := (JS.Ok (Handler.BadRequest "Missing user question."), log) in
  (Forall (fun m => Handler.role m <> Handler.user) messages ->
   Handler.POST models matchCount budget env backend messages log = rejected)
  /\ (forall pre m post,
        messages = pre ++ m :: post -> Handler.role m = Handler.user ->
        Forall (fun later => Handler.role later <> Handler.user) post ->
        (JS.trim (Handler.content m) = ""
         <-> Handler.POST models matchCount budget env backend messages log = rejected)).
Proof.
  intros rejected. split.
  - intros Hnone. unfold Handler.POST. now rewrite (latestUserMessage_none messages Hnone).
  - intros pre m post -> Hm Hpost.
    pose proof (latestUserMessage_last pre post m Hm Hpost) as Hlatest. split.
    + intros Hblank. unfold Handler.POST. rewrite Hlatest, Hblank. reflexivity.
    + intros Hrejected.
      destruct (JS.trim (Handler.content m)) as [|c question] eqn:Hquestion; [reflexivity|].
      exfalso. revert Hrejected.
      rewrite (POST_question models matchCount budget env backend _ _ log Hlatest)
        by (rewrite Hquestion; discriminate).
      destruct (backend _) as [reply|e]; [|discriminate].
      cbv zeta. destruct (_ && _); [discriminate|].
      destruct (Route.answerQuestion _ _ _ _ _ _ _) as [[answered|e] log']; discriminate.
Qed.

(** X24. The planner call and the short circuit: for a question that is
    there, the first generation request is the planner request (planner
    model, temperature 0.1, 500 tokens); when it fails, the handler
    fails with that failure (nothing catches it); when the plan parsed
    from its reply asks for a short circuit and has a direct response,
    the handler answers with that direct response after this one
    request, whatever the retrieval environment: no search is made
    and no final model is called. *)
Theorem POST_short_circuit (models : Route.Models) (matchCount budget : Z)
    (env : Retrieval.Env) (backend : Gemini.Backend) (messages : list Handler.Message)
    (latest : string) (log : list Gemini.GeminiRequest) :
  Handler.latestUserMessage messages = Some latest -> JS.trim latest <> "" ->
  let question := JS.trim latest in
  let request := Handler.plannerRequest models messages question in
  (forall e,
      backend (log ++ [request]) = JS.Throw e ->
      Handler.POST models matchCount budget env backend messages log
      = (JS.Throw e, log ++ [request]))
  /\ (forall reply,
        backend (log ++ [request]) = JS.Ok reply ->
        let plan := Route.parsePlannerOutput (Gemini.text reply) question in
        Route.shouldShortCircuit plan = true -> Route.directResponse plan <> "" ->
        forall env',
          Handler.POST models matchCount budget env' backend messages log
          = (JS.Ok (Handler.Plain (Route.directResponse plan)), log ++ [request])).
Proof.
  intros Hlatest Hquestion question request. split.
  - intros e He. rewrite (POST_question _ _ _ _ _ _ _ _ Hlatest Hquestion).
    fold question. fold request. now rewrite He.
  - intros reply Hreply plan Hshort Hdirect env'.
    rewrite (POST_question _ _ _ _ _ _ _ _ Hlatest Hquestion).
    fold question. fold request. rewrite Hreply. cbv zeta. fold plan. rewrite Hshort.
    replace (JS.truthy (Route.directResponse plan)) with true
      by (symmetry; now apply truthy_true).
    reflexivity.
Qed.

Lemma POST_short_circuit_witness :
  Handler.POST defaultModels 6 3072 flakyEnv
    (constantBackend (JS.jsText "{'shouldShortCircuit': true, 'directResponse': ' Hello! '}"))
    (asked " hi ") []
  = (JS.Ok (Handler.Plain "Hello!"), [Handler.plannerRequest defaultModels (asked " hi ") "hi"]).
Proof.
  pose proof (proj2 (POST_short_circuit defaultModels 6 3072 flakyEnv
                       (constantBackend
                          (JS.jsText "{'shouldShortCircuit': true, 'directResponse': ' Hello! '}"))
                       (asked " hi ") " hi " [] eq_refl ltac:(vm_compute; discriminate))
                _ eq_refl) as Hshort.
  cbv zeta in Hshort.
  rewrite (Hshort ltac:(vm_compute; reflexivity) ltac:(vm_compute; discriminate) flakyEnv).
  vm_compute. reflexivity.
Defined.

(** X25. Which model answers, and how often it is asked: when the
    planner has replied and there is no short circuit, the handler
    issues after the planner request between one and three further
    generation requests, all of them to the model chosen from the plan
    by its two axes; and when no JSON object can be taken out of the
    planner's reply there is no short circuit and that model is the
    hard code model. A request costs at most four generation calls. *)
Theorem POST_request_routing (models : Route.Models) (matchCount budget : Z)
    (env : Retrieval.Env) (backend : Gemini.Backend) (messages : list Handler.Message)
    (latest : string) (log : list Gemini.GeminiRequest) (reply : Gemini.GeminiTextResult) :
  Handler.latestUserMessage messages = Some latest -> JS.trim latest <> "" ->
  let question := JS.trim latest in
  let request := Handler.plannerRequest models messages question in
  backend (log ++ [request]) = JS.Ok reply ->
  let plan := Route.parsePlannerOutput (Gemini.text reply) question in
  let run := Handler.POST models matchCount budget env backend messages log in
  (Route.shouldShortCircuit plan && JS.truthy (Route.directResponse plan) = false ->
   exists requests,
     snd run = log ++ request :: requests
     /\ 1 <= length requests <= 3
     /\ Forall (fun r => Gemini.model r = Route.chooseFinalModel models plan) requests)
  /\ (Gemini.extractJsonObject (Gemini.text reply) = None ->
      exists requests,
        snd run = log ++ request :: requests
        /\ 1 <= length requests <= 3
        /\ Forall (fun r => Gemini.model r = Route.HARD_CODE_MODEL models) requests).
Proof.
  intros Hlatest Hquestion question request Hreply plan run.
  assert (Hrun : Route.shouldShortCircuit plan && JS.truthy (Route.directResponse plan) = false ->
                 exists requests,
                   snd run = log ++ request :: requests
                   /\ 1 <= length requests <= 3
                   /\ Forall (fun r => Gemini.model r = Route.chooseFinalModel models plan)
                        requests).
  { intros Hlong. subst run. rewrite (POST_question _ _ _ _ _ _ _ _ Hlatest Hquestion).
    fold question. fold request. rewrite Hreply. cbv zeta. fold plan. rewrite Hlong.
    match goal with
    | |- context [Route.answerQuestion ?b ?c ?m ?si ?up ?bu ?l] =>
        destruct (answerQuestion_log b c m si up bu l) as (requests & Hlog & Hlen & Hmodel);
        destruct (Route.answerQuestion b c m si up bu l) as [[answered|e] log']
    end; simpl in Hlog; subst log'; exists requests; simpl;
      (split_and!; [now rewrite <- app_assoc | lia | lia | exact Hmodel]). }
  split; [exact Hrun|].
  intros Hnone.
  assert (Hplan : plan = Route.conservativePlan question).
  { subst plan. unfold Route.parsePlannerOutput. now rewrite Hnone. }
  destruct Hrun as (requests & Hlog & Hlen & Hmodel); [now rewrite Hplan|].
  exists requests. split_and!; [exact Hlog | lia | lia |]. now rewrite Hplan in Hmodel.
Qed.

Lemma POST_request_routing_witness :
  exists requests,
    snd (Handler.POST defaultModels 6 3072 flakyEnv (constantBackend "plain words")
           (asked "How do I score?") [])
    = [] ++ Handler.plannerRequest defaultModels (asked "How do I score?") "How do I score?"
           :: requests
    /\ 1 <= length requests <= 3
    /\ Forall (fun r => Gemini.model r = "gemini-2.5-pro") requests.
Proof.
  exact (proj2 (POST_request_routing defaultModels 6 3072 flakyEnv
                  (constantBackend "plain words") (asked "How do I score?")
                  "How do I score?" []
                  {| Gemini.text := "plain words"; Gemini.finishReason := Some "STOP" |}
                  eq_refl ltac:(vm_compute; discriminate) eq_refl)
           ltac:(vm_compute; reflexivity)).
Defined.

(** ** The response of the API *)

Section ApiResponse.
Import JS Gemini Route.

Lemma textResultOf_Ok (response : GeminiApi.FetchResponse) (r : GeminiTextResult) :
  GeminiApi.textResultOf response = Ok r ->
  GeminiApi.ok response = true /\ text r <> "" /\ trim (text r) = text r.
Proof.
  unfold GeminiApi.textResultOf. destruct (GeminiApi.ok response); [|discriminate]. cbn [negb].
  destruct (GeminiApi.optional _ GeminiApi.blockReason) as [[|c reason]|];
    try discriminate;
    (destruct (GeminiApi.data response) as [body|]; [|discriminate]);
    (destruct (GeminiApi.optional _ GeminiApi.parts) as [ps|]; [|discriminate]);
    (destruct (truthy (trim _)) eqn:Htext; [|discriminate]);
    intros [= <-]; cbn [text];
    (split_and!; [reflexivity | now apply truthy_true | apply trim_idem]).
Qed.

Lemma generateFinalAnswer_from_backend (backend : Backend)
    (finalModel systemInstruction userPrompt : string) (budget : Z)
    (log log1 : list GeminiRequest) (generated : GeminiTextResult) :
  generateFinalAnswer backend finalModel systemInstruction userPrompt budget log
  = (Ok generated, log1) ->
  exists history, backend history = Ok generated.
Proof.
  rewrite generateFinalAnswer_cases.
  destruct (backend (log ++ [_])) as [first|e] eqn:Hfirst; [|discriminate].
  destruct (decide _).
  - intros [= Hretry _]. eauto.
  - intros [= <- _]. eauto.
Qed.

Lemma answerQuestion_finalAnswer (backend : Backend)
    (contextChunks : list Retrieval.RetrievedChunk)
    (finalModel systemInstruction userPrompt : string) (budget : Z)
    (log log' : list GeminiRequest) (a : Answered) :
  answerQuestion backend contextChunks finalModel systemInstruction userPrompt budget log
  = (Ok a, log') ->
  exists history generated, backend history = Ok generated /\ finalAnswer a = text generated.
Proof.
  unfold answerQuestion, Gemini.bind.
  destruct (generateFinalAnswer _ _ _ _ _ _) as [[generated|e] log1] eqn:Hgenerate;
    [|discriminate].
  destruct (generateFinalAnswer_from_backend _ _ _ _ _ _ _ _ Hgenerate) as (history & Hhistory).
  destruct (parseOrRepair _ _ _ _) as [[parsed|e] log2]; [|discriminate].
  destruct (getSourceFragmentsByNumber _ _) as [sourceFragments|e]; [|discriminate].
  intros [= <- _]. exists history, generated. split; [exact Hhistory | reflexivity].
Qed.

End ApiResponse.

(** X26. A generation never returns blank text: when reading the
    response of the API gives a result, the HTTP response was ok and the
    text is not empty and has no white space at either end (an empty or
    missing candidate text is the error [Gemini returned empty text.]);
    so with the API as backend the final answer the answering stage
    parses is never empty. *)
Theorem textResultOf_never_blank :
  (forall response r,
      GeminiApi.textResultOf response = JS.Ok r ->
      GeminiApi.ok response = true /\ Gemini.text r <> ""
      /\ JS.trim (Gemini.text r) = Gemini.text r)
  /\ (forall exchange contextChunks finalModel systemInstruction userPrompt budget log a log',
        Route.answerQuestion (apiBackend exchange) contextChunks finalModel systemInstruction
          userPrompt budget log = (JS.Ok a, log') ->
        Route.finalAnswer a <> "" /\ JS.trim (Route.finalAnswer a) = Route.finalAnswer a).
Proof.
  split; [exact textResultOf_Ok|].
  intros exchange contextChunks finalModel systemInstruction userPrompt budget log a log' Hrun.
  destruct (answerQuestion_finalAnswer _ _ _ _ _ _ _ _ _ Hrun)
    as (history & generated & Hhistory & ->).
  unfold apiBackend in Hhistory. now destruct (textResultOf_Ok _ _ Hhistory) as (_ & Hne & Htrim).
Qed.

(** X27. The access token is used for 44 minutes: a token obtained at
    time [now] (credentials set, no usable token cached) is cached with
    an expiry 45 minutes later; a call less than 44 minutes after [now]
    answers with the cached token and leaves the cache alone, whatever
    the auth client would answer; a call 44 minutes after [now] or
    later asks the auth client again. Times are in milliseconds. *)
Theorem vertex_token_reuse (GOOGLECREDENTIALS token_ : string) (now : Z)
    (cache0 : option GeminiApi.CachedToken) :
  GOOGLECREDENTIALS <> "" -> token_ <> "" ->
  match cache0 with
  | Some cached => (GeminiApi.expiresAtMs cached - now <= 60000)%Z
  | None => True
  end ->
  let call := GeminiApi.getVertexAccessTokenFromGoogleCredentials (Some GOOGLECREDENTIALS)
                (JS.Ok tt) in
  let cache1 := Some {| GeminiApi.token := token_;
                        GeminiApi.expiresAtMs := (now + 2700000)%Z |} in
  call now (JS.Ok (Some token_)) cache0 = (JS.Ok (Some token_), cache1)
  /\ (forall later accessToken,
        (later - now < 2640000)%Z ->
        call later accessToken cache1 = (JS.Ok (Some token_), cache1))
  /\ (forall later accessToken,
        (2640000 <= later - now)%Z ->
        call later accessToken cache1 = GeminiApi.refreshToken later accessToken cache1).
Proof.
  intros Hcredentials Htoken Hstale call cache1. subst call.
  unfold GeminiApi.getVertexAccessTokenFromGoogleCredentials.
  destruct GOOGLECREDENTIALS as [|c credentials]; [congruence|].
  destruct token_ as [|t token_]; [congruence|].
  split_and!.
  - assert (Hrefresh : GeminiApi.refreshToken now (JS.Ok (Some (String t token_))) cache0
                       = (JS.Ok (Some (String t token_)), cache1)).
    { reflexivity. }
    destruct cache0 as [cached|]; [|exact Hrefresh].
    destruct (Z.gtb_spec (GeminiApi.expiresAtMs cached - now) 60000); [lia | exact Hrefresh].
  - intros later accessToken Hsoon. subst cache1. cbn [GeminiApi.expiresAtMs GeminiApi.token].
    destruct (Z.gtb_spec (now + 2700000 - later) 60000); [reflexivity | lia].
  - intros later accessToken Hlate. subst cache1. cbn [GeminiApi.expiresAtMs GeminiApi.token].
    destruct (Z.gtb_spec (now + 2700000 - later) 60000); [lia | reflexivity].
Qed.

Lemma vertex_token_reuse_witness :
  GeminiApi.getVertexAccessTokenFromGoogleCredentials (Some "eyJ0eXBlIjo") (JS.Ok tt)
    1000000 (JS.Throw "network down")
    (Some {| GeminiApi.token := "ya29.a0"; GeminiApi.expiresAtMs := 2700000 |})
  = (JS.Ok (Some "ya29.a0"),
     Some {| GeminiApi.token := "ya29.a0"; GeminiApi.expiresAtMs := 2700000 |}).
Proof.
  exact (proj1 (proj2 (vertex_token_reuse "eyJ0eXBlIjo" "ya29.a0" 0 None
                         ltac:(discriminate) ltac:(discriminate) I))
           1000000%Z (JS.Throw "network down") ltac:(lia)).
Defined.

(** ** Ingestion: the batches sent to the embedding provider *)

Section Batches.
Import JS.

Lemma totalChars_snoc (batch : list string) (next : string) :
  totalChars (batch ++ [next]) = (totalChars batch + len next)%Z.
Proof.
  induction batch as [|t batch IH]; simpl; [lia | rewrite IH; lia].
Qed.

Lemma fillBatch_spec (size maxChars : Z) (remaining : list string) :
  forall (batch : list string) (batchChars : Z),
    batchChars = totalChars batch -> withinLimits size maxChars batch ->
    exists taken,
      Ingest.fillBatch size maxChars remaining batch batchChars
      = (batch ++ taken, drop (length taken) remaining)
      /\ remaining = taken ++ drop (length taken) remaining
      /\ withinLimits size maxChars (batch ++ taken)
      /\ (batch = [] -> (1 <= size)%Z -> remaining <> [] -> taken <> []).
Proof.
  induction remaining as [|next rest IH]; intros batch batchChars Hchars Hlimits;
    cbn [Ingest.fillBatch].
  - exists []. rewrite app_nil_r. split_and!; [reflexivity | reflexivity | exact Hlimits | congruence].
  - destruct (Z.ltb_spec (Z.of_nat (length batch)) size) as [Hroom|Hfull].
    + destruct ((0 <? length batch) && (batchChars + len next >? maxChars)%Z) eqn:Hbreak.
      * exists []. rewrite app_nil_r.
        split_and!; [reflexivity | reflexivity | exact Hlimits |].
        intros ->. discriminate.
      * destruct (IH (batch ++ [next]) (batchChars + len next)%Z) as (taken & Hrun & Hsplit & Hlim & _).
        { now rewrite totalChars_snoc, Hchars. }
        { destruct Hlimits as [Hcount Hsum]. split.
          - rewrite length_app. simpl. lia.
          - apply andb_false_iff in Hbreak as [Hempty | Hfits].
            + right. apply Nat.ltb_ge in Hempty. rewrite length_app. simpl. lia.
            + left. rewrite totalChars_snoc. rewrite <- Hchars.
              destruct (Z.gtb_spec (batchChars + len next) maxChars); [discriminate | lia]. }
        exists (next :: taken). rewrite <- app_assoc in Hrun, Hlim. simpl in *.
        split_and!; [exact Hrun | now f_equal | exact Hlim | discriminate].
    + exists []. rewrite app_nil_r.
      split_and!; [reflexivity | reflexivity | exact Hlimits |].
      intros -> Hsize. simpl in Hfull. lia.
Qed.


Lemma nextBatch_spec (embedder : Ingest.Embedder) (next : string) (rest : list string) :
  exists batch remaining,
    Ingest.nextBatch embedder next rest = (batch, remaining)
    /\ batch <> [] /\ next :: rest = batch ++ remaining
    /\ withinLimits (Ingest.BATCH_SIZE embedder) (Ingest.EMBED_MAX_CHARS_PER_REQUEST embedder)
         batch.
Proof.
  unfold Ingest.nextBatch.
  destruct (fillBatch_spec (Ingest.BATCH_SIZE embedder)
              (Ingest.EMBED_MAX_CHARS_PER_REQUEST embedder) (next :: rest) [] 0%Z eq_refl)
    as (taken & -> & Hsplit & Hlimits & _).
  { split; simpl; lia. }
  cbn [app] in *. destruct taken as [|t taken].
  - exists [next], rest. split_and!; [reflexivity | discriminate | reflexivity |].
    split; simpl; lia.
  - eexists _, _. split_and!; [reflexivity | discriminate | exact Hsplit | exact Hlimits].
Qed.

Lemma normalizeEmbedding_same (T : nat) (v : list float) :
  Ingest.normalizeEmbedding T v = Rag.normalizeEmbedding T v.
Proof.
  unfold Ingest.normalizeEmbedding, Rag.normalizeEmbedding.
  destruct (length v =? T); [reflexivity|].
  destruct ((T <? length v) && (length v mod T =? 0)); [apply fillBuckets_same|].
  destruct (T <? length v); [reflexivity | apply pushZeros_same].
Qed.

Lemma embedBatches_spec (embedder : Ingest.Embedder) (fuel : nat) :
  let good := withinLimits (Ingest.BATCH_SIZE embedder)
                (Ingest.EMBED_MAX_CHARS_PER_REQUEST embedder) in
  let T := Ingest.EMBEDDING_TARGET_DIMENSIONS embedder in
  forall (remaining : list string) (allEmbeddings : list (list float))
         (sent : list (list string)),
    length remaining < fuel ->
    Forall (fun emb => length emb = T) allEmbeddings ->
    exists outcome batches unsent,
      Ingest.embedBatches fuel embedder remaining allEmbeddings sent
      = Some (outcome, sent ++ batches)
      /\ Forall (fun batch => batch <> [] /\ good batch) batches
      /\ remaining = concat batches ++ unsent
      /\ (forall embeddings, outcome = Ok embeddings ->
             unsent = [] /\ Forall (fun emb => length emb = T) embeddings).
Proof.
  intros good T. induction fuel as [|fuel IH]; intros remaining allEmbeddings sent Hfuel Hall;
    [lia|].
  cbn [Ingest.embedBatches]. destruct remaining as [|next rest].
  - exists (Ok allEmbeddings), [], []. rewrite app_nil_r.
    split_and!; [reflexivity | constructor | reflexivity |].
    intros embeddings [= <-]. now split.
  - destruct (nextBatch_spec embedder next rest) as (batch & remaining' & -> & Hne & Hsplit & Hgood).
    assert (Hshorter : length remaining' < fuel).
    { apply (f_equal (@length string)) in Hsplit. rewrite length_app in Hsplit.
      destruct batch; [congruence|]. simpl in *. lia. }
    destruct (Ingest.embeddingsCreate embedder batch) as [rawEmbeddings|e].
    + destruct (Ingest.checkDimensions embedder rawEmbeddings) as [[]|e].
      * destruct (IH remaining'
                    (allEmbeddings ++ map (Ingest.normalizeEmbedding T) rawEmbeddings)
                    (sent ++ [batch]) Hshorter)
          as (outcome & batches & unsent & Hrun & Hbatches & Hrest & Hok).
        { apply Forall_app. split; [exact Hall|]. apply Forall_forall. intros emb Hemb.
          apply list_elem_of_In, in_map_iff in Hemb as (raw & <- & _).
          rewrite normalizeEmbedding_same. apply length_normalizeEmbedding. }
        exists outcome, (batch :: batches), unsent. rewrite <- app_assoc in Hrun.
        split_and!; [exact Hrun | now constructor | | exact Hok].
        rewrite Hsplit, Hrest. simpl. now rewrite app_assoc.
      * exists (Throw e), [batch], remaining'.
        split_and!; [reflexivity | constructor; [now split | constructor] | | discriminate].
        simpl. now rewrite app_nil_r.
    + exists (Throw e), [batch], remaining'.
      split_and!; [reflexivity | constructor; [now split | constructor] | | discriminate].
      simpl. now rewrite app_nil_r.
Qed.

End Batches.

(** X28. The batches of the ingestion script: with fuel for its loop,
    [embedTexts] returns; the batches it has sent to the provider are
    the texts in their order, split without gap or repetition (all of
    them when it returns embeddings, a first part of them when it
    throws); no batch is empty; a batch has at most BATCH_SIZE texts
    (one, for a BATCH_SIZE below one) and at most
    EMBED_MAX_CHARS_PER_REQUEST characters unless it is a single text;
    and every embedding returned has the target dimension. *)
Theorem embedTexts_batches (embedder : Ingest.Embedder) (texts : list string) (fuel : nat) :
  length texts < fuel ->
  exists outcome batches unsent,
    Ingest.embedTexts fuel embedder texts = Some (outcome, batches)
    /\ Forall (fun batch =>
                 batch <> []
                 /\ withinLimits (Ingest.BATCH_SIZE embedder)
                      (Ingest.EMBED_MAX_CHARS_PER_REQUEST embedder) batch)
         batches
    /\ texts = concat batches ++ unsent
    /\ (forall embeddings,
          outcome = JS.Ok embeddings ->
          unsent = []
          /\ Forall (fun emb => length emb = Ingest.EMBEDDING_TARGET_DIMENSIONS embedder)
               embeddings).
Proof.
  intros Hfuel. unfold Ingest.embedTexts. destruct texts as [|t texts].
  - exists (JS.Ok []), [], []. split_and!; [reflexivity | constructor | reflexivity |].
    intros embeddings [= <-]. split; [reflexivity | constructor].
  - destruct (embedBatches_spec embedder fuel (t :: texts) [] [] Hfuel ltac:(constructor))
      as (outcome & batches & unsent & Hrun & Hbatches & Hsplit & Hok).
    exists outcome, batches, unsent. split_and!; [exact Hrun | exact Hbatches | exact Hsplit | exact Hok].
Qed.

Lemma embedTexts_batches_witness :
  exists outcome batches unsent,
    Ingest.embedTexts 5 smallEmbedder ["aaaa"; "bbbb"; "cccccccccccc"; "d"]
    = Some (outcome, batches)
    /\ ["aaaa"; "bbbb"; "cccccccccccc"; "d"] = concat batches ++ unsent.
Proof.
  destruct (embedTexts_batches smallEmbedder ["aaaa"; "bbbb"; "cccccccccccc"; "d"] 5
              ltac:(simpl; lia)) as (outcome & batches & unsent & Hrun & _ & Hsplit & _).
  exists outcome, batches, unsent. split; [exact Hrun | exact Hsplit].
Defined.

(** ** Ingestion: the source of a file, from the manifest to the reader *)

Section Sources.
Import JS.

Lemma trimmed_nonblank (s : string) : (0 <? String.length (trim s)) = truthy (trim s).
Proof. now destruct (trim s). Qed.

Lemma entryInfo_Ok (require : bool) (normalized : string) (members : list (string * json))
    (info : Ingest.SourceInfo) :
  Ingest.entryInfo require normalized members = Ok info ->
  (forall u, Ingest.sourceUrl info = Some u -> u <> "" /\ trim u = u)
  /\ (require = true -> Ingest.sourceUrl info <> None)
  /\ (Ingest.sourceTitle info = normalized
      \/ (Ingest.sourceTitle info <> ""
          /\ trim (Ingest.sourceTitle info) = Ingest.sourceTitle info)).
Proof.
  unfold Ingest.entryInfo.
  set (sourceUrl := match lookupMember "url" members with Some (JStr u) => trim u | _ => "" end).
  assert (Hurl : trim sourceUrl = sourceUrl).
  { subst sourceUrl. destruct (lookupMember "url" members) as [[| | |u| |]|]; try reflexivity.
    apply trim_idem. }
  assert (Htitle : forall title_,
             title_ = match lookupMember "title" members with
                      | Some (JStr t) => if 0 <? String.length (trim t) then trim t else normalized
                      | _ => normalized
                      end ->
             title_ = normalized \/ (title_ <> "" /\ trim title_ = title_)).
  { intros title_ ->. destruct (lookupMember "title" members) as [[| | |t| |]|]; try (now left).
    rewrite trimmed_nonblank. destruct (truthy (trim t)) eqn:Ht; [|now left].
    right. split; [now apply truthy_true | apply trim_idem]. }
  cbv zeta. destruct (truthy sourceUrl) eqn:Htruthy; cbn [negb andb].
  - intros [= <-]. cbn [Ingest.sourceUrl Ingest.sourceTitle]. split_and!.
    + intros u [= <-]. split; [now apply truthy_true | exact Hurl].
    + discriminate.
    + now apply Htitle.
  - destruct require; [discriminate|]. intros [= <-].
    cbn [Ingest.sourceUrl Ingest.sourceTitle]. split_and!; try discriminate.
    now apply Htitle.
Qed.

Lemma getSourceInfo_Ok (require : bool) (sep : ascii) (relativePath : string)
    (manifest : list (string * json)) (info : Ingest.SourceInfo) :
  Ingest.getSourceInfo require sep relativePath manifest = Ok info ->
  (forall u, Ingest.sourceUrl info = Some u -> u <> "" /\ trim u = u)
  /\ (require = true -> Ingest.sourceUrl info <> None)
  /\ (Ingest.sourceTitle info = Ingest.normalizeRelativePath sep relativePath
      \/ (Ingest.sourceTitle info <> ""
          /\ trim (Ingest.sourceTitle info) = Ingest.sourceTitle info)).
Proof.
  unfold Ingest.getSourceInfo.
  destruct (lookupMember _ manifest) as [[| | | |items|members]|];
    try apply entryInfo_Ok;
    (destruct require; [discriminate|]; intros [= <-];
     cbn [Ingest.sourceUrl Ingest.sourceTitle]; split_and!; try discriminate; now left).
Qed.

End Sources.

(** X29. The source of a file: with RAG_REQUIRE_SOURCE_URL on, a source
    that [getSourceInfo] returns always has a URL (a missing entry, an
    entry that is no object, a missing or blank URL all throw); with it
    off, [getSourceInfo] never throws; in both cases a URL returned is
    not empty and has no white space at either end, and the title is
    the normalized path or a text that is not empty and has no white
    space at either end. *)
Theorem getSourceInfo_urls (sep : ascii) (relativePath : string)
    (manifest : list (string * JS.json)) :
  (forall info,
      Ingest.getSourceInfo true sep relativePath manifest = JS.Ok info ->
      exists u, Ingest.sourceUrl info = Some u /\ u <> "" /\ JS.trim u = u)
  /\ (exists info, Ingest.getSourceInfo false sep relativePath manifest = JS.Ok info)
  /\ (forall require info,
        Ingest.getSourceInfo require sep relativePath manifest = JS.Ok info ->
        (forall u, Ingest.sourceUrl info = Some u -> u <> "" /\ JS.trim u = u)
        /\ (Ingest.sourceTitle info = Ingest.normalizeRelativePath sep relativePath
            \/ (Ingest.sourceTitle info <> ""
                /\ JS.trim (Ingest.sourceTitle info) = Ingest.sourceTitle info))).
Proof.
  split_and!.
  - intros info Hinfo. destruct (getSourceInfo_Ok _ _ _ _ _ Hinfo) as (Hurl & Hrequired & _).
    destruct (Ingest.sourceUrl info) as [u|]; [|now destruct (Hrequired eq_refl)].
    exists u. destruct (Hurl u eq_refl). auto.
  - unfold Ingest.getSourceInfo, Ingest.entryInfo.
    destruct (JS.lookupMember _ manifest) as [[| | | |items|members]|];
      rewrite ?andb_false_r; eauto.
  - intros require info Hinfo. destruct (getSourceInfo_Ok _ _ _ _ _ Hinfo) as (Hurl & _ & Htitle).
    split; assumption.
Qed.

(** X30. From the manifest to the reader: a row that [ingestFile]
    builds for the chunk at [index] of a file carries that index, and
    when the store returns it as the chunk at index [n] of the context,
    the fragment of source number [n+1] shows exactly the URL that
    [getSourceInfo] returned for the file (or none), the chunk trimmed
    as excerpt, and as title the label [[n+1]] followed by the title
    that [getSourceInfo] returned, trimmed (by the path of the file
    when that title is blank). *)
Theorem ingested_source_shown (require : bool) (sep : ascii) (relativePath : string)
    (manifest : list (string * JS.json)) (info : Ingest.SourceInfo)
    (chunks : list string) (embeddings : list (list float)) (index : nat) (row : Ingest.Row)
    (id : string) (similarity : float) (context : list Retrieval.RetrievedChunk) (n : nat) :
  Ingest.getSourceInfo require sep relativePath manifest = JS.Ok info ->
  Ingest.rowsOf relativePath info chunks embeddings !! index = Some row ->
  context !! n = Some (storedAs row id similarity) ->
  exists chunk,
    chunks !! index = Some chunk
    /\ Ingest.chunk_index row = index
    /\ Ingest.embedding row = embeddings !! index
    /\ Route.sourceFragment context (JS.Int (Z.of_nat n + 1))
       = JS.Ok {| Route.title :=
                    "[" +:+ JS.String_ (JS.Int (Z.of_nat n + 1)) +:+ "] "
                    +:+ (if JS.truthy (JS.trim (Ingest.sourceTitle info))
                         then JS.trim (Ingest.sourceTitle info)
                         else relativePath);
                  Route.url := Ingest.sourceUrl info;
                  Route.excerpt := JS.trim chunk |}.
Proof.
  intros Hinfo Hrow Hcontext.
  unfold Ingest.rowsOf in Hrow. rewrite list_lookup_imap in Hrow.
  destruct (chunks !! index) as [chunk|] eqn:Hchunk; [|discriminate].
  injection Hrow as <-. exists chunk. split_and!; try reflexivity.
  assert (Hat : Route.chunkAt context (JS.minus (JS.Int (Z.of_nat n + 1)) (JS.Int 1))
                = Some (storedAs
                          {| Ingest.source := relativePath;
                             Ingest.content := chunk;
                             Ingest.chunk_index := index;
                             Ingest.metadata :=
                               [("source", JS.JStr relativePath);
                                ("source_url",
                                 match Ingest.sourceUrl info with
                                 | Some u => JS.JStr u
                                 | None => JS.JNull
                                 end);
                                ("source_title", JS.JStr (Ingest.sourceTitle info));
                                ("chunk_index", JS.JNum (JS.Int (Z.of_nat index)))];
                             Ingest.embedding := embeddings !! index |} id similarity)).
  { cbn [JS.minus Route.chunkAt]. destruct (Z.ltb_spec (Z.of_nat n + 1 - 1) 0); [lia|].
    now replace (Z.to_nat (Z.of_nat n + 1 - 1)) with n by lia. }
  unfold Route.sourceFragment. rewrite Hat.
  unfold storedAs. cbn [Retrieval.metadata Retrieval.source Retrieval.content option_map
                         Ingest.metadata Ingest.source Ingest.content JS.getPropOpt].
  cbn [JS.lookupMember String.eqb Ascii.eqb Bool.eqb].
  f_equal. f_equal.
  - cbn [Route.trimmedString]. now destruct (JS.truthy (JS.trim (Ingest.sourceTitle info))).
  - destruct (getSourceInfo_Ok _ _ _ _ _ Hinfo) as (Hurl & _ & _).
    destruct (Ingest.sourceUrl info) as [u|]; [|reflexivity].
    destruct (Hurl u eq_refl) as [Hne Htrim]. cbn [Route.trimmedString]. rewrite Htrim.
    now replace (JS.truthy u) with true by (symmetry; now apply truthy_true).
Qed.

Lemma ingested_source_shown_witness :
  Route.sourceFragment [storedAs guideRow "7f3c" 0.5%float] (JS.Int 1)
  = JS.Ok {| Route.title := "[1] Guide";
             Route.url := Some "https://example.org/guide";
             Route.excerpt := "Score ARTIFACTS." |}.
Proof.
  destruct (ingested_source_shown true "/" "guide.md" guideManifest guideInfo
              ["Score ARTIFACTS. "] [[1%float; 0%float]] 0 guideRow "7f3c" 0.5%float
              [storedAs guideRow "7f3c" 0.5%float] 0
              ltac:(vm_compute; reflexivity) ltac:(vm_compute; reflexivity) eq_refl)
    as (chunk & Hchunk & _ & _ & Hfragment).
  injection Hchunk as <-. change (JS.Int 1) with (JS.Int (Z.of_nat 0 + 1)).
  rewrite Hfragment. vm_compute. reflexivity.
Defined.

(** ** The added models on small inputs *)

Example buildRetrievalQueries_balls :
  Route.buildRetrievalQueries " How many balls fit? " ["ball capacity"; "  "; "ball capacity "]
  = ["How many balls fit?";
     "FTC DECODE season question: How many balls fit?";
     "ball capacity";
     "How many ARTIFACTS fit?"].
Proof. vm_compute. reflexivity. Qed.

Example ballsToArtifacts_words :
  Route.ballsToArtifacts 0 None "Football balls, one BALL; balls2 and ball's"
  = "Football ARTIFACTS, one ARTIFACTS; balls2 and ARTIFACTS's"
  /\ Route.ballsTest None "football" = false
  /\ Route.ballsTest None "Balls." = true.
Proof. split_and!; vm_compute; reflexivity. Qed.

Example textResultOf_outcomes :
  let candidate t :=
    {| GeminiApi.content :=
         Some {| GeminiApi.parts := Some [{| GeminiApi.text := Some t |};
                                          {| GeminiApi.text := None |}] |};
       GeminiApi.finishReason := Some "STOP" |} in
  let body cs reason :=
    Some {| GeminiApi.candidates := cs;
            GeminiApi.promptFeedback := Some {| GeminiApi.blockReason := reason |};
            GeminiApi.error := None |} in
  GeminiApi.textResultOf
    {| GeminiApi.ok := true; GeminiApi.status := 200;
       GeminiApi.data := body (Some [candidate " {} "]) None |}
  = JS.Ok {| Gemini.text := "{}"; Gemini.finishReason := Some "STOP" |}
  /\ GeminiApi.textResultOf
       {| GeminiApi.ok := true; GeminiApi.status := 200;
          GeminiApi.data := body (Some [candidate " {} "]) (Some "SAFETY") |}
     = JS.Throw "Gemini blocked prompt: SAFETY"
  /\ GeminiApi.textResultOf
       {| GeminiApi.ok := true; GeminiApi.status := 200; GeminiApi.data := body (Some []) None |}
     = JS.Throw "Gemini returned empty text."
  /\ GeminiApi.textResultOf
       {| GeminiApi.ok := false; GeminiApi.status := 503; GeminiApi.data := None |}
     = JS.Throw "Gemini request failed: 503".
Proof. split_and!; vm_compute; reflexivity. Qed.

Example embedTexts_three_batches :
  option_map snd (Ingest.embedTexts 5 smallEmbedder ["aaaa"; "bbbb"; "cccccccccccc"; "d"])
  = Some [["aaaa"; "bbbb"]; ["cccccccccccc"]; ["d"]].
Proof. vm_compute. reflexivity. Qed.

Example getSourceInfo_guide :
  Ingest.getSourceInfo true "/" "guide.md" guideManifest = JS.Ok guideInfo
  /\ Ingest.getSourceInfo true "/" "notes.md" guideManifest
     = JS.Throw (JS.jsText "Missing source entry for 'notes.md' in data/sources.json.")
  /\ Ingest.normalizeRelativePath "\"%char "docs\guide.md" = "docs/guide.md".
Proof. split_and!; vm_compute; reflexivity. Qed.

Example conversationTranscript_roles :
  Handler.conversationTranscript
    [{| Handler.role := Handler.user; Handler.content := "hi" |};
     {| Handler.role := Handler.assistant; Handler.content := "Hello!" |}]
  = "USER: hi" +:+ String JS.LF "ASSISTANT: Hello!".
Proof. vm_compute. reflexivity. Qed.
